(** * Reminder service (src/index.js): duration parser, schedule
      calculator and the two request handlers.

    The JavaScript of [src/index.js] is embedded shallowly.

    - Numbers are IEEE 754 binary64 values: the Standard Library's
      [spec_float] at precision 53 and exponent bound 1024, with its
      round-to-nearest-even multiplication and addition.
    - Strings are sequences of UTF-16 code units.
    - A request field is a JSON value or [undefined]; conversions to
      string, boolean and number follow the language, a failed conversion
      being a thrown TypeError.
    - The document store is a list of records, a record's identifier
      being its position; the mail transport and the store accept or
      reject each call as an [Environment] decides from the calls made so
      far, and the clock is read from it too.
    - The handlers are written in a state-and-exception monad whose state
      holds the store and the trace of collaborator calls, so the order
      of side effects can be stated.  A request is handled to completion
      before the next one starts.

    Definitions come first; the properties follow, the ones numbered
    C1..C10 being those of the specification and the ones numbered
    X1..X18 further properties read off the code. *)

From Stdlib Require Import ZArith NArith Bool Lia String Ascii.
From Stdlib Require Import Floats.SpecFloat.
From stdpp Require Import base option list gmap.

Local Open Scope Z_scope.

(** ** JavaScript strings *)

Module JS.

(** A string is a sequence of 16-bit code units. *)
Definition code_unit := N.
Definition jsstring := list code_unit.

(** ASCII literals. *)
Definition lit (s : string) : jsstring :=
  List.map N_of_ascii (list_ascii_of_string s).

(** The double-quote code unit, for the [href] attribute of the mails. *)
Definition dquote : jsstring := [34%N].

(** WhiteSpace and LineTerminator code units (what [trim] and the
    builtin integer parse strip): TAB LF VT FF CR SP NBSP, U+1680,
    U+2000..U+200A, U+2028, U+2029, U+202F, U+205F, U+3000, U+FEFF. *)
Definition is_white_space (c : code_unit) : bool :=
  ((9 <=? c) && (c <=? 13) || (c =? 32) || (c =? 160) || (c =? 5760)
   || (8192 <=? c) && (c <=? 8202)
   || (c =? 8232) || (c =? 8233) || (c =? 8239) || (c =? 8287)
   || (c =? 12288) || (c =? 65279))%N.

Fixpoint trimStart (s : jsstring) : jsstring :=
  match s with
  | c :: r => if is_white_space c then trimStart r else s
  | [] => []
  end.

Definition trimEnd (s : jsstring) : jsstring :=
  rev (trimStart (rev s)).

(** [String.prototype.trim] *)
Definition trim (s : jsstring) : jsstring := trimEnd (trimStart s).

(** [s.endsWith(c)] for a one-code-unit search string. *)
Definition endsWith (s : jsstring) (c : code_unit) : bool :=
  match rev s with
  | x :: _ => (x =? c)%N
  | [] => false
  end.

(** ** Numbers: IEEE 754 binary64 *)

Definition Number := spec_float.

Definition prec : Z := 53.
Definition emax : Z := 1024.

(** The Number nearest the integer [z], ties to even. *)
Definition of_Z (z : Z) : Number := binary_normalize prec emax z 0 false.

Definition NaN : Number := S754_nan.
Definition Infinity : Number := S754_infinity false.

Definition mul (x y : Number) : Number := SFmul prec emax x y.
Definition add (x y : Number) : Number := SFadd prec emax x y.
Definition leb (x y : Number) : bool := SFleb x y.
Definition ltb (x y : Number) : bool := SFltb x y.

(** [isNaN] on a Number. *)
Definition isNaN (x : Number) : bool :=
  match x with S754_nan => true | _ => false end.

Definition isFinite (x : Number) : bool :=
  match x with S754_zero _ | S754_finite _ _ _ => true | _ => false end.

(** The exact integer a Number denotes, when it denotes one. *)
Definition to_Z (x : Number) : option Z :=
  match x with
  | S754_zero _ => Some 0
  | S754_finite s m e =>
      if 0 <=? e then Some (cond_Zopp s (Z.pos m * 2 ^ e))
      else if Z.pos m mod 2 ^ (- e) =? 0
           then Some (cond_Zopp s (Z.pos m / 2 ^ (- e)))
           else None
  | _ => None
  end.

Definition is_integer (x : Number) : bool :=
  match to_Z x with Some _ => true | None => false end.

Definition is_infinite (x : Number) : bool :=
  match x with S754_infinity _ => true | _ => false end.

(** A positive Number of magnitude at least 2^53, or plus infinity. *)
Definition is_huge (x : Number) : bool :=
  match x with
  | S754_infinity false => true
  | S754_finite false m e => (1 <=? e) && (54 <=? Z.pos (digits2_pos m) + e)
  | _ => false
  end.

(** The normalised binary64 form of the integer [+-q], for [q] below
    2^53: the mantissa is [q] shifted up to 53 bits. *)
Definition canon (s : bool) (q : positive) : Number :=
  let k := Z.to_nat (53 - Z.pos (digits2_pos q)) in
  S754_finite s (shift_nat k q) (- Z.of_nat k).

(** What an integer computation in binary64 knows of the integer [z >= 0]
    it stands for: the Number is [z] itself below 2^53, and at least 2^53
    otherwise. *)
Definition approximates (z : Z) (x : Number) : Prop :=
  if z <? 2 ^ 53 then x = of_Z z else is_huge x = true.

(** Integer part, rounding toward zero (ToIntegerOrInfinity on a finite
    Number). *)
Definition truncate (x : Number) : Z :=
  match x with
  | S754_finite s m e =>
      if 0 <=? e then cond_Zopp s (Z.pos m * 2 ^ e)
      else cond_Zopp s (Z.pos m / 2 ^ (- e))
  | _ => 0
  end.

(** [|x| <= b] for a finite [x], compared exactly. *)
Definition abs_le (x : Number) (b : Z) : bool :=
  match x with
  | S754_zero _ => 0 <=? b
  | S754_finite _ m e =>
      if 0 <=? e then Z.pos m * 2 ^ e <=? b else Z.pos m <=? b * 2 ^ (- e)
  | _ => false
  end.

(** ** The builtin [parseInt], called with one argument *)

Definition digit_value (radix : Z) (c : code_unit) : option Z :=
  let c := Z.of_N c in
  let v := if (48 <=? c) && (c <=? 57) then Some (c - 48)
           else if (97 <=? c) && (c <=? 122) then Some (c - 87)
           else if (65 <=? c) && (c <=? 90) then Some (c - 55)
           else None in
  match v with
  | Some d => if d <? radix then Some d else None
  | None => None
  end.

(** The digits of the longest prefix of [s] made of radix-[radix] digits. *)
Fixpoint leading_digits (radix : Z) (s : jsstring) : list Z :=
  match s with
  | c :: r =>
      match digit_value radix c with
      | Some d => d :: leading_digits radix r
      | None => []
      end
  | [] => []
  end.

Definition digits_value (radix : Z) (ds : list Z) : Z :=
  fold_left (fun acc d => acc * radix + d) ds 0.

Definition is_sign (c : code_unit) : bool := ((c =? 43) || (c =? 45))%N.

Definition is_decimal_digit (c : code_unit) : bool := ((48 <=? c) && (c <=? 57))%N.

(** The integer a string of decimal digits writes. *)
Definition decimal_string_value (s : jsstring) : Z :=
  fold_left (fun acc c => acc * 10 + (Z.of_N c - 48)) s 0.

(** Whether a text begins with [+] or [-], or with [0x] or [0X]. *)
Definition has_sign_or_hex_prefix (t : jsstring) : bool :=
  match t with
  | c :: r =>
      is_sign c
      || (c =? 48)%N
         && match r with x :: _ => ((x =? 120) || (x =? 88))%N | [] => false end
  | [] => false
  end.

(** [parseInt(string)]: leading white space is skipped, one sign is
    accepted, a [0x] or [0X] prefix selects radix 16, otherwise the radix
    is 10; the longest run of digits is read and its value rounded to the
    nearest Number (the standard lets an implementation replace decimal
    digits after the twentieth by zeros; V8 does not); [NaN] when that
    run is empty. *)
Definition parseInt (input : jsstring) : Number :=
  let s := trimStart input in
  let neg := match s with c :: _ => (c =? 45)%N | [] => false end in
  let s := match s with c :: r => if is_sign c then r else s | [] => s end in
  let '(radix, s) :=
    match s with
    | c :: x :: r =>
        if ((c =? 48) && ((x =? 120) || (x =? 88)))%N then (16, r) else (10, s)
    | _ => (10, s)
    end in
  match leading_digits radix s with
  | [] => NaN
  | ds => binary_normalize prec emax
            (cond_Zopp neg (digits_value radix ds)) 0 neg
  end.

End JS.
Export JS.

(** ** Values, completions and conversions *)

#[local] Set Warnings "-register-all".

(** The values a JSON request body can carry, plus [undefined] for an
    absent field. *)
Inductive value :=
  | VUndefined
  | VNull
  | VBool (b : bool)
  | VNumber (n : Number)
  | VString (s : jsstring)
  | VArray (elems : list value)
  | VObject (props : list (jsstring * value)).

Inductive error :=
  | TypeError      (* a conversion to a primitive failed *)
  | MailError      (* transporter.sendMail rejected *)
  | StoreError.    (* a store call (query, insert, update) rejected *)

(** The outcome of evaluating an expression: a value or a thrown error. *)
Inductive completion (A : Type) :=
  | Normal (a : A)
  | Throw (e : error).
Arguments Normal {A} a.
Arguments Throw {A} e.

Definition cbind {A B} (c : completion A) (k : A -> completion B) : completion B :=
  match c with
  | Normal a => k a
  | Throw e => Throw e
  end.

(** ToBoolean: what [!x] and [x || y] test. *)
Definition ToBoolean (v : value) : bool :=
  match v with
  | VUndefined | VNull => false
  | VBool b => b
  | VNumber (S754_zero _) | VNumber S754_nan => false
  | VNumber _ => true
  | VString s => match s with [] => false | _ => true end
  | VArray _ | VObject _ => true
  end.

Fixpoint uint_units (d : Decimal.uint) : jsstring :=
  match d with
  | Decimal.Nil => []
  | Decimal.D0 r => 48%N :: uint_units r
  | Decimal.D1 r => 49%N :: uint_units r
  | Decimal.D2 r => 50%N :: uint_units r
  | Decimal.D3 r => 51%N :: uint_units r
  | Decimal.D4 r => 52%N :: uint_units r
  | Decimal.D5 r => 53%N :: uint_units r
  | Decimal.D6 r => 54%N :: uint_units r
  | Decimal.D7 r => 55%N :: uint_units r
  | Decimal.D8 r => 56%N :: uint_units r
  | Decimal.D9 r => 57%N :: uint_units r
  end.

(** Decimal digits of a non-negative integer. *)
Definition decimal (z : Z) : jsstring := uint_units (N.to_uint (Z.to_N z)).

Definition has_own_property (props : list (jsstring * value)) (k : jsstring) : bool :=
  existsb (fun p => bool_decide (p.1 = k)) props.

Section Service.

(** Number::toString prints the shortest decimal text that reads back
    as the same Number.  For an integer of magnitude below 2^53 that text
    is the integer's own digits; on every other finite Number (fractions,
    larger magnitudes) the digits are left to this parameter. *)
Variable Number_toString_other : Number -> jsstring.

Definition Number_toString (x : Number) : jsstring :=
  match x with
  | S754_nan => lit "NaN"
  | S754_zero _ => lit "0"
  | S754_infinity s => if s then lit "-Infinity" else lit "Infinity"
  | S754_finite s _ _ =>
      match to_Z x with
      | Some z =>
          if Z.abs z <? 2 ^ 53
          then (if s then lit "-" else []) ++ decimal (Z.abs z)
          else Number_toString_other x
      | None => Number_toString_other x
      end
  end.

(** [String(v)].  An array is joined with commas, [null] and [undefined]
    elements giving the empty string.  A JSON object holds no function, so
    an object converts through Object.prototype.toString unless it has an
    own property named toString, in which case no method yields a
    primitive and the conversion throws a TypeError. *)
Fixpoint ToString (v : value) : completion jsstring :=
  match v with
  | VUndefined => Normal (lit "undefined")
  | VNull => Normal (lit "null")
  | VBool b => Normal (if b then lit "true" else lit "false")
  | VNumber n => Normal (Number_toString n)
  | VString s => Normal s
  | VArray elems =>
      let element (x : value) : completion jsstring :=
        match x with
        | VUndefined | VNull => Normal []
        | _ => ToString x
        end in
      (fix join (l : list value) : completion jsstring :=
         match l with
         | [] => Normal []
         | [x] => element x
         | x :: r =>
             cbind (element x) (fun sx =>
             cbind (join r) (fun sr => Normal (sx ++ lit "," ++ sr)))
         end) elems
  | VObject props =>
      if has_own_property props (lit "toString")
      then Throw TypeError
      else Normal (lit "[object Object]")
  end.

(** ** parseReminderTime (src/index.js, lines 58-89) *)

(** The part of the function after [String(timeStr)]. *)
Definition parse_text (timeStr : jsstring) : option Number :=
  let timeStr := trim timeStr in
  let value := parseInt timeStr in
  if isNaN value then None
  else if endsWith timeStr 109%N then Some value
  else if endsWith timeStr 104%N then Some (mul value (of_Z 60))
  else if endsWith timeStr 100%N then Some (mul (mul value (of_Z 24)) (of_Z 60))
  else Some value.

(** The result is [None] for JavaScript's [null]. *)
Definition parseReminderTime (timeStr : value) : completion (option Number) :=
  match timeStr with
  | VNumber n => Normal (Some n)
  | _ => cbind (ToString timeStr) (fun s => Normal (parse_text s))
  end.


(** ** Dates *)

(** A Date object: its time value is NaN (an invalid date) or a whole
    number of milliseconds since the epoch. *)
Inductive Date :=
  | InvalidDate
  | DateAt (t : Z).

Definition getTime (d : Date) : Number :=
  match d with
  | InvalidDate => NaN
  | DateAt t => of_Z t
  end.

(** [new Date(tv)] for a Number [tv]: TimeClip, which rejects non-finite
    values and magnitudes above 8.64e15 and drops the fraction. *)
Definition new_Date (tv : Number) : Date :=
  if isFinite tv && abs_le tv 8640000000000000
  then DateAt (truncate tv)
  else InvalidDate.

(** [toLocaleString('en-US', {dateStyle: 'short', timeStyle: 'short'})],
    left to the host's locale data. *)
Variable toLocaleString : Date -> jsstring.

(** ** The store, the mail transport and the world they live in *)

(** A stored reminder document (ReminderSchema, lines 22-44).  Its
    identifier is its position in the store. *)
Record Reminder := {
  email : jsstring;
  problemUrl : jsstring;
  problemTitle : option jsstring;
  scheduledFor : Z;
  sent : bool;
  createdAt : Z
}.

Definition mark_sent (r : Reminder) : Reminder :=
  {| email := email r; problemUrl := problemUrl r;
     problemTitle := problemTitle r; scheduledFor := scheduledFor r;
     sent := true; createdAt := createdAt r |}.

Record Mail := {
  mail_from : option jsstring;
  mail_to : value;
  mail_subject : jsstring;
  mail_html : jsstring
}.

(** The calls made on the collaborators, in the order they are made,
    each with its outcome. *)
Inductive Event :=
  | EvMail (m : Mail) (ok : bool)
  | EvInsert (r : Reminder) (ok : bool)
  | EvFind (now : Z) (ids : list nat)
  | EvFindFailed (now : Z)
  | EvUpdate (id : nat) (ok : bool).

Record World := {
  store : list Reminder;
  trace : list Event
}.

(** What the service does not decide: the process environment, the
    clock, and whether the transport and the store accept a call, each as
    a function of the calls made so far. *)
Record Environment := {
  process_env : gmap jsstring jsstring;
  clock : list Event -> Z;
  mail_accepts : list Event -> Mail -> bool;
  find_accepts : list Event -> Z -> bool;
  insert_accepts : list Event -> Reminder -> bool;
  update_accepts : list Event -> nat -> bool
}.

Variable E : Environment.

(** Mongoose's cast of a value to the schema type String; [None] is a
    cast error. *)
Variable castString : value -> option jsstring.

(** State and exceptions: the state survives a throw. *)
Definition M (A : Type) : Type := World -> completion A * World.

Definition ret {A} (a : A) : M A := fun w => (Normal a, w).

Definition bind {A B} (m : M A) (k : A -> M B) : M B :=
  fun w => match m w with
           | (Normal a, w') => k a w'
           | (Throw e, w') => (Throw e, w')
           end.

Definition throw {A} (e : error) : M A := fun w => (Throw e, w).

Definition lift {A} (c : completion A) : M A := fun w => (c, w).

Definition try_catch {A} (m : M A) (handler : error -> M A) : M A :=
  fun w => match m w with
           | (Normal a, w') => (Normal a, w')
           | (Throw e, w') => handler e w'
           end.

Notation "'do' x <- m ; k" := (bind m (fun x => k))
  (at level 10, x name, m at level 100, k at level 200).
Notation "'run' m ; k" := (bind m (fun _ => k))
  (at level 10, m at level 100, k at level 200).

Fixpoint for_of {A} (l : list A) (body : A -> M unit) : M unit :=
  match l with
  | [] => ret tt
  | x :: r => run body x; for_of r body
  end.

Definition log (ev : Event) : M unit :=
  fun w => (Normal tt, {| store := store w; trace := trace w ++ [ev] |}).

(** [new Date()] *)
Definition Date_now : M Z := fun w => (Normal (clock E (trace w)), w).

(** [await transporter.sendMail(mail)] *)
Definition sendMail (mail : Mail) : M unit :=
  fun w =>
    if mail_accepts E (trace w) mail
    then log (EvMail mail true) w
    else (run log (EvMail mail false); throw MailError) w.

(** The fields handed to [new Reminder({...})]. *)
Record ReminderInput := {
  in_email : value;
  in_problemUrl : value;
  in_problemTitle : value;
  in_scheduledFor : Date
}.

(** Casting and validation against the schema: both String fields
    marked required must cast to a non-empty string, an absent title
    stays absent, and the Date must be valid; [sent] takes its default
    [false] and [createdAt] the construction time. *)
Definition validate (i : ReminderInput) (created : Z) : option Reminder :=
  e ← castString (in_email i);
  u ← castString (in_problemUrl i);
  t ← match in_problemTitle i with
      | VUndefined | VNull => Some None
      | v => Some <$> castString v
      end;
  match e, u, in_scheduledFor i with
  | _ :: _, _ :: _, DateAt s =>
      Some {| email := e; problemUrl := u; problemTitle := t;
              scheduledFor := s; sent := false; createdAt := created |}
  | _, _, _ => None
  end.

(** [await reminder.save()] on a new document. *)
Definition save_new (i : ReminderInput) (created : Z) : M unit :=
  match validate i created with
  | None => throw StoreError
  | Some r =>
      fun w =>
        if insert_accepts E (trace w) r
        then (Normal tt, {| store := store w ++ [r];
                            trace := trace w ++ [EvInsert r true] |})
        else (run log (EvInsert r false); throw StoreError) w
  end.

(** [await Reminder.find({scheduledFor: {$lte: now}, sent: false})]:
    the matching documents with their identifiers, in store order, or a
    rejection when the store does not answer the query. *)
Definition is_due (now : Z) (r : Reminder) : bool :=
  (scheduledFor r <=? now) && negb (sent r).

Definition due_reminders (now : Z) (st : list Reminder) : list (nat * Reminder) :=
  List.filter (fun p => is_due now p.2) (imap pair st).

Definition find_due (now : Z) : M (list (nat * Reminder)) :=
  fun w =>
    if find_accepts E (trace w) now
    then
      let due := due_reminders now (store w) in
      (Normal due, {| store := store w;
                      trace := trace w ++ [EvFind now (due.*1)] |})
    else (run log (EvFindFailed now); throw StoreError) w.

(** [reminder.sent = true; await reminder.save()] on a fetched
    document: only the modified path is written. *)
Definition save_sent (id : nat) : M unit :=
  fun w =>
    if update_accepts E (trace w) id
    then (Normal tt, {| store := alter mark_sent id (store w);
                        trace := trace w ++ [EvUpdate id true] |})
    else (run log (EvUpdate id false); throw StoreError) w.

(** ** calculateReminderTime (lines 91-94) *)

Definition calculateReminderTime (minutes : Number) : M Date :=
  do now <- Date_now;
  ret (new_Date (add (getTime (DateAt now)) (mul (mul minutes (of_Z 60)) (of_Z 1000)))).

(** ** Responses *)

Inductive Body :=
  | ErrorBody (error : jsstring)
  | SetReminderBody (message : jsstring) (scheduledFor : jsstring)
  | CheckRemindersBody (processedReminders : nat).

Record Response := { status : Z; body : Body }.

(** [res.status(code).json(body)]; [res.json(body)] answers 200. *)
Definition respond (code : Z) (b : Body) : M Response :=
  ret {| status := code; body := b |}.

Definition nl : jsstring := [10%N].

(** [a || b] *)
Definition or_else (a b : value) : value := if ToBoolean a then a else b.

(** ** POST /api/set-reminder (lines 96-157) *)

Record SetReminderRequest := {
  req_email : value;
  req_problemUrl : value;
  req_problemTitle : value;
  req_reminderMinutes : value
}.

Definition confirmation_html (title url : value) (formatted : jsstring)
  : completion jsstring :=
  cbind (ToString (or_else title (VString (lit "LeetCode Problem")))) (fun t =>
  cbind (ToString url) (fun u1 =>
  cbind (ToString url) (fun u2 =>
  Normal (nl ++ lit "        <h2>Your LeetCode Reminder has been set!</h2>" ++ nl
          ++ lit "        <p>Problem: " ++ t ++ lit "</p>" ++ nl
          ++ lit "        <p>URL: <a href=" ++ dquote ++ u1 ++ dquote ++ lit ">"
          ++ u2 ++ lit "</a></p>" ++ nl
          ++ lit "        <p>You will be reminded on: " ++ formatted ++ lit "</p>" ++ nl
          ++ lit "        <p>Keep coding!</p>" ++ nl
          ++ lit "      ")))).

Definition invalid_time_message : jsstring :=
  lit "Invalid reminder time. Please provide a positive number followed by optional m/h/d suffix (e.g., "
  ++ dquote ++ lit "30m" ++ dquote ++ lit ", " ++ dquote ++ lit "2h" ++ dquote
  ++ lit ", " ++ dquote ++ lit "1d" ++ dquote ++ lit ")".

Definition set_reminder (req : SetReminderRequest) : M Response :=
  let email := req_email req in
  let problemUrl := req_problemUrl req in
  let problemTitle := req_problemTitle req in
  let reminderMinutes := req_reminderMinutes req in
  try_catch
    (if negb (ToBoolean email) || negb (ToBoolean problemUrl)
        || negb (ToBoolean reminderMinutes)
     then respond 400 (ErrorBody (lit "Missing required fields"))
     else
       do parsed <- lift (parseReminderTime reminderMinutes);
       match parsed with
       | None => respond 400 (ErrorBody invalid_time_message)
       | Some minutes =>
           if leb minutes (of_Z 0)
           then respond 400 (ErrorBody invalid_time_message)
           else
             do scheduledFor <- calculateReminderTime minutes;
             let formattedScheduledTime := toLocaleString scheduledFor in
             do html <- lift (confirmation_html problemTitle problemUrl
                             formattedScheduledTime);
             let confirmationMail :=
               {| mail_from := process_env E !! lit "MAIL_USER";
                  mail_to := email;
                  mail_subject := lit "LeetCode Reminder Confirmation";
                  mail_html := html |} in
             run sendMail confirmationMail;
             do created <- Date_now;
             run save_new {| in_email := email; in_problemUrl := problemUrl;
                         in_problemTitle := problemTitle;
                         in_scheduledFor := scheduledFor |} created;
             respond 200 (SetReminderBody (lit "Reminder set successfully")
                                          formattedScheduledTime)
       end)
    (fun _ => respond 500 (ErrorBody (lit "Failed to set reminder"))).

(** ** POST /api/check-reminders (lines 159-196) *)

Definition opt_value (o : option jsstring) : value :=
  match o with Some s => VString s | None => VUndefined end.

Definition reminder_html (title : option jsstring) (url : jsstring) : jsstring :=
  let t := match or_else (opt_value title) (VString (lit "LeetCode Problem")) with
           | VString s => s
           | _ => []
           end in
  nl ++ lit "          <h2>Time to review your LeetCode problem!</h2>" ++ nl
  ++ lit "          <p>Problem: " ++ t ++ lit "</p>" ++ nl
  ++ lit "          <p>URL: <a href=" ++ dquote ++ url ++ dquote ++ lit ">"
  ++ url ++ lit "</a></p>" ++ nl
  ++ lit "          <p>Happy coding!</p>" ++ nl
  ++ lit "        ".

Definition reminder_mail (reminder : Reminder) : Mail :=
  {| mail_from := process_env E !! lit "MAIL_USER";
     mail_to := VString (email reminder);
     mail_subject := lit "Time to Review Your LeetCode Problem!";
     mail_html := reminder_html (problemTitle reminder) (problemUrl reminder) |}.

(** The body of the [for ... of] loop for one fetched document. *)
Definition process_reminder (p : nat * Reminder) : M unit :=
  run sendMail (reminder_mail p.2);
  save_sent p.1.

(** [cron_secret] is [req.headers['x-cron-secret']], [None] when the
    header is absent. *)
Definition check_reminders (cron_secret : option jsstring) : M Response :=
  if negb (bool_decide (cron_secret = Some (lit "Sanjeev")))
  then respond 401 (ErrorBody (lit "Unauthorized"))
  else
    try_catch
      (do now <- Date_now;
       do dueReminders <- find_due now;
       run for_of dueReminders process_reminder;
       respond 200 (CheckRemindersBody (length dueReminders)))
      (fun _ => respond 500 (ErrorBody (lit "Failed to process reminders"))).

(** ** Names for the outcomes of the handlers *)

(** The calls a sweep makes for documents it processes to the end. *)
Definition sweep_events (l : list (nat * Reminder)) : list Event :=
  l ≫= (fun p => [EvMail (reminder_mail p.2) true; EvUpdate p.1 true]).

Definition ok_body (due : list (nat * Reminder)) : Response :=
  {| status := 200; body := CheckRemindersBody (length due) |}.

Definition sweep_failed : Response :=
  {| status := 500; body := ErrorBody (lit "Failed to process reminders") |}.

Definition unauthorized : Response :=
  {| status := 401; body := ErrorBody (lit "Unauthorized") |}.

Definition missing_fields : Response :=
  {| status := 400; body := ErrorBody (lit "Missing required fields") |}.
Definition invalid_time : Response :=
  {| status := 400; body := ErrorBody invalid_time_message |}.
Definition set_failed : Response :=
  {| status := 500; body := ErrorBody (lit "Failed to set reminder") |}.
Definition set_ok (formatted : jsstring) : Response :=
  {| status := 200;
     body := SetReminderBody (lit "Reminder set successfully") formatted |}.

(** The schedule the handler computes for [minutes] at clock reading [now]. *)
Definition schedule (now : Z) (minutes : Number) : Date :=
  new_Date (add (getTime (DateAt now)) (mul (mul minutes (of_Z 60)) (of_Z 1000))).

Definition confirmation_mail (req : SetReminderRequest) (html : jsstring) : Mail :=
  {| mail_from := process_env E !! lit "MAIL_USER";
     mail_to := req_email req;
     mail_subject := lit "LeetCode Reminder Confirmation";
     mail_html := html |}.

Definition reminder_input (req : SetReminderRequest) (scheduledFor : Date) : ReminderInput :=
  {| in_email := req_email req; in_problemUrl := req_problemUrl req;
     in_problemTitle := req_problemTitle req; in_scheduledFor := scheduledFor |}.

(** What one run of the intake handler can do to the world. *)
Inductive intake_outcome (req : SetReminderRequest) (w : World)
  : Response -> World -> Prop :=
  | intake_rejected (resp : Response) :
      status resp = 400 \/ status resp = 500 ->
      intake_outcome req w resp w
  | intake_mail_failed (m : Mail) :
      mail_accepts E (trace w) m = false ->
      intake_outcome req w set_failed
        {| store := store w; trace := trace w ++ [EvMail m false] |}
  | intake_invalid_document (m : Mail) :
      intake_outcome req w set_failed
        {| store := store w; trace := trace w ++ [EvMail m true] |}
  | intake_insert_failed (m : Mail) (r : Reminder) :
      intake_outcome req w set_failed
        {| store := store w; trace := trace w ++ [EvMail m true; EvInsert r false] |}
  | intake_saved (m : Mail) (r : Reminder) (minutes : Number) :
      parseReminderTime (req_reminderMinutes req) = Normal (Some minutes) ->
      leb minutes (of_Z 0) = false ->
      schedule (clock E (trace w)) minutes = DateAt (scheduledFor r) ->
      sent r = false ->
      intake_outcome req w (set_ok (toLocaleString (DateAt (scheduledFor r))))
        {| store := store w ++ [r];
           trace := trace w ++ [EvMail m true; EvInsert r true] |}.

(** One handled request. *)
Inductive step (w w' : World) : Prop :=
  | step_set_reminder (req : SetReminderRequest) (resp : Response) :
      set_reminder req w = (Normal resp, w') -> step w w'
  | step_check_reminders (secret : option jsstring) (resp : Response) :
      check_reminders secret w = (Normal resp, w') -> step w w'.

End Service.

(** ** Definitions used to state the properties *)

(** One handled request, whatever the environment does during it. *)
Definition any_step (Number_toString_other : Number -> jsstring)
    (toLocaleString : Date -> jsstring) (castString : value -> option jsstring)
    (w w' : World) : Prop :=
  exists E, step Number_toString_other toLocaleString E castString w w'.

(** The store after the documents [ids] have been marked sent. *)
Definition mark_all (ids : list nat) (st : list Reminder) : list Reminder :=
  foldl (fun st i => alter mark_sent i st) st ids.

(** How a stored record may differ between two states of the store:
    not at all, or by its [sent] flag going from false to true. *)
Definition evolves (r r' : Reminder) : Prop :=
  r' = r \/ (sent r = false /\ r' = mark_sent r).

(** *** A concrete environment, request and store for the examples *)

Definition example_env (mail_ok : bool) : Environment :=
  {| process_env := ∅;
     clock := fun _ => 1700000000000;
     mail_accepts := fun _ _ => mail_ok;
     find_accepts := fun _ _ => true;
     insert_accepts := fun _ _ => true;
     update_accepts := fun _ _ => true |}.

Definition cast_string (v : value) : option jsstring :=
  match v with VString s => Some s | _ => None end.

Definition example_request (minutes : value) : SetReminderRequest :=
  {| req_email := VString (lit "user@example.com");
     req_problemUrl := VString (lit "https://leetcode.com/problems/two-sum");
     req_problemTitle := VString (lit "Two Sum");
     req_reminderMinutes := minutes |}.

Definition empty_world : World := {| store := []; trace := [] |}.

Definition example_reminder (at_ms : Z) (is_sent : bool) : Reminder :=
  {| email := lit "user@example.com";
     problemUrl := lit "https://leetcode.com/problems/two-sum";
     problemTitle := Some (lit "Two Sum");
     scheduledFor := at_ms; sent := is_sent; createdAt := 1600000000000 |}.

Definition example_world : World :=
  {| store := [example_reminder 1650000000000 false;
               example_reminder 1800000000000 false;
               example_reminder 1660000000000 true;
               example_reminder 1670000000000 false];
     trace := [] |}.

Definition one_128th : Number := S754_finite false 4503599627370496 (-59).

(** Following the spec's words (section 4.1, step 3): the leading decimal
    digit characters of the text, and the integer they write; no digit
    is the InvalidFormat failure. *)
Fixpoint spec_leading_decimal_digits (t : jsstring) : jsstring :=
  match t with
  | c :: r => if is_decimal_digit c then c :: spec_leading_decimal_digits r else []
  | [] => []
  end.

Definition spec_integer_prefix (t : jsstring) : option Z :=
  match spec_leading_decimal_digits t with
  | [] => None
  | ds => Some (decimal_string_value ds)
  end.

(** The numeric part as the source computes it (lines 71-76). *)
Definition numeric_part (t : jsstring) : option Number :=
  let value := parseInt t in
  if isNaN value then None else Some value.

Definition one_and_a_half : Number := S754_finite false 6755399441055744 (-52).

(** Stand-ins for the two host functions the examples never consult. *)
Definition no_text : Number -> jsstring := fun _ => [].
Definition no_format : Date -> jsstring := fun _ => [].

(** The example store swept with a transport that rejects, and with one
    that accepts. *)
Definition failed_sweep : completion Response * World := Eval vm_compute in
  check_reminders (example_env false) (Some (lit "Sanjeev")) example_world.

Definition successful_sweep : completion Response * World := Eval vm_compute in
  check_reminders (example_env true) (Some (lit "Sanjeev")) example_world.

(** *** Definitions for the further properties *)

(** Zero of either sign, a negative Number or minus infinity: the
    Numbers [x] with [x <= 0]. *)
Definition is_nonpositive (x : Number) : bool :=
  match x with
  | S754_zero _ | S754_finite true _ _ | S754_infinity true => true
  | _ => false
  end.

(** What the schema and the Date constructor guarantee of a stored
    record: both required strings are non-empty and the schedule is a
    valid time value. *)
Definition well_formed (r : Reminder) : Prop :=
  email r <> [] /\ problemUrl r <> []
  /\ -8640000000000000 <= scheduledFor r <= 8640000000000000.

(** [q <= x] for an integer [q], compared exactly. *)
Definition at_least (x : Number) (q : Z) : bool :=
  match x with
  | S754_zero _ => q <=? 0
  | S754_infinity s => negb s
  | S754_nan => false
  | S754_finite s m e =>
      if 0 <=? e then q <=? cond_Zopp s (Z.pos m * 2 ^ e)
      else q * 2 ^ (- e) <=? cond_Zopp s (Z.pos m)
  end.

(** Plus zero, a positive Number or plus infinity. *)
Definition is_nonnegative (x : Number) : bool :=
  match x with
  | S754_zero false | S754_finite false _ _ | S754_infinity false => true
  | _ => false
  end.

(** An environment whose clock reads [now], whose transport accepts and
    whose store accepts inserts, and updates as [update_ok] says. *)
Definition example_env_at (now : Z) (update_ok : bool) : Environment :=
  {| process_env := ∅;
     clock := fun _ => now;
     mail_accepts := fun _ _ => true;
     find_accepts := fun _ _ => true;
     insert_accepts := fun _ _ => true;
     update_accepts := fun _ _ => update_ok |}.

(** The example store swept with a store that rejects updates. *)
Definition rejected_update_sweep : completion Response * World := Eval vm_compute in
  check_reminders (example_env_at 1700000000000 false) (Some (lit "Sanjeev")) example_world.

(** The example request for thirty minutes, handled in an empty world. *)
Definition saved_world : completion Response * World := Eval vm_compute in
  set_reminder no_text no_format (example_env true) cast_string
    (example_request (VString (lit "30m"))) empty_world.

(** The swept example store swept again, later. *)
Definition second_sweep : completion Response * World := Eval vm_compute in
  check_reminders (example_env_at 1900000000000 true) (Some (lit "Sanjeev"))
    successful_sweep.2.

(** An environment whose store rejects the query. *)
Definition query_down_env : Environment :=
  {| process_env := ∅;
     clock := fun _ => 1700000000000;
     mail_accepts := fun _ _ => true;
     find_accepts := fun _ _ => false;
     insert_accepts := fun _ _ => true;
     update_accepts := fun _ _ => true |}.

(** The example store swept while the store rejects the query. *)
Definition rejected_query_sweep : completion Response * World := Eval vm_compute in
  check_reminders query_down_env (Some (lit "Sanjeev")) example_world.

(** The sweep that follows the one whose update was rejected. *)
Definition redelivery_sweep : completion Response * World := Eval vm_compute in
  check_reminders (example_env true) (Some (lit "Sanjeev")) rejected_update_sweep.2.

(** The world of the thirty-minute example swept at the request's own
    clock reading, and swept thirty minutes later. *)
Definition early_sweep : completion Response * World := Eval vm_compute in
  check_reminders (example_env true) (Some (lit "Sanjeev")) saved_world.2.

Definition delivery_sweep : completion Response * World := Eval vm_compute in
  check_reminders (example_env_at 1700001800000 true) (Some (lit "Sanjeev"))
    saved_world.2.

(** A JSON object with an entry named toString. *)
Definition unconvertible : value := VObject [(lit "toString", VNull)].

(** * Facts about binary64 arithmetic on integers *)

Module Binary64.

Lemma digits2_pos_bounds (p : positive) :
  2 ^ (Z.pos (digits2_pos p) - 1) <= Z.pos p < 2 ^ Z.pos (digits2_pos p).
Proof.
  induction p as [p IH|p IH|]; cbn [digits2_pos].
  - rewrite Pos2Z.inj_succ, Z.pow_succ_r by lia.
    replace (Z.succ (Z.pos (digits2_pos p)) - 1) with (Z.succ (Z.pos (digits2_pos p) - 1)) by lia.
    rewrite Z.pow_succ_r by lia. lia.
  - rewrite Pos2Z.inj_succ, Z.pow_succ_r by lia.
    replace (Z.succ (Z.pos (digits2_pos p)) - 1) with (Z.succ (Z.pos (digits2_pos p) - 1)) by lia.
    rewrite Z.pow_succ_r by lia. lia.
  - cbn. lia.
Qed.

Lemma digits2_pos_log2 (p : positive) :
  Z.pos (digits2_pos p) = Z.log2 (Z.pos p) + 1.
Proof.
  pose proof (digits2_pos_bounds p) as H.
  symmetry. apply Z.add_move_r. apply Z.log2_unique; [lia|].
  replace (Z.succ (Z.pos (digits2_pos p) - 1)) with (Z.pos (digits2_pos p)) by lia. lia.
Qed.

Lemma digits2_pos_shift_nat (n : nat) (p : positive) :
  Z.pos (digits2_pos (shift_nat n p)) = Z.pos (digits2_pos p) + Z.of_nat n.
Proof.
  induction n as [|n IH]; [cbn; lia|].
  change (shift_nat (S n) p) with (xO (shift_nat n p)).
  cbn [digits2_pos]. rewrite Pos2Z.inj_succ, IH. lia.
Qed.

Lemma iter_pos_shift {A} (f : A -> A) (p : positive) (x : A) :
  SpecFloat.iter_pos f p (f x) = f (SpecFloat.iter_pos f p x).
Proof.
  revert x. induction p as [p IH|p IH|]; intros x; cbn [SpecFloat.iter_pos].
  - now rewrite !IH.
  - now rewrite !IH.
  - reflexivity.
Qed.

Lemma iter_pos_nat {A} (f : A -> A) (p : positive) (x : A) :
  SpecFloat.iter_pos f p x = Nat.iter (Pos.to_nat p) f x.
Proof.
  transitivity (Pos.iter f x p).
  - revert x. induction p as [p IH|p IH|]; intros x; cbn [SpecFloat.iter_pos Pos.iter].
    + now rewrite iter_pos_shift, iter_pos_shift, !IH.
    + now rewrite !IH.
    + reflexivity.
  - apply Pos2Nat.inj_iter.
Qed.

Lemma shr_1_exact (n j : nat) (q : positive) :
  Nat.iter n shr_1 (Build_shr_record (Z.pos (shift_nat (n + j) q)) false false)
  = Build_shr_record (Z.pos (shift_nat j q)) false false.
Proof.
  induction n as [|n IH]; [reflexivity|].
  rewrite Nat.iter_succ_r.
  change (shift_nat (S n + j) q) with (xO (shift_nat (n + j) q)).
  cbn [shr_1 orb]. exact IH.
Qed.

Lemma fexp_small (d : Z) : 0 < d -> fexp prec emax d = d - 53.
Proof. intros. unfold fexp, emin, prec, emax. lia. Qed.

(** Rounding a mantissa [q * 2^k] at exponent [-k] when [q] fits in 53 bits. *)
Lemma binary_round_aux_exact (s : bool) (q : positive) (k : nat) :
  Z.pos (digits2_pos q) <= 53 ->
  binary_round_aux prec emax s (Z.pos (shift_nat k q)) (- Z.of_nat k) loc_Exact
  = let k' := Nat.min k (Z.to_nat (53 - Z.pos (digits2_pos q))) in
    S754_finite s (shift_nat k' q) (- Z.of_nat k').
Proof.
  intros Hd. cbv zeta.
  set (d := Z.pos (digits2_pos q)) in *.
  assert (Hstep : forall k0 : nat, (k0 <= Z.to_nat (53 - d))%nat ->
     shr_fexp prec emax (Z.pos (shift_nat k0 q)) (- Z.of_nat k0) loc_Exact
     = (Build_shr_record (Z.pos (shift_nat k0 q)) false false, - Z.of_nat k0)).
  { intros k0 Hk0. unfold shr_fexp. cbn [Zdigits2].
    rewrite digits2_pos_shift_nat. fold d.
    replace (d + Z.of_nat k0 + - Z.of_nat k0) with d by lia.
    rewrite fexp_small by (unfold d; lia).
    unfold shr. cbn [shr_record_of_loc].
    destruct (d - 53 - - Z.of_nat k0) eqn:En; try reflexivity. lia. }
  unfold binary_round_aux.
  destruct (Nat.le_gt_cases k (Z.to_nat (53 - d))) as [Hk|Hk].
  - rewrite Nat.min_l by lia. rewrite Hstep by lia.
    cbn [shr_m loc_of_shr_record round_nearest_even].
    rewrite Hstep by lia. cbn [shr_m].
    unfold emax, prec. destruct (Z.leb_spec (- Z.of_nat k) (1024 - 53)); [reflexivity|lia].
  - rewrite Nat.min_r by lia.
    set (k' := Z.to_nat (53 - d)) in *.
    assert (Hfirst : shr_fexp prec emax (Z.pos (shift_nat k q)) (- Z.of_nat k) loc_Exact
       = (Build_shr_record (Z.pos (shift_nat k' q)) false false, - Z.of_nat k')).
    { unfold shr_fexp. cbn [Zdigits2].
      rewrite digits2_pos_shift_nat. fold d.
      replace (d + Z.of_nat k + - Z.of_nat k) with d by lia.
      rewrite fexp_small by (unfold d; lia).
      unfold shr. cbn [shr_record_of_loc].
      destruct (d - 53 - - Z.of_nat k) as [|p|p] eqn:En; try lia.
      rewrite iter_pos_nat.
      replace k with (Pos.to_nat p + k')%nat at 1 by lia.
      rewrite shr_1_exact. f_equal. lia. }
    rewrite Hfirst. cbn [shr_m loc_of_shr_record round_nearest_even].
    rewrite Hstep by lia. cbn [shr_m].
    unfold emax, prec. destruct (Z.leb_spec (- Z.of_nat k') (1024 - 53)); [reflexivity|lia].
Qed.

Lemma digits2_pos_le_53 (q : positive) :
  Z.pos q < 2 ^ 53 -> Z.pos (digits2_pos q) <= 53.
Proof.
  intros Hq. pose proof (digits2_pos_bounds q) as [Hlo _].
  destruct (Z.le_gt_cases (Z.pos (digits2_pos q)) 53) as [|Hgt]; [assumption|].
  assert (2 ^ 53 <= 2 ^ (Z.pos (digits2_pos q) - 1)) by (apply Z.pow_le_mono_r; lia).
  lia.
Qed.

Lemma binary_round_aux_canon (s : bool) (q : positive) (k : nat) :
  Z.pos q < 2 ^ 53 ->
  (Z.to_nat (53 - Z.pos (digits2_pos q)) <= k)%nat ->
  binary_round_aux prec emax s (Z.pos (shift_nat k q)) (- Z.of_nat k) loc_Exact
  = canon s q.
Proof.
  intros Hq Hk. rewrite binary_round_aux_exact by now apply digits2_pos_le_53.
  cbv zeta. rewrite Nat.min_r by assumption. reflexivity.
Qed.

Lemma shift_pos_shift_nat (d : positive) (q : positive) :
  Pos.iter xO q d = shift_nat (Pos.to_nat d) q.
Proof. exact (shift_pos_nat d q). Qed.

Lemma binary_round_canon (s : bool) (q : positive) :
  Z.pos q < 2 ^ 53 -> binary_round prec emax s q 0 = canon s q.
Proof.
  intros Hq. pose proof (digits2_pos_le_53 q Hq) as Hd.
  unfold binary_round. rewrite Z.add_0_r, fexp_small by lia.
  unfold shl_align.
  destruct (Z.pos (digits2_pos q) - 53 - 0) as [|p|p] eqn:En; try lia.
  - change (Z.pos q) with (Z.pos (shift_nat 0 q)). change 0 with (- Z.of_nat 0).
    apply binary_round_aux_canon; [assumption|lia].
  - rewrite shift_pos_shift_nat.
    replace (Z.pos (digits2_pos q) - 53) with (- Z.of_nat (Pos.to_nat p)) by lia.
    apply binary_round_aux_canon; [assumption|lia].
Qed.

Lemma of_Z_pos (q : positive) : Z.pos q < 2 ^ 53 -> of_Z (Z.pos q) = canon false q.
Proof. intros. unfold of_Z. cbn [binary_normalize]. now apply binary_round_canon. Qed.

Lemma shift_nat_mul (n m : nat) (a b : positive) :
  (shift_nat n a * shift_nat m b)%positive = shift_nat (n + m) (a * b).
Proof.
  apply Pos2Z.inj. rewrite Pos2Z.inj_mul, !shift_nat_correct, Pos2Z.inj_mul.
  rewrite Zpower_nat_is_exp. ring.
Qed.

Lemma shift_nat_add (n : nat) (a b : positive) :
  (shift_nat n a + shift_nat n b)%positive = shift_nat n (a + b).
Proof.
  apply Pos2Z.inj. rewrite Pos2Z.inj_add, !shift_nat_correct, Pos2Z.inj_add. ring.
Qed.

Lemma shift_nat_shift_nat (n m : nat) (a : positive) :
  shift_nat n (shift_nat m a) = shift_nat (n + m) a.
Proof.
  induction n as [|n IH]; [reflexivity|].
  change (shift_nat (S n) (shift_nat m a)) with (xO (shift_nat n (shift_nat m a))).
  rewrite IH. reflexivity.
Qed.

Lemma digits2_pos_mul_lower (a b : positive) :
  Z.pos (digits2_pos a) + Z.pos (digits2_pos b) - 1 <= Z.pos (digits2_pos (a * b)).
Proof.
  rewrite !digits2_pos_log2, Pos2Z.inj_mul.
  pose proof (Z.log2_mul_below (Z.pos a) (Z.pos b)). lia.
Qed.

Lemma digits2_pos_mono (a b : positive) :
  (a <= b)%positive -> Z.pos (digits2_pos a) <= Z.pos (digits2_pos b).
Proof.
  intros H. rewrite !digits2_pos_log2.
  pose proof (Z.log2_le_mono (Z.pos a) (Z.pos b)). lia.
Qed.

(** Products of integers are exact below 2^53. *)
Lemma mul_canon (s1 s2 : bool) (a b : positive) :
  Z.pos a < 2 ^ 53 -> Z.pos b < 2 ^ 53 -> Z.pos (a * b) < 2 ^ 53 ->
  mul (canon s1 a) (canon s2 b) = canon (xorb s1 s2) (a * b).
Proof.
  intros Ha Hb Hab. unfold mul, canon at 1 2. cbn [SFmul].
  rewrite shift_nat_mul.
  pose proof (digits2_pos_le_53 a Ha). pose proof (digits2_pos_le_53 b Hb).
  pose proof (digits2_pos_le_53 _ Hab). pose proof (digits2_pos_mul_lower a b).
  set (ka := Z.to_nat (53 - Z.pos (digits2_pos a))).
  set (kb := Z.to_nat (53 - Z.pos (digits2_pos b))).
  replace (- Z.of_nat ka + - Z.of_nat kb) with (- Z.of_nat (ka + kb)) by lia.
  apply binary_round_aux_canon; [assumption|]. lia.
Qed.

(** Sums of non-negative integers are exact below 2^53. *)
Lemma add_canon (a b : positive) :
  Z.pos a < 2 ^ 53 -> Z.pos b < 2 ^ 53 -> Z.pos (a + b) < 2 ^ 53 ->
  add (canon false a) (canon false b) = canon false (a + b).
Proof.
  intros Ha Hb Hab. unfold add, canon at 1 2. cbn [SFadd].
  pose proof (digits2_pos_le_53 a Ha) as Hda. pose proof (digits2_pos_le_53 b Hb) as Hdb.
  pose proof (digits2_pos_le_53 _ Hab) as Hdab.
  assert (Z.pos (digits2_pos a) <= Z.pos (digits2_pos (a + b))) by (apply digits2_pos_mono; lia).
  assert (Z.pos (digits2_pos b) <= Z.pos (digits2_pos (a + b))) by (apply digits2_pos_mono; lia).
  set (ka := Z.to_nat (53 - Z.pos (digits2_pos a))) in *.
  set (kb := Z.to_nat (53 - Z.pos (digits2_pos b))) in *.
  set (K := Nat.max ka kb).
  assert (HK : Z.min (- Z.of_nat ka) (- Z.of_nat kb) = - Z.of_nat K) by lia.
  rewrite HK.
  assert (Hal : forall (k : nat) (q : positive), (k <= K)%nat ->
            fst (shl_align (shift_nat k q) (- Z.of_nat k) (- Z.of_nat K)) = shift_nat K q).
  { intros k q Hk. unfold shl_align.
    destruct (- Z.of_nat K - - Z.of_nat k) as [|p|p] eqn:En; try lia.
    - cbn [fst]. f_equal. lia.
    - cbn [fst]. rewrite shift_pos_shift_nat, shift_nat_shift_nat. f_equal. lia. }
  rewrite !Hal by lia. cbn [cond_Zopp]. rewrite <- Pos2Z.inj_add, shift_nat_add.
  cbn [binary_normalize]. unfold binary_round.
  rewrite digits2_pos_shift_nat.
  replace (Z.pos (digits2_pos (a + b)) + Z.of_nat K + - Z.of_nat K)
    with (Z.pos (digits2_pos (a + b))) by lia.
  rewrite fexp_small by lia. unfold shl_align.
  destruct (Z.pos (digits2_pos (a + b)) - 53 - - Z.of_nat K) as [|p|p] eqn:En; try lia.
  - apply binary_round_aux_canon; [assumption|lia].
  - apply binary_round_aux_canon; [assumption|lia].
Qed.

Lemma shift_nat_Z (n : nat) (q : positive) :
  Z.pos (shift_nat n q) = Z.pos q * 2 ^ Z.of_nat n.
Proof. rewrite shift_nat_correct, Zpower_nat_Z. ring. Qed.

Lemma to_Z_canon (s : bool) (q : positive) :
  to_Z (canon s q) = Some (cond_Zopp s (Z.pos q)).
Proof.
  unfold canon, to_Z. set (k := Z.to_nat _).
  rewrite shift_nat_Z.
  destruct (Z.leb_spec 0 (- Z.of_nat k)).
  - replace (Z.of_nat k) with 0 by lia. cbn [Z.opp]. now rewrite !Z.pow_0_r, !Z.mul_1_r.
  - rewrite Z.opp_involutive. rewrite Z.mod_mul by lia. cbn [Z.eqb].
    rewrite Z.div_mul by lia. reflexivity.
Qed.

Lemma truncate_canon (s : bool) (q : positive) :
  truncate (canon s q) = cond_Zopp s (Z.pos q).
Proof.
  unfold canon, truncate. set (k := Z.to_nat _).
  rewrite shift_nat_Z.
  destruct (Z.leb_spec 0 (- Z.of_nat k)).
  - replace (Z.of_nat k) with 0 by lia. cbn [Z.opp]. now rewrite !Z.pow_0_r, !Z.mul_1_r.
  - rewrite Z.opp_involutive. rewrite Z.div_mul by lia. reflexivity.
Qed.

Lemma abs_le_canon (s : bool) (q : positive) (b : Z) :
  abs_le (canon s q) b = (Z.pos q <=? b).
Proof.
  unfold canon, abs_le. set (k := Z.to_nat _).
  rewrite shift_nat_Z.
  destruct (Z.leb_spec 0 (- Z.of_nat k)).
  - replace (Z.of_nat k) with 0 by lia. cbn [Z.opp]. now rewrite !Z.pow_0_r, !Z.mul_1_r.
  - rewrite Z.opp_involutive.
    assert (0 < 2 ^ Z.of_nat k) by (apply Z.pow_pos_nonneg; lia).
    destruct (Z.leb_spec (Z.pos q) b), (Z.leb_spec (Z.pos q * 2 ^ Z.of_nat k) (b * 2 ^ Z.of_nat k));
      try reflexivity; nia.
Qed.

Lemma shr_1_nonneg (mrs : shr_record) : 0 <= shr_m mrs -> 0 <= shr_m (shr_1 mrs).
Proof.
  destruct mrs as [m r s]. cbn [shr_m]. intros Hm.
  destruct m as [|[p|p|]|p]; cbn; lia.
Qed.

Lemma shr_spec (mrs : shr_record) (e n : Z) :
  0 <= shr_m mrs ->
  0 <= shr_m (fst (shr mrs e n)) /\ snd (shr mrs e n) = e + Z.max 0 n.
Proof.
  intros Hm. unfold shr. destruct n as [|p|p]; cbn [fst snd].
  - split; [assumption|lia].
  - split; [|lia]. rewrite iter_pos_nat.
    induction (Pos.to_nat p) as [|k IH]; [assumption|].
    cbn [Nat.iter nat_rect]. now apply shr_1_nonneg.
  - split; [assumption|lia].
Qed.

Lemma round_nearest_even_nonneg (m : Z) (l : location) :
  0 <= m -> 0 <= round_nearest_even m l.
Proof.
  intros. unfold round_nearest_even.
  destruct l as [|[| |]]; try destruct (Z.even m); lia.
Qed.

(** Rounding never lowers the exponent it is given, nor goes below the
    exponent of the format at that magnitude. *)
Lemma binary_round_aux_exponent (s : bool) (m : positive) (e : Z) (l : location) :
  match binary_round_aux prec emax s (Z.pos m) e l with
  | S754_zero _ | S754_infinity _ => True
  | S754_nan => False
  | S754_finite _ _ e' => e <= e' /\ fexp prec emax (Z.pos (digits2_pos m) + e) <= e'
  end.
Proof.
  unfold binary_round_aux, shr_fexp. cbn [Zdigits2].
  set (f := fexp prec emax (Z.pos (digits2_pos m) + e)).
  pose proof (shr_spec (shr_record_of_loc (Z.pos m) l) e (f - e)) as H1.
  destruct (shr (shr_record_of_loc (Z.pos m) l) e (f - e)) as [mrs1 e1].
  cbn [fst snd] in H1. destruct H1 as [Hm1 He1].
  { destruct l as [|[| |]]; cbn; lia. }
  set (m1 := round_nearest_even (shr_m mrs1) (loc_of_shr_record mrs1)).
  assert (Hm1' : 0 <= m1) by now apply round_nearest_even_nonneg.
  set (n2 := fexp prec emax (Zdigits2 m1 + e1) - e1).
  pose proof (shr_spec (shr_record_of_loc m1 loc_Exact) e1 n2 Hm1') as H2.
  destruct (shr (shr_record_of_loc m1 loc_Exact) e1 n2) as [mrs2 e2].
  cbn [fst snd] in H2. destruct H2 as [Hm2 He2].
  destruct (shr_m mrs2) as [|p|p]; [exact I| |lia].
  destruct (e2 <=? emax - prec); [|exact I]. lia.
Qed.

Lemma is_integer_exponent (s : bool) (m : positive) (e : Z) :
  0 <= e -> is_integer (S754_finite s m e) = true.
Proof.
  intros He. unfold is_integer, to_Z.
  now destruct (Z.leb_spec 0 e); [|lia].
Qed.

Lemma is_integer_shift_nat (s : bool) (q : positive) (k : nat) :
  is_integer (S754_finite s (shift_nat k q) (- Z.of_nat k)) = true.
Proof.
  unfold is_integer, to_Z. destruct (0 <=? - Z.of_nat k); [reflexivity|].
  rewrite shift_nat_Z, Z.opp_involutive, Z.mod_mul by lia. reflexivity.
Qed.

(** What [binary_round_aux] returns on an integer is an integer or an
    infinity. *)
Lemma binary_round_aux_integer_nonneg (s : bool) (m : positive) (e : Z) (l : location) :
  0 <= e ->
  let r := binary_round_aux prec emax s (Z.pos m) e l in
  is_integer r || is_infinite r = true.
Proof.
  intros He. cbv zeta. pose proof (binary_round_aux_exponent s m e l) as H.
  destruct (binary_round_aux prec emax s (Z.pos m) e l) as [s'|s'| |s' m' e'];
    try reflexivity; [contradiction|].
  rewrite is_integer_exponent by lia. reflexivity.
Qed.

Lemma binary_round_aux_integer_shift (s : bool) (q : positive) (k : nat) :
  let r := binary_round_aux prec emax s (Z.pos (shift_nat k q)) (- Z.of_nat k) loc_Exact in
  is_integer r || is_infinite r = true.
Proof.
  cbv zeta.
  destruct (Z.le_gt_cases (Z.pos (digits2_pos q)) 53) as [Hd|Hd].
  - rewrite binary_round_aux_exact by assumption. cbv zeta.
    now rewrite is_integer_shift_nat.
  - pose proof (binary_round_aux_exponent s (shift_nat k q) (- Z.of_nat k) loc_Exact) as H.
    destruct (binary_round_aux prec emax s (Z.pos (shift_nat k q)) (- Z.of_nat k) loc_Exact)
      as [s'|s'| |s' m' e']; try reflexivity; [contradiction|].
    rewrite digits2_pos_shift_nat in H.
    replace (Z.pos (digits2_pos q) + Z.of_nat k + - Z.of_nat k)
      with (Z.pos (digits2_pos q)) in H by lia.
    unfold fexp, emin, prec, emax in H.
    rewrite is_integer_exponent by lia. reflexivity.
Qed.

Lemma divide_shift_nat (m : positive) (k : nat) :
  (2 ^ Z.of_nat k | Z.pos m) -> exists q, m = shift_nat k q.
Proof.
  intros [c Hc].
  assert (0 < 2 ^ Z.of_nat k) by (apply Z.pow_pos_nonneg; lia).
  assert (0 < c) by nia.
  exists (Z.to_pos c). apply Pos2Z.inj. rewrite shift_nat_Z, Z2Pos.id by lia. exact Hc.
Qed.

Lemma is_integer_finite (s : bool) (m : positive) (e : Z) :
  is_integer (S754_finite s m e) = true <-> 0 <= e \/ (2 ^ (- e) | Z.pos m).
Proof.
  unfold is_integer, to_Z. destruct (Z.leb_spec 0 e) as [He|He].
  - split; [now left|reflexivity].
  - destruct (Z.eqb_spec (Z.pos m mod 2 ^ (- e)) 0) as [Hm|Hm].
    + split; [|reflexivity]. intros _. right. apply Z.mod_divide; [|assumption].
      apply Z.pow_nonzero; lia.
    + split; [discriminate|]. intros [|Hdiv]; [lia|].
      apply Z.mod_divide in Hdiv; [contradiction|]. apply Z.pow_nonzero; lia.
Qed.

Lemma binary_round_aux_integer (s : bool) (m : positive) (e : Z) :
  0 <= e \/ (2 ^ (- e) | Z.pos m) ->
  let r := binary_round_aux prec emax s (Z.pos m) e loc_Exact in
  is_integer r || is_infinite r = true.
Proof.
  intros H. destruct (Z.le_gt_cases 0 e) as [He|He].
  - now apply binary_round_aux_integer_nonneg.
  - destruct H as [|Hdiv]; [lia|].
    set (k := Z.to_nat (- e)).
    assert (He' : e = - Z.of_nat k) by lia.
    clearbody k. subst e. rewrite Z.opp_involutive in Hdiv.
    destruct (divide_shift_nat _ _ Hdiv) as [q ->].
    apply binary_round_aux_integer_shift.
Qed.

Lemma binary_normalize_integer (z : Z) (szero : bool) :
  let r := binary_normalize prec emax z 0 szero in
  is_integer r || is_infinite r = true.
Proof.
  assert (H : forall s q, let r := binary_round prec emax s q 0 in
                          is_integer r || is_infinite r = true).
  { intros s q. cbv zeta. unfold binary_round, shl_align.
    destruct (fexp prec emax (Z.pos (digits2_pos q) + 0) - 0) as [|p|p] eqn:En.
    - apply binary_round_aux_integer. now left.
    - apply binary_round_aux_integer. now left.
    - rewrite shift_pos_shift_nat.
      replace (fexp prec emax (Z.pos (digits2_pos q) + 0)) with (- Z.of_nat (Pos.to_nat p)) by lia.
      apply binary_round_aux_integer_shift. }
  destruct z; cbn [binary_normalize]; [reflexivity| |]; apply H.
Qed.

Lemma mul_integer (x y : Number) :
  is_integer x || is_infinite x = true ->
  is_integer y = true -> y <> S754_zero false -> y <> S754_zero true ->
  let r := mul x y in is_integer r || is_infinite r = true.
Proof.
  intros Hx Hy Hy0 Hy1. cbv zeta.
  destruct y as [[]| | |sy my ey]; try congruence; try discriminate.
  destruct x as [sx|sx| |sx mx ex]; try reflexivity; try discriminate.
  unfold mul. cbn [SFmul].
  rewrite orb_false_r in Hx.
  apply is_integer_finite in Hx. apply is_integer_finite in Hy.
  apply binary_round_aux_integer.
  destruct (Z.le_gt_cases 0 (ex + ey)) as [|Hneg]; [now left|right].
  rewrite Pos2Z.inj_mul.
  destruct Hx as [Hx|Hx], Hy as [Hy|Hy]; try lia.
  - apply Z.divide_mul_r. apply Z.divide_trans with (2 ^ (- ey)); [|assumption].
    replace (- ey) with ((- (ex + ey)) + ex) by lia.
    rewrite Z.pow_add_r by lia. now apply Z.divide_mul_l.
  - apply Z.divide_mul_l. apply Z.divide_trans with (2 ^ (- ex)); [|assumption].
    replace (- ex) with ((- (ex + ey)) + ey) by lia.
    rewrite Z.pow_add_r by lia. now apply Z.divide_mul_l.
  - destruct (Z.le_gt_cases 0 ex), (Z.le_gt_cases 0 ey); try lia.
    + apply Z.divide_mul_r. apply Z.divide_trans with (2 ^ (- ey)); [|assumption].
      replace (- ey) with ((- (ex + ey)) + ex) by lia.
      rewrite Z.pow_add_r by lia. now apply Z.divide_mul_l.
    + apply Z.divide_mul_l. apply Z.divide_trans with (2 ^ (- ex)); [|assumption].
      replace (- ex) with ((- (ex + ey)) + ey) by lia.
      rewrite Z.pow_add_r by lia. now apply Z.divide_mul_l.
    + replace (- (ex + ey)) with (- ex + - ey) by lia.
      rewrite Z.pow_add_r by lia.
      destruct Hx as [c ->], Hy as [d ->]. exists (c * d). ring.
Qed.

Lemma of_Z_exact (z : Z) : 0 <= z < 2 ^ 53 -> to_Z (of_Z z) = Some z.
Proof.
  intros [H0 H1]. destruct z as [|q|q]; [reflexivity| |lia].
  rewrite of_Z_pos by assumption. apply to_Z_canon.
Qed.

Lemma mul_of_Z (a b : Z) :
  0 <= a -> 0 < b < 2 ^ 53 -> a * b < 2 ^ 53 ->
  mul (of_Z a) (of_Z b) = of_Z (a * b).
Proof.
  intros Ha [Hb Hb'] Hab. destruct b as [|b|b]; try lia.
  destruct a as [|a|a]; try lia.
  - rewrite (of_Z_pos b) by assumption. reflexivity.
  - assert (Z.pos a < 2 ^ 53) by nia.
    rewrite (of_Z_pos a), (of_Z_pos b) by assumption.
    rewrite mul_canon by assumption. cbn [xorb].
    change (Z.pos a * Z.pos b) with (Z.pos (a * b)). now rewrite of_Z_pos.
Qed.

Lemma integer_or_infinite_not_nan (x : Number) :
  is_integer x || is_infinite x = true -> isNaN x = false.
Proof. now destruct x. Qed.

Lemma of_Z_not_nan (z : Z) : isNaN (of_Z z) = false.
Proof. apply integer_or_infinite_not_nan, binary_normalize_integer. Qed.

Lemma binary_round_aux_sign (s : bool) (m : positive) (e : Z) (l : location) :
  match binary_round_aux prec emax s (Z.pos m) e l with
  | S754_zero s' | S754_infinity s' | S754_finite s' _ _ => s' = s
  | S754_nan => False
  end.
Proof.
  pose proof (binary_round_aux_exponent s m e l) as Hexp.
  unfold binary_round_aux in *.
  destruct (shr_fexp prec emax (Z.pos m) e l) as [mrs1 e1].
  destruct (shr_fexp prec emax _ e1 loc_Exact) as [mrs2 e2].
  destruct (shr_m mrs2); [reflexivity| |contradiction].
  now destruct (e2 <=? emax - prec).
Qed.

Lemma of_Z_nonpos_leb (z : Z) : z <= 0 -> leb (of_Z z) (of_Z 0) = true.
Proof.
  intros Hz. destruct z as [|q|q]; [reflexivity|lia|].
  unfold of_Z. cbn [binary_normalize]. unfold binary_round.
  destruct (shl_align q 0 _) as [mz ez].
  pose proof (binary_round_aux_sign true mz ez loc_Exact) as Hs.
  destruct (binary_round_aux prec emax true (Z.pos mz) ez loc_Exact);
    try contradiction; subst; reflexivity.
Qed.

Lemma leb_false_ltb (m : Number) :
  leb m (of_Z 0) = false -> isNaN m = false -> ltb (of_Z 0) m = true.
Proof. destruct m as [[]|[]| |[] ? ?]; cbn; congruence. Qed.

Lemma add_of_Z (a b : Z) :
  0 <= a -> 0 <= b -> a + b < 2 ^ 53 -> add (of_Z a) (of_Z b) = of_Z (a + b).
Proof.
  intros Ha Hb Hab. destruct a as [|a|a], b as [|b|b]; try lia; try reflexivity.
  - rewrite Z.add_0_l. change (of_Z 0) with (S754_zero false).
    rewrite of_Z_pos by lia. reflexivity.
  - rewrite Z.add_0_r. change (of_Z 0) with (S754_zero false).
    rewrite of_Z_pos by lia. reflexivity.
  - rewrite (of_Z_pos a), (of_Z_pos b) by lia.
    rewrite add_canon by (cbn in *; lia).
    change (Z.pos a + Z.pos b) with (Z.pos (a + b)). now rewrite of_Z_pos.
Qed.

Lemma new_Date_of_Z (t : Z) :
  0 <= t <= 8640000000000000 -> new_Date (of_Z t) = DateAt t.
Proof.
  intros [H0 H1]. destruct t as [|q|q]; [reflexivity| |lia].
  rewrite of_Z_pos by lia. unfold new_Date.
  rewrite abs_le_canon, truncate_canon. cbn [canon isFinite andb cond_Zopp].
  now destruct (Z.leb_spec (Z.pos q) 8640000000000000); [|lia].
Qed.

Lemma shr_1_digits (p : positive) (r s : bool) :
  2 <= Z.pos (digits2_pos p) ->
  exists p' r' s',
    shr_1 (Build_shr_record (Z.pos p) r s) = Build_shr_record (Z.pos p') r' s'
    /\ Z.pos (digits2_pos p') = Z.pos (digits2_pos p) - 1.
Proof.
  intros Hd. destruct p as [p|p|]; cbn [shr_1 digits2_pos] in *.
  - eexists p, _, _. split; [reflexivity|]. lia.
  - eexists p, _, _. split; [reflexivity|]. lia.
  - cbn in Hd. lia.
Qed.

Lemma shr_iter_digits (n : nat) (p : positive) (r s : bool) :
  Z.of_nat n < Z.pos (digits2_pos p) ->
  exists p' r' s',
    Nat.iter n shr_1 (Build_shr_record (Z.pos p) r s) = Build_shr_record (Z.pos p') r' s'
    /\ Z.pos (digits2_pos p') = Z.pos (digits2_pos p) - Z.of_nat n.
Proof.
  revert p r s. induction n as [|n IH]; intros p r s Hn.
  - exists p, r, s. split; [reflexivity|]. lia.
  - rewrite Nat.iter_succ_r.
    destruct (shr_1_digits p r s) as (p1 & r1 & s1 & -> & Hd1); [lia|].
    destruct (IH p1 r1 s1) as (p' & r' & s' & -> & Hd'); [lia|].
    exists p', r', s'. split; [reflexivity|]. lia.
Qed.

Lemma fexp_large (d : Z) : 54 <= d -> fexp prec emax d = d - 53.
Proof. intros. unfold fexp, emin, prec, emax. lia. Qed.

Lemma digits2_pos_succ (p : positive) :
  Z.pos (digits2_pos p) <= Z.pos (digits2_pos (p + 1))
  /\ Z.pos (digits2_pos (p + 1)) <= Z.pos (digits2_pos p) + 1.
Proof.
  split; [apply digits2_pos_mono; lia|].
  pose proof (digits2_pos_bounds p) as [_ Hp].
  pose proof (digits2_pos_bounds (p + 1)) as [Hq _].
  destruct (Z.le_gt_cases (Z.pos (digits2_pos (p + 1))) (Z.pos (digits2_pos p) + 1))
    as [|Hgt]; [assumption|].
  assert (2 ^ (Z.pos (digits2_pos p) + 1) <= 2 ^ (Z.pos (digits2_pos (p + 1)) - 1))
    by (apply Z.pow_le_mono_r; lia).
  rewrite Z.pow_add_r in * by lia. lia.
Qed.

Lemma is_huge_result (m : positive) (e : Z) :
  1 <= e -> 54 <= Z.pos (digits2_pos m) + e ->
  is_huge (if e <=? emax - prec then S754_finite false m e else S754_infinity false) = true.
Proof.
  intros He Hd. destruct (e <=? emax - prec); [|reflexivity].
  cbn [is_huge]. apply andb_true_iff. split; [apply Z.leb_le|apply Z.leb_le]; assumption.
Qed.

(** Rounding a magnitude of at least 2^53 gives at least 2^53. *)
Lemma binary_round_aux_huge (m : positive) (e : Z) (l : location) :
  54 <= Z.pos (digits2_pos m) + e ->
  (Z.pos (digits2_pos m) <= 53 -> l = loc_Exact) ->
  is_huge (binary_round_aux prec emax false (Z.pos m) e l) = true.
Proof.
  intros Hd Hl. unfold binary_round_aux.
  assert (Hsecond : forall (p : positive) (e1 : Z),
    1 <= e1 -> Z.pos (digits2_pos p) <= 54 ->
    54 <= Z.pos (digits2_pos p) + e1 ->
    is_huge (let '(mrs'', e'') := shr_fexp prec emax (Z.pos p) e1 loc_Exact in
             match shr_m mrs'' with
             | 0 => S754_zero false
             | Z.pos m0 => if e'' <=? emax - prec then S754_finite false m0 e''
                           else S754_infinity false
             | Z.neg _ => S754_nan
             end) = true).
  { intros p e1 He1 Hp Hsum. unfold shr_fexp. cbn [Zdigits2 shr_record_of_loc].
    rewrite fexp_large by lia. unfold shr.
    destruct (Z.pos (digits2_pos p) + e1 - 53 - e1) as [|n|n] eqn:En.
    - cbn [shr_m]. apply is_huge_result; lia.
    - rewrite iter_pos_nat.
      destruct (shr_iter_digits (Pos.to_nat n) p false false) as (p' & r' & s' & -> & Hd');
        [lia|].
      rewrite positive_nat_Z in Hd'. cbn [shr_m]. apply is_huge_result; lia.
    - cbn [shr_m]. apply is_huge_result; lia. }
  unfold shr_fexp at 1. cbn [Zdigits2]. rewrite fexp_large by lia. unfold shr at 1.
  destruct (Z.pos (digits2_pos m) + e - 53 - e) as [|n|n] eqn:En.
  - rewrite Hl by lia. cbn [shr_record_of_loc shr_m loc_of_shr_record round_nearest_even].
    apply Hsecond; lia.
  - rewrite iter_pos_nat.
    assert (Hrec : exists r s, shr_record_of_loc (Z.pos m) l = Build_shr_record (Z.pos m) r s)
      by (destruct l as [|[| |]]; eexists _, _; reflexivity).
    destruct Hrec as (r & s & ->).
    destruct (shr_iter_digits (Pos.to_nat n) m r s) as (p' & r' & s' & -> & Hd'); [lia|].
    rewrite positive_nat_Z in Hd'. cbn [shr_m].
    assert (Hround : exists p'', round_nearest_even (Z.pos p')
                       (loc_of_shr_record (Build_shr_record (Z.pos p') r' s')) = Z.pos p''
                     /\ 53 <= Z.pos (digits2_pos p'') <= 54).
    { pose proof (digits2_pos_succ p') as [H1 H2].
      unfold round_nearest_even, loc_of_shr_record. destruct r', s';
        try (exists p'; split; [reflexivity|lia]).
      - exists (p' + 1)%positive. split; [reflexivity|lia].
      - destruct (Z.even (Z.pos p')).
        + exists p'. split; [reflexivity|lia].
        + exists (p' + 1)%positive. split; [reflexivity|lia]. }
    destruct Hround as (p'' & -> & Hp''). apply Hsecond; lia.
  - rewrite Hl by lia. cbn [shr_record_of_loc shr_m loc_of_shr_record round_nearest_even].
    apply Hsecond; lia.
Qed.

Lemma digits2_pos_ge_54 (q : positive) :
  2 ^ 53 <= Z.pos q -> 54 <= Z.pos (digits2_pos q).
Proof.
  intros Hq. pose proof (digits2_pos_bounds q) as [_ Hhi].
  destruct (Z.le_gt_cases 54 (Z.pos (digits2_pos q))) as [|Hlt]; [assumption|].
  assert (2 ^ Z.pos (digits2_pos q) <= 2 ^ 53) by (apply Z.pow_le_mono_r; lia). lia.
Qed.

Lemma of_Z_huge (z : Z) : 2 ^ 53 <= z -> is_huge (of_Z z) = true.
Proof.
  intros Hz. destruct z as [|q|q]; try (cbn in Hz; lia).
  pose proof (digits2_pos_ge_54 q Hz) as Hd.
  unfold of_Z. cbn [binary_normalize]. unfold binary_round.
  rewrite Z.add_0_r, fexp_large by assumption. unfold shl_align.
  destruct (Z.pos (digits2_pos q) - 53 - 0) as [|n|n] eqn:En; try lia.
  apply binary_round_aux_huge; [lia|reflexivity].
Qed.

Lemma approximates_of_Z (z : Z) : approximates z (of_Z z).
Proof.
  unfold approximates. destruct (Z.ltb_spec z (2 ^ 53)); [reflexivity|].
  now apply of_Z_huge.
Qed.

Lemma approximates_mul (z c : Z) (x : Number) :
  0 <= z -> 0 < c < 2 ^ 53 -> approximates z x ->
  approximates (z * c) (mul x (of_Z c)).
Proof.
  intros Hz [Hc Hc'] Hx. unfold approximates in *.
  destruct c as [|c|c]; try lia. rewrite (of_Z_pos c) by assumption.
  pose proof (digits2_pos_le_53 c Hc') as Hdc.
  destruct (Z.ltb_spec z (2 ^ 53)) as [Hsmall|Hbig].
  - subst x. destruct (Z.ltb_spec (z * Z.pos c) (2 ^ 53)) as [Hp|Hp].
    + rewrite <- (of_Z_pos c) by assumption. apply mul_of_Z; lia.
    + destruct z as [|a|a]; try lia. rewrite (of_Z_pos a) by assumption.
      unfold mul, canon. cbn [SFmul xorb]. rewrite shift_nat_mul.
      apply binary_round_aux_huge; [|reflexivity].
      rewrite digits2_pos_shift_nat.
      pose proof (digits2_pos_ge_54 (a * c) Hp).
      pose proof (digits2_pos_le_53 a Hsmall). lia.
  - assert (2 ^ 53 <= z * Z.pos c) by nia.
    destruct (Z.ltb_spec (z * Z.pos c) (2 ^ 53)); [lia|].
    destruct x as [s|[]| |[] mx ex]; try discriminate; [reflexivity|].
    cbn [is_huge] in Hx. apply andb_true_iff in Hx as [He%Z.leb_le Hd%Z.leb_le].
    unfold mul, canon. cbn [SFmul xorb].
    apply binary_round_aux_huge; [|reflexivity].
    pose proof (digits2_pos_mul_lower mx (shift_nat (Z.to_nat (53 - Z.pos (digits2_pos c))) c)) as Hm.
    rewrite digits2_pos_shift_nat in Hm. lia.
Qed.

Lemma approximates_add (b z : Z) (x : Number) :
  0 <= b < 2 ^ 53 -> 0 <= z -> approximates z x ->
  approximates (b + z) (add (of_Z b) x).
Proof.
  intros [Hb Hb'] Hz Hx. unfold approximates in *.
  destruct (Z.ltb_spec z (2 ^ 53)) as [Hsmall|Hbig].
  - subst x. destruct (Z.ltb_spec (b + z) (2 ^ 53)) as [Hs|Hs].
    + apply add_of_Z; lia.
    + destruct b as [|b|b], z as [|a|a]; try lia.
      rewrite (of_Z_pos b), (of_Z_pos a) by assumption.
      pose proof (digits2_pos_le_53 b Hb') as Hdb.
      pose proof (digits2_pos_le_53 a Hsmall) as Hda.
      pose proof (digits2_pos_ge_54 (b + a) Hs) as Hdab.
      unfold add, canon. cbn [SFadd].
      set (kb := Z.to_nat (53 - Z.pos (digits2_pos b))) in *.
      set (ka := Z.to_nat (53 - Z.pos (digits2_pos a))) in *.
      set (K := Nat.max kb ka).
      assert (HK : Z.min (- Z.of_nat kb) (- Z.of_nat ka) = - Z.of_nat K) by lia.
      rewrite HK.
      assert (Hal : forall (k : nat) (q : positive), (k <= K)%nat ->
                fst (shl_align (shift_nat k q) (- Z.of_nat k) (- Z.of_nat K)) = shift_nat K q).
      { intros k q Hk. unfold shl_align.
        destruct (- Z.of_nat K - - Z.of_nat k) as [|p|p] eqn:En; try lia.
        - cbn [fst]. f_equal. lia.
        - cbn [fst]. rewrite shift_pos_shift_nat, shift_nat_shift_nat. f_equal. lia. }
      rewrite !Hal by lia. cbn [cond_Zopp]. rewrite <- Pos2Z.inj_add, shift_nat_add.
      cbn [binary_normalize]. unfold binary_round.
      rewrite digits2_pos_shift_nat.
      replace (Z.pos (digits2_pos (b + a)) + Z.of_nat K + - Z.of_nat K)
        with (Z.pos (digits2_pos (b + a))) by lia.
      rewrite fexp_large by assumption. unfold shl_align.
      destruct (Z.pos (digits2_pos (b + a)) - 53 - - Z.of_nat K) as [|p|p] eqn:En; try lia;
        (apply binary_round_aux_huge; [rewrite digits2_pos_shift_nat; lia|reflexivity]).
  - destruct (Z.ltb_spec (b + z) (2 ^ 53)); [lia|].
    destruct b as [|b|b]; try lia.
    + change (of_Z 0) with (S754_zero false).
      destruct x as [s|[]| |[] mx ex]; try discriminate; assumption.
    + rewrite (of_Z_pos b) by assumption.
      destruct x as [s|[]| |[] mx ex]; try discriminate; [reflexivity|].
      cbn [is_huge] in Hx. apply andb_true_iff in Hx as [He%Z.leb_le Hd%Z.leb_le].
      unfold add, canon. cbn [SFadd].
      set (kb := Z.to_nat (53 - Z.pos (digits2_pos b))) in *.
      rewrite Z.min_l by lia.
      unfold shl_align at 1. rewrite Z.sub_diag. cbn [fst].
      unfold shl_align at 1.
      destruct (- Z.of_nat kb - ex) as [|p|p] eqn:En; try lia.
      cbn [fst cond_Zopp]. rewrite <- Pos2Z.inj_add.
      cbn [binary_normalize]. unfold binary_round.
      set (M := (shift_nat kb b + Pos.iter xO mx p)%positive).
      assert (HM : Z.pos (digits2_pos mx) + Z.pos p <= Z.pos (digits2_pos M)).
      { rewrite <- (positive_nat_Z p), <- digits2_pos_shift_nat, <- shift_pos_shift_nat.
        apply digits2_pos_mono. unfold M. lia. }
      rewrite fexp_large by lia. unfold shl_align.
      destruct (Z.pos (digits2_pos M) + - Z.of_nat kb - 53 - - Z.of_nat kb) as [|n|n] eqn:En';
        try lia; (apply binary_round_aux_huge; [lia|reflexivity]).
Qed.

Lemma new_Date_approximates (t : Z) (x : Number) :
  0 <= t -> approximates t x ->
  new_Date x = if t <=? 8640000000000000 then DateAt t else InvalidDate.
Proof.
  intros Ht Hx. unfold approximates in Hx.
  destruct (Z.ltb_spec t (2 ^ 53)) as [Hsmall|Hbig].
  - subst x. destruct (Z.leb_spec t 8640000000000000) as [Hin|Hout].
    + apply new_Date_of_Z. lia.
    + destruct t as [|q|q]; try lia. rewrite of_Z_pos by assumption.
      unfold new_Date. rewrite abs_le_canon. cbn [canon isFinite andb].
      now destruct (Z.leb_spec (Z.pos q) 8640000000000000); [lia|].
  - destruct (Z.leb_spec t 8640000000000000) as [Hin|Hout]; [lia|].
    destruct x as [s|[]| |[] mx ex]; try discriminate; [reflexivity|].
    cbn [is_huge] in Hx. apply andb_true_iff in Hx as [He%Z.leb_le Hd%Z.leb_le].
    unfold new_Date. cbn [isFinite andb abs_le].
    destruct (Z.leb_spec 0 ex); [|lia].
    pose proof (digits2_pos_bounds mx) as [Hlo _].
    assert (2 ^ 53 <= Z.pos mx * 2 ^ ex).
    { transitivity (2 ^ (Z.pos (digits2_pos mx) - 1) * 2 ^ ex).
      - rewrite <- Z.pow_add_r by lia. apply Z.pow_le_mono_r; lia.
      - apply Z.mul_le_mono_nonneg_r; [apply Z.pow_nonneg; lia|assumption]. }
    now destruct (Z.leb_spec (Z.pos mx * 2 ^ ex) 8640000000000000); [lia|].
Qed.

End Binary64.

(** * The duration parser *)

Import Binary64.

Lemma digit_value_10 (c : code_unit) :
  digit_value 10 c = if is_decimal_digit c then Some (Z.of_N c - 48) else None.
Proof.
  unfold digit_value, is_decimal_digit.
  destruct (N.leb_spec 48 c), (N.leb_spec c 57); cbn [andb];
    repeat match goal with
           | |- context [Z.leb ?a ?b] => destruct (Z.leb_spec a b); cbn [andb]
           | |- context [Z.ltb ?a ?b] => destruct (Z.ltb_spec a b)
           end; try reflexivity; lia.
Qed.

Lemma is_decimal_digit_not_space (c : code_unit) :
  is_decimal_digit c = true -> is_white_space c = false.
Proof.
  unfold is_decimal_digit, is_white_space. intros H.
  apply andb_true_iff in H as [H1%N.leb_le H2%N.leb_le].
  repeat match goal with
         | |- context [N.leb ?a ?b] => destruct (N.leb_spec a b); try lia
         | |- context [N.eqb ?a ?b] => destruct (N.eqb_spec a b); try lia
         end; reflexivity.
Qed.

Lemma leading_digits_app (s : jsstring) (r : jsstring) :
  forallb is_decimal_digit s = true ->
  match r with c :: _ => is_decimal_digit c = false | [] => True end ->
  leading_digits 10 (s ++ r) = List.map (fun c => Z.of_N c - 48) s.
Proof.
  intros Hs Hr. induction s as [|c s IH]; cbn [app leading_digits List.map].
  - destruct r as [|c r]; [reflexivity|]. cbn [leading_digits].
    now rewrite digit_value_10, Hr.
  - cbn [forallb] in Hs. apply andb_true_iff in Hs as [Hc Hs].
    rewrite digit_value_10, Hc, IH by assumption. reflexivity.
Qed.

Lemma digits_value_map (s : jsstring) :
  digits_value 10 (List.map (fun c => Z.of_N c - 48) s) = decimal_string_value s.
Proof.
  unfold digits_value, decimal_string_value. generalize 0.
  induction s as [|c s IH]; intros acc; cbn [List.map fold_left]; [reflexivity|apply IH].
Qed.

Lemma decimal_string_value_nonneg (s : jsstring) :
  forallb is_decimal_digit s = true -> 0 <= decimal_string_value s.
Proof.
  unfold decimal_string_value. intros Hs.
  assert (H : forall acc, 0 <= acc ->
     0 <= fold_left (fun acc c => acc * 10 + (Z.of_N c - 48)) s acc); [|apply H; lia].
  induction s as [|c s IH]; intros acc Hacc; cbn [fold_left]; [assumption|].
  cbn [forallb] in Hs. apply andb_true_iff in Hs as [Hc Hs].
  apply IH; [assumption|]. unfold is_decimal_digit in Hc.
  apply andb_true_iff in Hc as [H1%N.leb_le H2%N.leb_le]. lia.
Qed.

(** *** trim *)

Lemma trimStart_suffix (s : jsstring) : exists p, s = p ++ trimStart s.
Proof.
  induction s as [|c s [p IH]]; [now exists []|]. cbn [trimStart].
  destruct (is_white_space c).
  - exists (c :: p). cbn. now rewrite <- IH.
  - now exists [].
Qed.

Lemma trimStart_head (s : jsstring) :
  match trimStart s with c :: _ => is_white_space c = false | [] => True end.
Proof.
  induction s as [|c s IH]; [exact I|]. cbn [trimStart].
  destruct (is_white_space c) eqn:Ec; [exact IH|exact Ec].
Qed.

Lemma trimStart_id (s : jsstring) :
  match s with c :: _ => is_white_space c = false | [] => True end ->
  trimStart s = s.
Proof. destruct s as [|c s]; [reflexivity|]. cbn [trimStart]. now intros ->. Qed.

Lemma trimEnd_prefix (s : jsstring) : exists w, s = trimEnd s ++ w.
Proof.
  unfold trimEnd. destruct (trimStart_suffix (rev s)) as [p Hp].
  exists (rev p). rewrite <- rev_app_distr, <- Hp. now rewrite rev_involutive.
Qed.

Lemma trimEnd_snoc (s : jsstring) (c : code_unit) :
  is_white_space c = false -> trimEnd (s ++ [c]) = s ++ [c].
Proof.
  intros Hc. unfold trimEnd. rewrite rev_app_distr. cbn [rev app trimStart].
  rewrite Hc. cbn [rev]. now rewrite rev_involutive.
Qed.

Lemma trim_head (s : jsstring) :
  match trim s with c :: _ => is_white_space c = false | [] => True end.
Proof.
  unfold trim. pose proof (trimStart_head s) as H.
  destruct (trimEnd_prefix (trimStart s)) as [w Hw].
  destruct (trimEnd (trimStart s)) as [|c r]; [exact I|].
  rewrite Hw in H. exact H.
Qed.

Lemma trimStart_trim (s : jsstring) : trimStart (trim s) = trim s.
Proof. apply trimStart_id, trim_head. Qed.

(** A text that begins with a non-space keeps its beginning under [trim]. *)
Lemma trim_prefix (s : jsstring) :
  match s with c :: _ => is_white_space c = false | [] => True end ->
  exists w, s = trim s ++ w.
Proof.
  intros H. unfold trim. rewrite (trimStart_id s H). apply trimEnd_prefix.
Qed.

Lemma trimEnd_nonempty (c : code_unit) (s : jsstring) :
  is_white_space c = false -> trimEnd (c :: s) <> [].
Proof.
  intros Hc. unfold trimEnd. cbn [rev].
  destruct (trimStart_suffix (rev s ++ [c])) as [p Hp].
  intros Hnil. apply (f_equal (@rev _)) in Hnil. rewrite rev_involutive in Hnil. cbn in Hnil.
  rewrite Hnil, app_nil_r in Hp.
  assert (Hall : forall l, trimStart l = [] -> Forall (fun x => is_white_space x = true) l).
  { induction l as [|x l IHl]; [constructor|]. cbn [trimStart].
    destruct (is_white_space x) eqn:Ex; [|discriminate]. intros Hl. constructor; auto. }
  apply Hall in Hnil. rewrite Forall_app in Hnil. destruct Hnil as [_ Hlast].
  inversion Hlast; congruence.
Qed.

Lemma parseInt_plain (t : jsstring) :
  match t with c :: _ => is_white_space c = false | [] => True end ->
  has_sign_or_hex_prefix t = false ->
  parseInt t = match leading_digits 10 t with
               | [] => NaN
               | ds => of_Z (digits_value 10 ds)
               end.
Proof.
  intros Hws Hpre. unfold parseInt. rewrite (trimStart_id t Hws).
  destruct t as [|c r]; [reflexivity|].
  cbn [has_sign_or_hex_prefix] in Hpre.
  apply orb_false_iff in Hpre as [Hsign Hhex]. rewrite Hsign.
  assert (Hneg : (c =? 45)%N = false).
  { unfold is_sign in Hsign. now apply orb_false_iff in Hsign as [_ ?]. }
  rewrite Hneg.
  destruct r as [|x r].
  - destruct (leading_digits 10 [c]); reflexivity.
  - rewrite Hhex. destruct (leading_digits 10 (c :: x :: r)); reflexivity.
Qed.

Lemma endsWith_snoc (s : jsstring) (c c' : code_unit) :
  endsWith (s ++ [c]) c' = (c =? c')%N.
Proof. unfold endsWith. now rewrite rev_app_distr. Qed.

Lemma trim_digits_unit (s : jsstring) (c : code_unit) :
  s <> [] -> forallb is_decimal_digit s = true -> is_white_space c = false ->
  trim (s ++ [c]) = s ++ [c].
Proof.
  intros Hne Hs Hc. unfold trim.
  rewrite trimStart_id, trimEnd_snoc; [reflexivity|assumption|].
  destruct s as [|d s]; [congruence|]. cbn [app].
  cbn [forallb] in Hs. apply andb_true_iff in Hs as [Hd _].
  now apply is_decimal_digit_not_space.
Qed.

Lemma parseInt_digits_unit (s : jsstring) (c : code_unit) :
  s <> [] -> forallb is_decimal_digit s = true ->
  is_decimal_digit c = false -> c <> 120%N -> c <> 88%N ->
  parseInt (s ++ [c]) = of_Z (decimal_string_value s).
Proof.
  intros Hne Hs Hc Hx HX.
  destruct s as [|d s]; [congruence|].
  pose proof Hs as Hs'. cbn [forallb] in Hs'. apply andb_true_iff in Hs' as [Hd Hs'].
  rewrite parseInt_plain.
  - rewrite leading_digits_app by (assumption || exact Hc).
    rewrite <- (digits_value_map (d :: s)). reflexivity.
  - cbn [app]. now apply is_decimal_digit_not_space.
  - cbn [app has_sign_or_hex_prefix]. apply orb_false_iff. split.
    + unfold is_sign, is_decimal_digit in *.
      apply andb_true_iff in Hd as [H1%N.leb_le H2%N.leb_le].
      destruct (N.eqb_spec d 43), (N.eqb_spec d 45); try reflexivity; lia.
    + destruct (N.eqb_spec d 48); [|reflexivity]. cbn [andb].
      destruct s as [|x s]; cbn [app].
      * destruct (N.eqb_spec c 120), (N.eqb_spec c 88); try reflexivity; congruence.
      * cbn [forallb] in Hs'. apply andb_true_iff in Hs' as [Hxd _].
        unfold is_decimal_digit in Hxd.
        apply andb_true_iff in Hxd as [H1%N.leb_le H2%N.leb_le].
        destruct (N.eqb_spec x 120), (N.eqb_spec x 88); try reflexivity; lia.
Qed.

Lemma leading_digits_spec (t : jsstring) :
  leading_digits 10 t = List.map (fun c => Z.of_N c - 48) (spec_leading_decimal_digits t).
Proof.
  induction t as [|c r IH]; [reflexivity|].
  cbn [leading_digits spec_leading_decimal_digits]. rewrite digit_value_10.
  destruct (is_decimal_digit c); [|reflexivity]. cbn [List.map]. now rewrite IH.
Qed.

Lemma numeric_part_plain (t : jsstring) :
  match t with c :: _ => is_white_space c = false | [] => True end ->
  has_sign_or_hex_prefix t = false ->
  numeric_part t = of_Z <$> spec_integer_prefix t.
Proof.
  intros Hws Hpre. unfold numeric_part, spec_integer_prefix.
  rewrite parseInt_plain, leading_digits_spec by assumption.
  destruct (spec_leading_decimal_digits t) as [|d ds] eqn:Ed; [reflexivity|].
  rewrite <- digits_value_map. cbn [List.map fmap option_fmap option_map].
  rewrite of_Z_not_nan. reflexivity.
Qed.

Lemma parseInt_integer (t : jsstring) :
  isNaN (parseInt t) = false ->
  is_integer (parseInt t) || is_infinite (parseInt t) = true.
Proof.
  unfold parseInt.
  destruct (match trimStart t with
            | [] => trimStart t
            | c :: r => if is_sign c then r else trimStart t
            end) as [|c [|x r]];
    try destruct ((c =? 48)%N && ((x =? 120)%N || (x =? 88)%N));
    match goal with
    | |- context [leading_digits ?r ?l] => destruct (leading_digits r l)
    end; try discriminate; intros _; apply binary_normalize_integer.
Qed.

Lemma parse_text_integer (s : jsstring) (x : Number) :
  parse_text s = Some x -> is_integer x || is_infinite x = true.
Proof.
  unfold parse_text. destruct (isNaN (parseInt (trim s))) eqn:En; [discriminate|].
  pose proof (parseInt_integer _ En) as Hi.
  assert (H60 : forall y, is_integer y || is_infinite y = true ->
                          is_integer (mul y (of_Z 60)) || is_infinite (mul y (of_Z 60)) = true).
  { intros y Hy. apply mul_integer; [assumption|reflexivity| |]; vm_compute; discriminate. }
  assert (H24 : forall y, is_integer y || is_infinite y = true ->
                          is_integer (mul y (of_Z 24)) || is_infinite (mul y (of_Z 24)) = true).
  { intros y Hy. apply mul_integer; [assumption|reflexivity| |]; vm_compute; discriminate. }
  destruct (endsWith (trim s) 109%N); [intros [= <-]; assumption|].
  destruct (endsWith (trim s) 104%N); [intros [= <-]; now apply H60|].
  destruct (endsWith (trim s) 100%N); [intros [= <-]; now apply H60, H24|].
  intros [= <-]; assumption.
Qed.

Lemma parse_text_none (s : jsstring) :
  parse_text s = None <-> isNaN (parseInt (trim s)) = true.
Proof.
  unfold parse_text. destruct (isNaN (parseInt (trim s))); [easy|].
  destruct (endsWith (trim s) 109%N), (endsWith (trim s) 104%N), (endsWith (trim s) 100%N); easy.
Qed.

Lemma spec_leading_decimal_digits_all (t : jsstring) :
  forallb is_decimal_digit (spec_leading_decimal_digits t) = true.
Proof.
  induction t as [|c r IH]; [reflexivity|]. cbn [spec_leading_decimal_digits].
  destruct (is_decimal_digit c) eqn:Ec; [|reflexivity]. cbn [forallb]. now rewrite Ec, IH.
Qed.

Lemma spec_integer_prefix_nonneg (t : jsstring) (n : Z) :
  spec_integer_prefix t = Some n -> 0 <= n.
Proof.
  unfold spec_integer_prefix. pose proof (spec_leading_decimal_digits_all t) as H.
  destruct (spec_leading_decimal_digits t) as [|d ds]; [discriminate|].
  intros [= <-]. now apply decimal_string_value_nonneg.
Qed.

(** The parser on a text with a plain decimal prefix writing [n]. *)
Lemma parse_text_plain (s : jsstring) (n : Z) :
  has_sign_or_hex_prefix (trim s) = false ->
  spec_integer_prefix (trim s) = Some n ->
  parseInt (trim s) = of_Z n
  /\ parse_text s
     = Some (if endsWith (trim s) 109%N then of_Z n
             else if endsWith (trim s) 104%N then mul (of_Z n) (of_Z 60)
             else if endsWith (trim s) 100%N then mul (mul (of_Z n) (of_Z 24)) (of_Z 60)
             else of_Z n).
Proof.
  intros Hpre Hn. pose proof (numeric_part_plain (trim s) (trim_head s) Hpre) as Hnum.
  unfold numeric_part in Hnum. rewrite Hn in Hnum.
  cbn [fmap option_fmap option_map] in Hnum.
  destruct (isNaN (parseInt (trim s))) eqn:Enan; [discriminate|].
  injection Hnum as Hv. split; [exact Hv|].
  unfold parse_text. rewrite Enan, Hv.
  destruct (endsWith (trim s) 109%N), (endsWith (trim s) 104%N),
    (endsWith (trim s) 100%N); reflexivity.
Qed.

Lemma parse_text_plain_exact (s : jsstring) (n : Z) :
  has_sign_or_hex_prefix (trim s) = false ->
  spec_integer_prefix (trim s) = Some n ->
  1440 * n < 2 ^ 53 ->
  parse_text s
  = Some (of_Z (if endsWith (trim s) 109%N then n
                else if endsWith (trim s) 104%N then 60 * n
                else if endsWith (trim s) 100%N then 1440 * n
                else n)).
Proof.
  intros Hpre Hn Hsmall. pose proof (spec_integer_prefix_nonneg _ _ Hn) as H0.
  destruct (parse_text_plain s n Hpre Hn) as [_ ->]. f_equal.
  destruct (endsWith (trim s) 109%N); [reflexivity|].
  destruct (endsWith (trim s) 104%N).
  { rewrite mul_of_Z by lia. f_equal. lia. }
  destruct (endsWith (trim s) 100%N); [|reflexivity].
  rewrite mul_of_Z by lia. rewrite mul_of_Z by lia. f_equal. lia.
Qed.

Lemma of_Z_finite (z : Z) : 0 <= z < 2 ^ 53 -> isFinite (of_Z z) = true.
Proof.
  intros [H0 H1]. destruct z as [|q|q]; [reflexivity| |lia].
  now rewrite of_Z_pos.
Qed.

Section Parser.

Context (nts : Number -> jsstring).
Local Abbreviation parse := (parseReminderTime nts).

Lemma parse_string (s : jsstring) : parse (VString s) = Normal (parse_text s).
Proof. reflexivity. Qed.

Lemma parse_text_digits_unit (s : jsstring) (c : code_unit) :
  s <> [] -> forallb is_decimal_digit s = true ->
  is_decimal_digit c = false -> is_white_space c = false ->
  c <> 120%N -> c <> 88%N ->
  parse_text (s ++ [c]) =
    let value := of_Z (decimal_string_value s) in
    if (c =? 109)%N then Some value
    else if (c =? 104)%N then Some (mul value (of_Z 60))
    else if (c =? 100)%N then Some (mul (mul value (of_Z 24)) (of_Z 60))
    else Some value.
Proof.
  intros Hne Hs Hc Hws Hx HX. unfold parse_text.
  rewrite trim_digits_unit, parseInt_digits_unit by assumption.
  rewrite of_Z_not_nan, !endsWith_snoc. reflexivity.
Qed.

(** C1 (as amended): the parser returns the spec's results on its eight
    test vectors, and for every non-empty string [s] of decimal digits
    writing the integer [n]: [s] followed by [m] parses to [n] when
    [n < 2^53]; followed by [h] to [60 * n] when [60 * n < 2^53];
    followed by [d] to [1440 * n] when [1440 * n < 2^53].  Each result is
    the Number that denotes that integer exactly. *)
Theorem parse_vectors_and_units :
  (parse (VNumber (of_Z 30)) = Normal (Some (of_Z 30))
   /\ parse (VString (lit "30m")) = Normal (Some (of_Z 30))
   /\ parse (VString (lit "2h")) = Normal (Some (of_Z 120))
   /\ parse (VString (lit "1d")) = Normal (Some (of_Z 1440))
   /\ parse (VString (lit "45")) = Normal (Some (of_Z 45))
   /\ parse (VString (lit "5x")) = Normal (Some (of_Z 5))
   /\ parse (VString (lit "abc")) = Normal None
   /\ parse (VString (lit "  10m  ")) = Normal (Some (of_Z 10)))
  /\ forall s : jsstring,
       s <> [] -> forallb is_decimal_digit s = true ->
       let n := decimal_string_value s in
       (n < 2 ^ 53 ->
        parse (VString (s ++ lit "m")) = Normal (Some (of_Z n))
        /\ to_Z (of_Z n) = Some n)
       /\ (60 * n < 2 ^ 53 ->
           parse (VString (s ++ lit "h")) = Normal (Some (of_Z (60 * n)))
           /\ to_Z (of_Z (60 * n)) = Some (60 * n))
       /\ (1440 * n < 2 ^ 53 ->
           parse (VString (s ++ lit "d")) = Normal (Some (of_Z (1440 * n)))
           /\ to_Z (of_Z (1440 * n)) = Some (1440 * n)).
Proof.
  split.
  - repeat split; vm_compute; reflexivity.
  - intros s Hne Hs n.
    pose proof (decimal_string_value_nonneg s Hs) as Hn. fold n in Hn.
    rewrite !parse_string.
    change (lit "m") with [109%N]. change (lit "h") with [104%N].
    change (lit "d") with [100%N].
    rewrite !parse_text_digits_unit by (assumption || reflexivity || discriminate).
    cbv zeta. fold n. cbn [N.eqb Pos.eqb].
    repeat split.
    + apply of_Z_exact. lia.
    + rewrite mul_of_Z by lia. do 3 f_equal. lia.
    + apply of_Z_exact. lia.
    + rewrite mul_of_Z by lia. rewrite mul_of_Z by lia. do 3 f_equal. lia.
    + apply of_Z_exact. lia.
Qed.


(** C2 (as amended): a numeric input is returned unchanged, whatever
    its value.  On any other input the parser throws only if the
    conversion to text throws; it returns null exactly when the builtin
    parse finds no integer at the start of the trimmed text; and any
    Number it returns is an integer or an infinity, never a fraction.
    When the trimmed text begins with decimal digits writing [n] (and not
    with [0x]/[0X]) and [1440 * n < 2^53], the result is the finite
    integer [n], [60 * n] or [1440 * n] that the unit asks for. *)
Theorem parse_result_shape (v : value) :
  match v with
  | VNumber n => parse v = Normal (Some n)
  | _ =>
      match parse v with
      | Throw e => ToString nts v = Throw e
      | Normal None =>
          exists s, ToString nts v = Normal s /\ isNaN (parseInt (trim s)) = true
      | Normal (Some x) =>
          is_integer x || is_infinite x = true
          /\ exists s, ToString nts v = Normal s /\ isNaN (parseInt (trim s)) = false
      end
      /\ forall (s : jsstring) (n : Z),
           ToString nts v = Normal s ->
           has_sign_or_hex_prefix (trim s) = false ->
           spec_integer_prefix (trim s) = Some n ->
           1440 * n < 2 ^ 53 ->
           let z := if endsWith (trim s) 109%N then n
                    else if endsWith (trim s) 104%N then 60 * n
                    else if endsWith (trim s) 100%N then 1440 * n
                    else n in
           parse v = Normal (Some (of_Z z))
           /\ isFinite (of_Z z) = true /\ to_Z (of_Z z) = Some z
  end.
Proof.
  assert (H : forall c : completion jsstring,
    match cbind c (fun s => Normal (parse_text s)) with
    | Throw e => c = Throw e
    | Normal None => exists s, c = Normal s /\ isNaN (parseInt (trim s)) = true
    | Normal (Some x) =>
        is_integer x || is_infinite x = true
        /\ exists s, c = Normal s /\ isNaN (parseInt (trim s)) = false
    end).
  { intros [s|e]; cbn [cbind]; [|reflexivity].
    destruct (parse_text s) as [x|] eqn:Ep.
    - split; [now apply parse_text_integer with s|].
      exists s. split; [reflexivity|].
      destruct (isNaN (parseInt (trim s))) eqn:En; [|reflexivity].
      apply parse_text_none in En. congruence.
    - exists s. split; [reflexivity|]. now apply parse_text_none. }
  assert (Hfin : forall c : completion jsstring, forall (s : jsstring) (n : Z),
    c = Normal s ->
    has_sign_or_hex_prefix (trim s) = false ->
    spec_integer_prefix (trim s) = Some n ->
    1440 * n < 2 ^ 53 ->
    let z := if endsWith (trim s) 109%N then n
             else if endsWith (trim s) 104%N then 60 * n
             else if endsWith (trim s) 100%N then 1440 * n
             else n in
    cbind c (fun s => Normal (parse_text s)) = Normal (Some (of_Z z))
    /\ isFinite (of_Z z) = true /\ to_Z (of_Z z) = Some z).
  { intros c s n -> Hpre Hn Hsmall z. cbn [cbind].
    pose proof (spec_integer_prefix_nonneg _ _ Hn) as H0.
    assert (Hz : 0 <= z < 2 ^ 53).
    { unfold z. destruct (endsWith (trim s) 109%N), (endsWith (trim s) 104%N),
        (endsWith (trim s) 100%N); lia. }
    split; [|split].
    - f_equal. now apply parse_text_plain_exact.
    - now apply of_Z_finite.
    - now apply of_Z_exact. }
  destruct v; try reflexivity; (split; [apply H|apply Hfin]).
Qed.

(** C3 (as amended): for a string input whose trimmed text begins with
    neither a sign nor [0x]/[0X], the parser reads exactly the leading
    decimal digit characters of the trimmed text as the value (the nearest
    Number to the integer [n] they write, that integer itself below 2^53),
    whatever follows them: its result is that value when the trimmed text
    ends in [m] or in no unit letter, that value times 60 when it ends in
    [h], times 24 and 60 when it ends in [d] (the integers [n], [60 * n],
    [1440 * n] themselves while [1440 * n < 2^53]).  With no leading
    decimal digit the parser fails with null. *)
Theorem numeric_part_is_decimal_prefix (s : jsstring) :
  has_sign_or_hex_prefix (trim s) = false ->
  match spec_integer_prefix (trim s) with
  | None => parse (VString s) = Normal None
  | Some n =>
      parseInt (trim s) = of_Z n
      /\ (n < 2 ^ 53 -> to_Z (of_Z n) = Some n)
      /\ parse (VString s)
         = Normal (Some (if endsWith (trim s) 109%N then of_Z n
                         else if endsWith (trim s) 104%N then mul (of_Z n) (of_Z 60)
                         else if endsWith (trim s) 100%N
                              then mul (mul (of_Z n) (of_Z 24)) (of_Z 60)
                              else of_Z n))
      /\ (1440 * n < 2 ^ 53 ->
          parse (VString s)
          = Normal (Some (of_Z (if endsWith (trim s) 109%N then n
                                else if endsWith (trim s) 104%N then 60 * n
                                else if endsWith (trim s) 100%N then 1440 * n
                                else n))))
  end.
Proof.
  intros Hpre. rewrite parse_string.
  destruct (spec_integer_prefix (trim s)) as [n|] eqn:En.
  - destruct (parse_text_plain s n Hpre En) as [Hv Hp].
    pose proof (spec_integer_prefix_nonneg _ _ En) as H0.
    split; [exact Hv|]. split; [|split].
    + intros Hn. apply of_Z_exact. lia.
    + now rewrite Hp.
    + intros Hsmall. f_equal. now apply parse_text_plain_exact.
  - pose proof (numeric_part_plain (trim s) (trim_head s) Hpre) as Hnum.
    unfold numeric_part in Hnum. rewrite En in Hnum.
    f_equal. apply parse_text_none.
    destruct (isNaN (parseInt (trim s))); [reflexivity|discriminate].
Qed.

Lemma trim_keeps_head (c : code_unit) (r : jsstring) :
  is_white_space c = false ->
  exists r' w, trim (c :: r) = c :: r' /\ r = r' ++ w.
Proof.
  intros Hc. destruct (trim_prefix (c :: r) Hc) as [w Hw].
  assert (Hne : trim (c :: r) <> []).
  { unfold trim. rewrite (trimStart_id (c :: r) Hc). now apply trimEnd_nonempty. }
  destruct (trim (c :: r)) as [|c' r']; [congruence|].
  cbn [app] in Hw. injection Hw as <- ->. now exists r', w.
Qed.

(** C10 (as amended): on an input that is not a number the parser
    gives what it gives on the input's string form, and throws if the
    conversion throws.  When that string form begins with a decimal digit
    and not with [0x]/[0X], the result is the minute count the text
    parses to (30 for the array [[30]]); when its trimmed text has no
    leading decimal digit and no sign, the parser fails with null, as it
    does on [null], [true] and every object without a property named
    toString. *)
Theorem parse_converts_to_string (v : value) :
  (match v with
   | VNumber _ => True
   | _ => parse v = cbind (ToString nts v) (fun s => parse (VString s))
   end)
  /\ (forall (c : code_unit) (r : jsstring),
        match v with VNumber _ => False | _ => True end ->
        ToString nts v = Normal (c :: r) ->
        is_decimal_digit c = true ->
        has_sign_or_hex_prefix (c :: r) = false ->
        exists x, parse v = Normal (Some x) /\ parse_text (c :: r) = Some x)
  /\ (forall s : jsstring,
        match v with VNumber _ => False | _ => True end ->
        ToString nts v = Normal s ->
        has_sign_or_hex_prefix (trim s) = false ->
        spec_integer_prefix (trim s) = None ->
        parse v = Normal None)
  /\ ToString nts (VArray [VNumber (of_Z 30)]) = Normal (lit "30")
  /\ parse (VArray [VNumber (of_Z 30)]) = Normal (Some (of_Z 30))
  /\ parse VNull = Normal None
  /\ parse (VBool true) = Normal None
  /\ (forall props,
        parse (VObject props)
        = if has_own_property props (lit "toString")
          then Throw TypeError else Normal None).
Proof.
  split; [|split; [|split]].
  - destruct v; try exact I; cbn [parseReminderTime];
      destruct (ToString nts _); reflexivity.
  - intros c r Hv Hs Hc Hpre.
    assert (Hp : parse v = Normal (parse_text (c :: r))).
    { destruct v; try contradiction; cbn [parseReminderTime]; now rewrite Hs. }
    rewrite Hp.
    pose proof (is_decimal_digit_not_space c Hc) as Hws.
    destruct (trim_keeps_head c r Hws) as (r' & w & Ht & Hr).
    assert (Hpre' : has_sign_or_hex_prefix (trim (c :: r)) = false).
    { rewrite Ht. cbn [has_sign_or_hex_prefix] in *.
      apply orb_false_iff in Hpre as [Hsign Hhex]. rewrite Hsign. cbn [orb].
      destruct (c =? 48)%N; [|reflexivity]. cbn [andb] in *.
      subst r. destruct r' as [|x r']; [reflexivity|exact Hhex]. }
    pose proof (numeric_part_plain _ (trim_head (c :: r)) Hpre') as Hnum.
    unfold numeric_part, spec_integer_prefix in Hnum. rewrite Ht in Hnum.
    cbn [spec_leading_decimal_digits] in Hnum. rewrite Hc in Hnum.
    cbn [fmap option_fmap option_map] in Hnum. rewrite <- Ht in Hnum.
    destruct (parse_text (c :: r)) as [x|] eqn:Ep; [now exists x|].
    apply parse_text_none in Ep. rewrite Ep in Hnum. discriminate.
  - intros s Hv Hs Hpre Hnone.
    assert (Hp : parse v = Normal (parse_text s)).
    { destruct v; try contradiction; cbn [parseReminderTime]; now rewrite Hs. }
    rewrite Hp. f_equal. apply parse_text_none.
    pose proof (numeric_part_plain _ (trim_head s) Hpre) as Hnum.
    unfold numeric_part in Hnum. rewrite Hnone in Hnum.
    destruct (isNaN (parseInt (trim s))); [reflexivity|discriminate].
  - repeat split; try (vm_compute; reflexivity).
    intros props. cbn [parseReminderTime ToString].
    destruct (has_own_property props (lit "toString")); reflexivity.
Qed.

End Parser.


(** * The handlers *)

(** Case analysis of the membership of an event in an explicit list. *)
Ltac in_events H :=
  repeat (apply elem_of_cons in H as [H|H]; [try discriminate; simplify_eq|]);
  try (apply elem_of_nil in H; destruct H).

Lemma due_reminders_spec (now : Z) (st : list Reminder) (i : nat) (r : Reminder) :
  (i, r) ∈ due_reminders now st
  <-> st !! i = Some r /\ scheduledFor r <= now /\ sent r = false.
Proof.
  unfold due_reminders. rewrite list_elem_of_In, filter_In, <- list_elem_of_In.
  rewrite elem_of_lookup_imap. unfold is_due. cbn [snd].
  rewrite andb_true_iff, Z.leb_le, negb_true_iff. split.
  - intros [(j & y & [= -> ->] & Hj) Hdue]. tauto.
  - intros (Hi & Hdue). split; [|exact Hdue]. now exists i, r.
Qed.

Lemma offset_filter_ids {A} (P : nat * A -> bool) (st : list A) (i : nat) :
  let l := List.filter P (imap (fun k x => ((i + k)%nat, x)) st) in
  Forall (fun p => (i <= p.1)%nat) l /\ NoDup l.*1.
Proof.
  revert i. induction st as [|x st IH]; intros i; cbv zeta.
  - split; constructor.
  - rewrite imap_cons. cbn [List.filter].
    rewrite (imap_ext _ (fun k y => ((S i + k)%nat, y))) by (intros; cbn; f_equal; lia).
    destruct (IH (S i)) as [Hge Hnd].
    assert (Hge' : Forall (fun p : nat * A => (i <= p.1)%nat)
              (List.filter P (imap (fun k y => ((S i + k)%nat, y)) st))).
    { eapply Forall_impl; [exact Hge|]. cbn. intros; lia. }
    destruct (P ((i + 0)%nat, x)); [|now split].
    split; [constructor; [cbn; lia|exact Hge']|].
    cbn [fmap list_fmap fst]. constructor; [|exact Hnd].
    intros Hin. apply list_elem_of_fmap in Hin as ([j y] & Hj & Hin).
    rewrite Forall_forall in Hge. apply Hge in Hin. cbn in *. lia.
Qed.

Lemma due_reminders_NoDup (now : Z) (st : list Reminder) :
  NoDup (due_reminders now st).*1.
Proof. apply (offset_filter_ids (fun p => is_due now p.2) st 0). Qed.

Lemma mark_all_lookup (ids : list nat) (st : list Reminder) (i : nat) :
  mark_all ids st !! i
  = (if bool_decide (i ∈ ids) then mark_sent else id) <$> st !! i.
Proof.
  revert st. induction ids as [|a ids IH]; intros st.
  - cbn. now destruct (st !! i).
  - cbn [mark_all foldl]. fold (mark_all ids (alter mark_sent a st)). rewrite IH.
    destruct (decide (a = i)) as [->|Hne].
    + rewrite list_lookup_alter_eq. rewrite (bool_decide_eq_true_2 (i ∈ i :: ids)) by left.
      destruct (st !! i) as [r|]; [|reflexivity]. cbn.
      now destruct (bool_decide (i ∈ ids)).
    + rewrite list_lookup_alter_ne by assumption.
      destruct (st !! i) as [r|]; [|reflexivity]. cbn. f_equal.
      destruct (decide (i ∈ ids)) as [Hin|Hnin].
      * rewrite !bool_decide_eq_true_2; [reflexivity|now right|assumption].
      * rewrite !bool_decide_eq_false_2; [reflexivity| |assumption].
        rewrite elem_of_cons. intros [->|]; congruence.
Qed.

Lemma mark_all_length (ids : list nat) (st : list Reminder) :
  length (mark_all ids st) = length st.
Proof.
  revert st. induction ids as [|a ids IH]; intros st; [reflexivity|].
  cbn [mark_all foldl]. fold (mark_all ids (alter mark_sent a st)).
  now rewrite IH, length_alter.
Qed.

Section Sweep.
Context (E : Environment).

Lemma process_reminder_run (p : nat * Reminder) (w : World) :
  process_reminder E p w =
    let m := reminder_mail E p.2 in
    if mail_accepts E (trace w) m
    then if update_accepts E (trace w ++ [EvMail m true]) p.1
         then (Normal tt, {| store := alter mark_sent p.1 (store w);
                             trace := trace w ++ [EvMail m true; EvUpdate p.1 true] |})
         else (Throw StoreError, {| store := store w;
                                    trace := trace w ++ [EvMail m true; EvUpdate p.1 false] |})
    else (Throw MailError, {| store := store w; trace := trace w ++ [EvMail m false] |}).
Proof.
  cbv [process_reminder bind sendMail save_sent log throw].
  destruct (mail_accepts E (trace w) (reminder_mail E p.2)); cbn [store trace]; [|reflexivity].
  destruct (update_accepts E _ p.1); cbn [store trace];
    rewrite <- ?app_assoc; reflexivity.
Qed.

Lemma for_of_cons {A} (x : A) (l : list A) (body : A -> M unit) (w : World) :
  for_of (x :: l) body w =
    match body x w with
    | (Normal _, w1) => for_of l body w1
    | (Throw e, w1) => (Throw e, w1)
    end.
Proof. reflexivity. Qed.

Lemma for_of_outcome (l : list (nat * Reminder)) (w : World) :
  let r := for_of l (process_reminder E) w in
  exists done rest,
    l = done ++ rest
    /\ store r.2 = mark_all done.*1 (store w)
    /\ match r.1 with
       | Normal _ => rest = [] /\ trace r.2 = trace w ++ sweep_events E done
       | Throw e =>
           exists p rest', rest = p :: rest'
             /\ let tr := trace w ++ sweep_events E done in
                let m := reminder_mail E p.2 in
                (mail_accepts E tr m = false
                 /\ trace r.2 = tr ++ [EvMail m false])
                \/ (mail_accepts E tr m = true
                    /\ update_accepts E (tr ++ [EvMail m true]) p.1 = false
                    /\ trace r.2 = tr ++ [EvMail m true; EvUpdate p.1 false])
       end.
Proof.
  revert w. induction l as [|p l IH]; intros w; cbv zeta.
  - exists [], []. cbn. rewrite app_nil_r. auto.
  - rewrite for_of_cons, process_reminder_run. cbv zeta.
    destruct (mail_accepts E (trace w) (reminder_mail E p.2)) eqn:Em.
    + destruct (update_accepts E _ p.1) eqn:Eu.
      * specialize (IH {| store := alter mark_sent p.1 (store w);
                          trace := trace w ++ [EvMail (reminder_mail E p.2) true; EvUpdate p.1 true] |}).
        cbv zeta in IH. destruct IH as (done & rest & -> & Hst & Hres).
        exists (p :: done), rest. split; [reflexivity|]. split; [exact Hst|].
        cbn [store trace] in *.
        destruct (for_of (done ++ rest) (process_reminder E) _) as [[[]|e] w'];
          cbn [fst snd] in *.
        -- destruct Hres as [-> Htr]. split; [reflexivity|].
           rewrite Htr. unfold sweep_events. cbn [mbind list_bind].
           now rewrite <- !app_assoc.
        -- destruct Hres as (q & rest' & -> & Hq). exists q, rest'.
           split; [reflexivity|]. cbv zeta in *.
           unfold sweep_events in *. cbn [mbind list_bind].
           rewrite <- !app_assoc in *. cbn [app] in *. exact Hq.
      * exists [], (p :: l). cbn [fst snd store trace fmap list_fmap mark_all foldl app].
        split; [reflexivity|]. split; [reflexivity|].
        exists p, l. split; [reflexivity|]. cbv zeta. unfold sweep_events.
        cbn [mbind list_bind]. rewrite !app_nil_r. right. auto.
    + exists [], (p :: l). cbn [fst snd store trace fmap list_fmap mark_all foldl app].
      split; [reflexivity|]. split; [reflexivity|].
      exists p, l. split; [reflexivity|]. cbv zeta. unfold sweep_events.
      cbn [mbind list_bind]. rewrite !app_nil_r. left. auto.
Qed.


Lemma check_reminders_authorized (w : World) :
  let now := clock E (trace w) in
  let due := due_reminders now (store w) in
  let w1 := {| store := store w; trace := trace w ++ [EvFind now due.*1] |} in
  let r := for_of due (process_reminder E) w1 in
  check_reminders E (Some (lit "Sanjeev")) w =
    if find_accepts E (trace w) now
    then match r.1 with
         | Normal _ => (Normal (ok_body due), r.2)
         | Throw _ => (Normal sweep_failed, r.2)
         end
    else (Normal sweep_failed,
          {| store := store w; trace := trace w ++ [EvFindFailed now] |}).
Proof.
  cbv zeta. unfold check_reminders.
  rewrite bool_decide_eq_true_2 by reflexivity. cbn [negb].
  cbv [try_catch bind Date_now find_due respond ret log throw].
  destruct (find_accepts E (trace w) (clock E (trace w))); [|reflexivity].
  destruct (for_of _ _ _) as [[[]|e] w']; reflexivity.
Qed.

Lemma sweep_events_ok (l : list (nat * Reminder)) (ev : Event) :
  ev ∈ sweep_events E l ->
  match ev with
  | EvMail _ ok | EvUpdate _ ok => ok = true
  | _ => False
  end.
Proof.
  unfold sweep_events. rewrite list_elem_of_bind.
  intros (p & Hev & _). rewrite !elem_of_cons, elem_of_nil in Hev.
  destruct Hev as [->|[->|[]]]; reflexivity.
Qed.

(** C5 (as amended): a sweep with the correct secret in which the
    query, every notification and every store update is accepted answers
    200 with [processedReminders] the number of documents the query
    fetched; the fetched documents are exactly those with
    [scheduledFor <= now] and [sent = false]; each of them, in store
    order, is notified (one accepted mail from MAIL_USER to the stored
    address, with the reminder subject and a text naming the stored title,
    or LeetCode Problem without one, and the stored URL) and right after
    that marked sent ([sent] becomes true, no other field changes); no
    other document changes.  With nothing due the answer is 200 and 0. *)
Theorem sweep_processes_due (w : World) (resp : Response) (w' : World)
        (evs : list Event) :
  check_reminders E (Some (lit "Sanjeev")) w = (Normal resp, w') ->
  trace w' = trace w ++ evs ->
  (forall t, EvFindFailed t ∉ evs) ->
  (forall m, EvMail m false ∉ evs) ->
  (forall i, EvUpdate i false ∉ evs) ->
  let now := clock E (trace w) in
  let due := due_reminders now (store w) in
  (forall i r, (i, r) ∈ due
               <-> store w !! i = Some r /\ scheduledFor r <= now /\ sent r = false)
  /\ resp = {| status := 200; body := CheckRemindersBody (length due) |}
  /\ evs = EvFind now due.*1 :: sweep_events E due
  /\ length (store w') = length (store w)
  /\ (forall i r, store w !! i = Some r ->
        store w' !! i = Some (if is_due now r then mark_sent r else r))
  /\ (due = [] ->
      resp = {| status := 200; body := CheckRemindersBody 0 |}
      /\ store w' = store w /\ evs = [EvFind now []])
  /\ (forall i r, (i, r) ∈ due ->
        exists m r' before after,
          evs = before ++ [EvMail m true; EvUpdate i true] ++ after
          /\ mail_from m = process_env E !! lit "MAIL_USER"
          /\ mail_to m = VString (email r)
          /\ mail_subject m = lit "Time to Review Your LeetCode Problem!"
          /\ mail_html m
             = nl ++ lit "          <h2>Time to review your LeetCode problem!</h2>" ++ nl
               ++ lit "          <p>Problem: "
               ++ match problemTitle r with
                  | Some (c :: t) => c :: t
                  | _ => lit "LeetCode Problem"
                  end
               ++ lit "</p>" ++ nl
               ++ lit "          <p>URL: <a href=" ++ dquote ++ problemUrl r ++ dquote
               ++ lit ">" ++ problemUrl r ++ lit "</a></p>" ++ nl
               ++ lit "          <p>Happy coding!</p>" ++ nl
               ++ lit "        "
          /\ store w' !! i = Some r'
          /\ sent r' = true
          /\ email r' = email r /\ problemUrl r' = problemUrl r
          /\ problemTitle r' = problemTitle r
          /\ scheduledFor r' = scheduledFor r /\ createdAt r' = createdAt r)
  /\ (forall i r, store w !! i = Some r -> (i, r) ∉ due -> store w' !! i = Some r).
Proof.
  intros Hrun Htr Hfind Hmail Hupd now due.
  split; [intros i r; apply due_reminders_spec|].
  pose proof (check_reminders_authorized w) as Hrun'. cbv zeta in Hrun'.
  fold now in Hrun'. fold due in Hrun'. rewrite Hrun in Hrun'.
  destruct (find_accepts E (trace w) now).
  2: { exfalso. injection Hrun' as _ ->. cbn [trace] in Htr.
       apply app_inv_head in Htr. subst evs. apply (Hfind now). left. }
  pose proof (for_of_outcome due
    {| store := store w; trace := trace w ++ [EvFind now due.*1] |}) as Hloop.
  cbv zeta in Hloop. destruct Hloop as (done & rest & Hsplit & Hst & Hres).
  destruct (for_of due (process_reminder E) _) as [[[]|e] w''];
    cbn [fst snd store trace] in *; injection Hrun' as -> ->.
  - destruct Hres as [-> Htr']. rewrite app_nil_r in Hsplit. subst done.
    rewrite Htr, <- app_assoc in Htr'. apply app_inv_head in Htr'. cbn [app] in Htr'.
    assert (Hlook : forall i r, store w !! i = Some r ->
              store w'' !! i = Some (if is_due now r then mark_sent r else r)).
    { intros i r Hi. rewrite Hst, mark_all_lookup, Hi. cbn. f_equal.
      destruct (is_due now r) eqn:Ed.
      * rewrite bool_decide_eq_true_2; [reflexivity|].
        apply list_elem_of_fmap. exists (i, r). split; [reflexivity|].
        apply due_reminders_spec. unfold is_due in Ed.
        apply andb_true_iff in Ed as [H1%Z.leb_le H2%negb_true_iff]. auto.
      * rewrite bool_decide_eq_false_2; [reflexivity|].
        intros ([j r'] & Hj & Hin)%list_elem_of_fmap. cbn in Hj. subst j.
        apply due_reminders_spec in Hin as (Hi' & H1 & H2).
        assert (r' = r) by congruence. subst r'.
        unfold is_due in Ed. rewrite H2 in Ed.
        apply Z.leb_le in H1. rewrite H1 in Ed. discriminate. }
    split; [reflexivity|]. split; [exact Htr'|].
    split; [now rewrite Hst, mark_all_length|]. split; [exact Hlook|]. split; [|split].
    + intros Hnil. fold due in Hst, Htr'. rewrite Hnil in *.
      split; [reflexivity|]. split; [exact Hst|exact Htr'].
    + intros i r Hin. pose proof Hin as Hdue.
      apply due_reminders_spec in Hdue as (Hi & Hle & Hsent).
      apply list_elem_of_split in Hin as (d1 & d2 & Hd).
      exists (reminder_mail E r), (mark_sent r),
        (EvFind now due.*1 :: sweep_events E d1), (sweep_events E d2).
      split.
      { assert (Hse : sweep_events E due
                      = sweep_events E d1
                        ++ [EvMail (reminder_mail E r) true; EvUpdate i true]
                        ++ sweep_events E d2).
        { rewrite Hd. unfold sweep_events. rewrite bind_app. reflexivity. }
        rewrite Htr', Hse. reflexivity. }
      split; [reflexivity|]. split; [reflexivity|]. split; [reflexivity|]. split.
      { cbn [reminder_mail mail_html]. unfold reminder_html, or_else, opt_value.
        destruct (problemTitle r) as [[|c t]|]; reflexivity. }
      split.
      { rewrite (Hlook i r Hi). unfold is_due.
        apply Z.leb_le in Hle. now rewrite Hle, Hsent. }
      repeat split.
    + intros i r Hi Hnot. rewrite (Hlook i r Hi).
      destruct (is_due now r) eqn:Ed; [|reflexivity].
      exfalso. apply Hnot, due_reminders_spec. unfold is_due in Ed.
      apply andb_true_iff in Ed as [H1%Z.leb_le H2%negb_true_iff]. auto.
  - exfalso. destruct Hres as (p & rest' & -> & Hp). cbv zeta in Hp.
    rewrite Htr, <- !app_assoc in Hp.
    destruct Hp as [[_ Hp]|[_ [_ Hp]]]; apply app_inv_head in Hp; subst evs.
    + apply (Hmail (reminder_mail E p.2)). cbn [app].
      rewrite elem_of_cons, elem_of_app, list_elem_of_singleton. auto.
    + apply (Hupd p.1). cbn [app].
      rewrite elem_of_cons, elem_of_app, !elem_of_cons. auto.
Qed.

(** C6: when a sweep's calls include a rejected notification or a
    rejected update, the response is 500 and the rejected call is the
    sweep's last: the fetched documents split into those processed to the
    end, the one whose call was rejected, and the rest; no call is made
    for the rest, and neither the rejected document nor any of the rest
    is marked sent. *)
Theorem sweep_fails_fast (w : World) (resp : Response) (w' : World) (evs : list Event) :
  check_reminders E (Some (lit "Sanjeev")) w = (Normal resp, w') ->
  trace w' = trace w ++ evs ->
  ((exists m, EvMail m false ∈ evs) \/ (exists i, EvUpdate i false ∈ evs)) ->
  let now := clock E (trace w) in
  let due := due_reminders now (store w) in
  status resp = 500
  /\ exists done p rest,
       due = done ++ p :: rest
       /\ (evs = EvFind now due.*1 :: sweep_events E done
                   ++ [EvMail (reminder_mail E p.2) false]
           \/ evs = EvFind now due.*1 :: sweep_events E done
                      ++ [EvMail (reminder_mail E p.2) true; EvUpdate p.1 false])
       /\ store w' = mark_all done.*1 (store w)
       /\ forall q, q ∈ p :: rest -> store w' !! q.1 = Some q.2 /\ sent q.2 = false.
Proof.
  intros Hrun Htr Hfail now due.
  pose proof (check_reminders_authorized w) as Hrun'. cbv zeta in Hrun'.
  fold now in Hrun'. fold due in Hrun'. rewrite Hrun in Hrun'.
  destruct (find_accepts E (trace w) now).
  2: { exfalso. injection Hrun' as _ ->. cbn [trace] in Htr.
       apply app_inv_head in Htr. subst evs.
       destruct Hfail as [[m Hin]|[i Hin]]; in_events Hin. }
  pose proof (for_of_outcome due
    {| store := store w; trace := trace w ++ [EvFind now due.*1] |}) as Hloop.
  cbv zeta in Hloop. destruct Hloop as (done & rest & Hsplit & Hst & Hres).
  destruct (for_of due (process_reminder E) _) as [[[]|e] w''];
    cbn [fst snd store trace] in *; injection Hrun' as -> ->.
  - exfalso. destruct Hres as [_ Htr']. rewrite Htr, <- app_assoc in Htr'.
    apply app_inv_head in Htr'. subst evs. cbn [app] in Hfail.
    destruct Hfail as [[m Hin]|[i Hin]];
      apply elem_of_cons in Hin as [Hin|Hin]; try discriminate;
      apply sweep_events_ok in Hin; discriminate.
  - split; [reflexivity|].
    destruct Hres as (p & rest' & -> & Hp). exists done, p, rest'.
    split; [exact Hsplit|]. cbv zeta in Hp. split; [|split; [exact Hst|]].
    + rewrite Htr in Hp. rewrite <- !app_assoc in Hp.
      destruct Hp as [[_ Hp]|[_ [_ Hp]]]; apply app_inv_head in Hp; subst evs; auto.
    + intros [j r] Hq. cbn [fst snd].
      assert (Hin : (j, r) ∈ due) by (rewrite Hsplit, elem_of_app; now right).
      apply due_reminders_spec in Hin as (Hj & _ & Hsent). split; [|exact Hsent].
      rewrite Hst, mark_all_lookup, Hj. cbn.
      rewrite bool_decide_eq_false_2; [reflexivity|].
      intros Hdone. pose proof (due_reminders_NoDup now (store w)) as Hnd.
      fold due in Hnd. rewrite Hsplit, fmap_app in Hnd.
      apply NoDup_app in Hnd as (_ & Hdisj & _).
      apply (Hdisj j Hdone). apply list_elem_of_fmap. now exists (j, r).
Qed.

(** C7 (as amended): a sweep request whose [x-cron-secret] header is
    not the string [Sanjeev] (or is absent) is answered 401 Unauthorized
    with the world untouched: no store read, no mail, no write.  The
    expected value is that literal, in every environment; with it the
    answer is never 401. *)
Theorem sweep_rejects_wrong_secret (secret : option jsstring) (w : World) :
  (secret <> Some (lit "Sanjeev") ->
   check_reminders E secret w = (Normal unauthorized, w))
  /\ (secret = Some (lit "Sanjeev") ->
      exists resp w', check_reminders E secret w = (Normal resp, w')
                      /\ status resp <> 401).
Proof.
  split.
  - intros Hne. unfold check_reminders.
    now rewrite bool_decide_eq_false_2 by assumption.
  - intros ->. rewrite check_reminders_authorized. cbv zeta.
    destruct (find_accepts E _ _);
      [|eexists _, _; (split; [reflexivity|discriminate])].
    destruct (for_of _ _ _) as [[[]|e] w'']; cbn [fst snd];
      eexists _, _; (split; [reflexivity|discriminate]).
Qed.

End Sweep.

Section Intake.
Context (nts : Number -> jsstring) (tls : Date -> jsstring)
        (E : Environment) (cast : value -> option jsstring).

Local Abbreviation intake := (set_reminder nts tls E cast).
Local Abbreviation parse := (parseReminderTime nts).

Lemma set_reminder_run (req : SetReminderRequest) (w : World) :
  intake req w =
    if negb (ToBoolean (req_email req)) || negb (ToBoolean (req_problemUrl req))
       || negb (ToBoolean (req_reminderMinutes req))
    then (Normal missing_fields, w)
    else
      match parse (req_reminderMinutes req) with
      | Throw _ => (Normal set_failed, w)
      | Normal None => (Normal invalid_time, w)
      | Normal (Some minutes) =>
          if leb minutes (of_Z 0) then (Normal invalid_time, w)
          else
            let scheduledFor := schedule (clock E (trace w)) minutes in
            let formatted := tls scheduledFor in
            match confirmation_html nts (req_problemTitle req) (req_problemUrl req)
                    formatted with
            | Throw _ => (Normal set_failed, w)
            | Normal html =>
                let mail := confirmation_mail E req html in
                if mail_accepts E (trace w) mail
                then
                  let tr := trace w ++ [EvMail mail true] in
                  match validate cast (reminder_input req scheduledFor) (clock E tr) with
                  | None => (Normal set_failed, {| store := store w; trace := tr |})
                  | Some r =>
                      if insert_accepts E tr r
                      then (Normal (set_ok formatted),
                            {| store := store w ++ [r];
                               trace := trace w ++ [EvMail mail true; EvInsert r true] |})
                      else (Normal set_failed,
                            {| store := store w;
                               trace := trace w ++ [EvMail mail true; EvInsert r false] |})
                  end
                else (Normal set_failed,
                      {| store := store w; trace := trace w ++ [EvMail mail false] |})
            end
      end.
Proof.
  unfold set_reminder.
  destruct (negb (ToBoolean (req_email req)) || negb (ToBoolean (req_problemUrl req))
            || negb (ToBoolean (req_reminderMinutes req))); [reflexivity|].
  cbv [try_catch bind lift].
  destruct (parse (req_reminderMinutes req)) as [[minutes|]|e]; try reflexivity.
  destruct (leb minutes (of_Z 0)); [reflexivity|].
  cbv [calculateReminderTime bind Date_now ret]. fold (schedule (clock E (trace w)) minutes).
  cbv zeta.
  destruct (confirmation_html nts _ _ _) as [html|e]; [|reflexivity].
  fold (confirmation_mail E req html).
  cbv [sendMail log throw bind]. cbn [store trace].
  destruct (mail_accepts E (trace w) (confirmation_mail E req html)); [|reflexivity].
  cbn [store trace].
  fold (reminder_input req (schedule (clock E (trace w)) minutes)).
  cbv [save_new throw].
  destruct (validate cast _ _) as [r|]; [|reflexivity].
  cbn [store trace].
  destruct (insert_accepts E _ r); cbv [log bind respond ret]; cbn [store trace];
    rewrite <- ?app_assoc; reflexivity.
Qed.


Lemma validate_Some (i : ReminderInput) (created : Z) (r : Reminder) :
  validate cast i created = Some r ->
  in_scheduledFor i = DateAt (scheduledFor r) /\ sent r = false.
Proof.
  unfold validate. intros H.
  apply bind_Some in H as (e & _ & H).
  apply bind_Some in H as (u & _ & H).
  apply bind_Some in H as (t & _ & H).
  destruct e, u, (in_scheduledFor i); simplify_eq/=; auto.
Qed.

Lemma set_reminder_outcome (req : SetReminderRequest) (w : World) :
  exists resp w', intake req w = (Normal resp, w') /\ intake_outcome nts tls E req w resp w'.
Proof.
  rewrite set_reminder_run.
  destruct (negb (ToBoolean (req_email req)) || negb (ToBoolean (req_problemUrl req))
            || negb (ToBoolean (req_reminderMinutes req)));
    [eexists _, _; split; [reflexivity|constructor; now left]|].
  destruct (parse (req_reminderMinutes req)) as [[minutes|]|e] eqn:Ep;
    try (eexists _, _; split; [reflexivity|constructor; cbn; auto]).
  destruct (leb minutes (of_Z 0)) eqn:El;
    [eexists _, _; split; [reflexivity|constructor; now left]|].
  cbv zeta.
  destruct (confirmation_html nts _ _ _) as [html|e];
    [|eexists _, _; split; [reflexivity|constructor; now right]].
  destruct (mail_accepts E (trace w) _) eqn:Em;
    [|eexists _, _; split; [reflexivity|now constructor]].
  destruct (validate cast _ _) as [r|] eqn:Ev;
    [|eexists _, _; split; [reflexivity|constructor]].
  apply validate_Some in Ev as [Hs Hsent]. cbn [reminder_input in_scheduledFor] in Hs.
  destruct (insert_accepts E _ r);
    [|eexists _, _; split; [reflexivity|constructor]].
  eexists _, _; split; [reflexivity|]. rewrite Hs.
  now apply intake_saved with minutes.
Qed.

Lemma intake_outcome_of_run (req : SetReminderRequest) (w : World)
      (resp : Response) (w' : World) :
  intake req w = (Normal resp, w') -> intake_outcome nts tls E req w resp w'.
Proof.
  intros Hrun. destruct (set_reminder_outcome req w) as (resp0 & w0 & Hrun0 & Hout).
  rewrite Hrun in Hrun0. now injection Hrun0 as <- <-.
Qed.

(** C4: every intake request is answered, and the calls it makes are
    in the order notify, then persist: an insert is only ever attempted
    right after an accepted confirmation mail.  When the transport rejects
    the mail, that is the request's only call, the answer is 500 and the
    store is unchanged; the store changes only by the one record inserted
    after an accepted mail. *)
Theorem notify_then_persist (req : SetReminderRequest) (w : World) :
  exists resp w' evs,
    intake req w = (Normal resp, w')
    /\ trace w' = trace w ++ evs
    /\ (forall r ok, EvInsert r ok ∈ evs ->
          exists m, evs = [EvMail m true; EvInsert r ok])
    /\ (forall m, EvMail m false ∈ evs ->
          mail_accepts E (trace w) m = false
          /\ evs = [EvMail m false]
          /\ status resp = 500 /\ store w' = store w)
    /\ (store w' <> store w ->
          exists m r, evs = [EvMail m true; EvInsert r true]
                      /\ store w' = store w ++ [r]).
Proof.
  destruct (set_reminder_outcome req w) as (resp & w' & Hrun & Hout).
  exists resp, w'.
  destruct Hout as [resp Hst|m Hm|m|m r|m r minutes _ _ _ _];
    [exists []
    |exists [EvMail m false]
    |exists [EvMail m true]
    |exists [EvMail m true; EvInsert r false]
    |exists [EvMail m true; EvInsert r true]];
    cbn [store trace]; rewrite ?app_nil_r;
    (split; [exact Hrun|]); (split; [reflexivity|]);
    (split; [intros r0 ok Hin; in_events Hin; eauto|]);
    (split; [intros m0 Hin; in_events Hin; auto|]);
    intros Hne; try congruence; eauto.
Qed.


(** The schedule for a whole number of minutes. *)
Lemma schedule_integer (now z : Z) :
  0 <= now < 2 ^ 53 -> 0 <= z ->
  schedule now (of_Z z)
  = if now + z * 60 * 1000 <=? 8640000000000000
    then DateAt (now + z * 60 * 1000) else InvalidDate.
Proof.
  intros Hnow Hz. unfold schedule. cbn [getTime].
  apply new_Date_approximates; [lia|].
  apply approximates_add; [assumption|lia|].
  apply approximates_mul; [lia|lia|].
  apply approximates_mul; [lia|lia|].
  apply approximates_of_Z.
Qed.

Lemma schedule_nan (now : Z) : schedule now NaN = InvalidDate.
Proof.
  unfold schedule, add. cbn [NaN mul SFmul]. now destruct (getTime (DateAt now)).
Qed.

(** C8 (as amended): a record the intake handler persists has
    [scheduledFor] equal to the Date the schedule calculator builds from
    the handling instant and the parsed minute count [m], and [m > 0];
    when [m] is a whole number [z] of minutes, [scheduledFor] is exactly
    [now + z*60*1000] milliseconds.  A parse failure or a count [<= 0] is
    answered 400 with nothing computed, and a zero-minute offset gives
    exactly the current instant. *)
Theorem persisted_schedule (req : SetReminderRequest) (w : World) :
  let now := clock E (trace w) in
  (forall resp w',
     intake req w = (Normal resp, w') -> store w' <> store w ->
     exists minutes r,
       parse (req_reminderMinutes req) = Normal (Some minutes)
       /\ ltb (of_Z 0) minutes = true
       /\ store w' = store w ++ [r]
       /\ sent r = false
       /\ schedule now minutes = DateAt (scheduledFor r)
       /\ forall z, minutes = of_Z z -> 0 <= now <= 8640000000000000 ->
            0 < z /\ scheduledFor r = now + z * 60 * 1000)
  /\ (ToBoolean (req_email req) = true -> ToBoolean (req_problemUrl req) = true ->
      ToBoolean (req_reminderMinutes req) = true ->
      (parse (req_reminderMinutes req) = Normal None
       \/ exists minutes, parse (req_reminderMinutes req) = Normal (Some minutes)
                          /\ leb minutes (of_Z 0) = true) ->
      intake req w = (Normal invalid_time, w))
  /\ (forall minutes,
        calculateReminderTime E minutes w = (Normal (schedule now minutes), w))
  /\ (0 <= now <= 8640000000000000 -> schedule now (of_Z 0) = DateAt now).
Proof.
  intros now. split; [|split; [|split]].
  - intros resp w' Hrun Hne. apply intake_outcome_of_run in Hrun.
    destruct Hrun as [resp Hst|m Hm|m|m r|m r minutes Hp Hleb Hs Hsent];
      cbn [store] in Hne; try congruence.
    exists minutes, r. fold now in Hs.
    assert (Hnan : isNaN minutes = false).
    { destruct minutes; try reflexivity. change S754_nan with NaN in Hs.
      rewrite schedule_nan in Hs. discriminate. }
    repeat split; try assumption; try reflexivity.
    + now apply leb_false_ltb.
    + destruct (Z.lt_ge_cases 0 z) as [|Hz]; [assumption|]. subst minutes.
      rewrite of_Z_nonpos_leb in Hleb by lia. discriminate.
    + subst minutes.
      assert (0 < z).
      { destruct (Z.lt_ge_cases 0 z) as [|Hz]; [assumption|].
        rewrite of_Z_nonpos_leb in Hleb by lia. discriminate. }
      rewrite schedule_integer in Hs by lia.
      destruct (now + z * 60 * 1000 <=? 8640000000000000); congruence.
  - intros He Hu Hm Hp. rewrite set_reminder_run, He, Hu, Hm. cbn [negb orb].
    destruct Hp as [->|(minutes & -> & ->)]; reflexivity.
  - reflexivity.
  - intros Hnow. rewrite (schedule_integer now 0) by lia.
    rewrite Z.add_0_r. now destruct (Z.leb_spec now 8640000000000000); [|lia].
Qed.

End Intake.

Lemma evolves_refl (r : Reminder) : evolves r r.
Proof. now left. Qed.

Lemma evolves_trans (r1 r2 r3 : Reminder) :
  evolves r1 r2 -> evolves r2 r3 -> evolves r1 r3.
Proof.
  intros [->|[H1 ->]] [->|[H2 ->]]; try (now left); now right.
Qed.

Lemma evolves_fields (r r' : Reminder) :
  evolves r r' ->
  email r' = email r /\ problemUrl r' = problemUrl r
  /\ problemTitle r' = problemTitle r /\ scheduledFor r' = scheduledFor r
  /\ createdAt r' = createdAt r
  /\ (sent r = true -> r' = r).
Proof. intros [->|[Hs ->]]; repeat split; congruence. Qed.

Section System.
Context (nts : Number -> jsstring) (tls : Date -> jsstring)
        (cast : value -> option jsstring).

Lemma sweep_events_app (E : Environment) (l k : list (nat * Reminder)) :
  sweep_events E (l ++ k) = sweep_events E l ++ sweep_events E k.
Proof. unfold sweep_events. apply bind_app. Qed.

Lemma sweep_step (E : Environment) (secret : option jsstring)
      (w : World) (resp : Response) (w' : World) :
  check_reminders E secret w = (Normal resp, w') ->
  store w' = store w
  \/ exists done rest tail,
       due_reminders (clock E (trace w)) (store w) = done ++ rest
       /\ store w' = mark_all done.*1 (store w)
       /\ trace w' = trace w
                     ++ EvFind (clock E (trace w))
                          (due_reminders (clock E (trace w)) (store w)).*1
                        :: sweep_events E done ++ tail.
Proof.
  intros Hrun. destruct (decide (secret = Some (lit "Sanjeev"))) as [->|Hne].
  - rewrite check_reminders_authorized in Hrun. cbv zeta in Hrun.
    destruct (find_accepts E _ _); [right|left; now injection Hrun as _ <-].
    pose proof (for_of_outcome E (due_reminders (clock E (trace w)) (store w))
      {| store := store w;
         trace := trace w ++ [EvFind (clock E (trace w))
                    (due_reminders (clock E (trace w)) (store w)).*1] |}) as Hloop.
    cbv zeta in Hloop. destruct Hloop as (done & rest & Hsplit & Hst & Hres).
    destruct (for_of _ _ _) as [[[]|e] w''];
      cbn [fst snd store trace] in *; injection Hrun as _ ->.
    + destruct Hres as [_ Htr]. exists done, rest, [].
      rewrite app_nil_r, Htr, <- app_assoc. auto.
    + destruct Hres as (p & rest' & _ & [[_ Htr]|[_ [_ Htr]]]);
        eexists done, rest, _; rewrite Htr, <- !app_assoc; auto.
  - left. unfold check_reminders in Hrun.
    rewrite bool_decide_eq_false_2 in Hrun by assumption. now injection Hrun as _ <-.
Qed.

(** What one handled request does to the stored records. *)
Lemma step_records (E : Environment) (w w' : World) :
  step nts tls E cast w w' ->
  (forall i r, store w !! i = Some r ->
     exists r', store w' !! i = Some r' /\ evolves r r')
  /\ (forall i r', store w !! i = None -> store w' !! i = Some r' ->
        sent r' = false)
  /\ (forall i r r', store w !! i = Some r -> store w' !! i = Some r' ->
        sent r = false -> sent r' = true ->
        exists before after,
          trace w' = trace w ++ before
                     ++ [EvMail (reminder_mail E r) true; EvUpdate i true]
                     ++ after).
Proof.
  intros [req resp Hrun|secret resp Hrun].
  - apply intake_outcome_of_run in Hrun.
    destruct Hrun as [resp Hst|m Hm|m|m r0|m r0 minutes _ _ _ Hsent];
      cbn [store trace];
      try (split; [intros i r Hi; exists r; split; [exact Hi|apply evolves_refl]|];
           split; [intros i r' Hn Hs; congruence|];
           intros i r r' Hi Hi' Hf Ht; congruence).
    split; [|split].
    + intros i r Hi. exists r. split; [|apply evolves_refl].
      now apply lookup_app_l_Some.
    + intros i r' Hn Hs. apply lookup_ge_None in Hn.
      rewrite lookup_app_r in Hs by assumption.
      apply list_lookup_singleton_Some in Hs as [_ <-]. exact Hsent.
    + intros i r r' Hi Hi' Hf Ht.
      rewrite (lookup_app_l_Some _ _ _ _ Hi) in Hi'. congruence.
  - apply sweep_step in Hrun as [->|(done & rest & tail & Hdue & Hst & Htr)].
    + split; [intros i r Hi; exists r; split; [exact Hi|apply evolves_refl]|].
      split; [intros i r' Hn Hs; congruence|].
      intros i r r' Hi Hi' Hf Ht; congruence.
    + assert (Hdone : forall i r, store w !! i = Some r -> i ∈ done.*1 ->
                                  (i, r) ∈ done /\ sent r = false).
      { intros i r Hi ([j r0] & Hj & Hin)%list_elem_of_fmap. cbn in Hj. subst j.
        assert (Hin' : (i, r0) ∈ due_reminders (clock E (trace w)) (store w))
          by (rewrite Hdue, elem_of_app; now left).
        apply due_reminders_spec in Hin' as (Hi0 & _ & Hs0).
        assert (r0 = r) by congruence. subst r0. auto. }
      split; [|split].
      * intros i r Hi. rewrite Hst, mark_all_lookup, Hi. cbn.
        destruct (decide (i ∈ done.*1)) as [Hin|Hnin].
        -- rewrite bool_decide_eq_true_2 by assumption.
           exists (mark_sent r). split; [reflexivity|]. right.
           split; [|reflexivity]. now apply (Hdone i r Hi Hin).
        -- rewrite bool_decide_eq_false_2 by assumption.
           exists r. split; [reflexivity|apply evolves_refl].
      * intros i r' Hn Hs. rewrite Hst, mark_all_lookup, Hn in Hs. discriminate.
      * intros i r r' Hi Hi' Hf Ht. rewrite Hst, mark_all_lookup, Hi in Hi'. cbn in Hi'.
        destruct (decide (i ∈ done.*1)) as [Hin|Hnin].
        -- destruct (Hdone i r Hi Hin) as [Hmem _].
           apply list_elem_of_split in Hmem as (d1 & d2 & ->).
           rewrite Htr, sweep_events_app.
           change ((i, r) :: d2) with ([(i, r)] ++ d2). rewrite sweep_events_app.
           exists (EvFind (clock E (trace w))
                     (due_reminders (clock E (trace w)) (store w)).*1
                   :: sweep_events E d1), (sweep_events E d2 ++ tail).
           cbn. now rewrite <- !app_assoc.
        -- rewrite bool_decide_eq_false_2 in Hi' by assumption. cbn in Hi'. congruence.
Qed.

(** C9: a record enters the store with [sent = false]; a handled request
    leaves every stored record as it was or turns its [sent] flag from
    false to true, and does the latter only right after the transport
    accepted that record's notification; so over any sequence of requests
    (the environment free to differ from one request to the next) the
    flag goes from false to true at most once and never back, and no
    other field of a stored record changes. *)
Theorem sent_flag_lifecycle :
  (forall E w w', step nts tls E cast w w' ->
     (forall i r', store w !! i = None -> store w' !! i = Some r' ->
        sent r' = false)
     /\ (forall i r, store w !! i = Some r ->
           exists r', store w' !! i = Some r' /\ evolves r r')
     /\ (forall i r r', store w !! i = Some r -> store w' !! i = Some r' ->
           sent r = false -> sent r' = true ->
           exists before after,
             trace w' = trace w ++ before
                        ++ [EvMail (reminder_mail E r) true; EvUpdate i true]
                        ++ after))
  /\ (forall w w', rtc (any_step nts tls cast) w w' ->
        forall i r, store w !! i = Some r ->
          exists r', store w' !! i = Some r' /\ evolves r r')
  /\ (forall r r', evolves r r' ->
        email r' = email r /\ problemUrl r' = problemUrl r
        /\ problemTitle r' = problemTitle r /\ scheduledFor r' = scheduledFor r
        /\ createdAt r' = createdAt r
        /\ (sent r = true -> r' = r)).
Proof.
  split; [|split; [|exact evolves_fields]].
  - intros E w w' Hstep. destruct (step_records E w w' Hstep) as (H1 & H2 & H3).
    auto.
  - intros w w' Hrtc. induction Hrtc as [w|w1 w2 w3 [E H12] _ IH]; intros i r Hi.
    + exists r. split; [exact Hi|apply evolves_refl].
    + destruct (step_records E _ _ H12) as (H1 & _ & _).
      destruct (H1 i r Hi) as (r2 & Hi2 & He2).
      destruct (IH i r2 Hi2) as (r3 & Hi3 & He3).
      exists r3. split; [exact Hi3|]. now apply evolves_trans with r2.
Qed.

End System.

(** * Further properties, read off the code *)

(** * Rounding never goes below a representable integer *)

Lemma shr_1_half (mrs : shr_record) :
  0 <= shr_m mrs -> shr_m (shr_1 mrs) = shr_m mrs / 2.
Proof.
  destruct mrs as [m r s]. cbn [shr_m]. intros Hm.
  destruct m as [|[p|p|]|p]; cbn [shr_1 shr_m]; try lia; try reflexivity.
  - rewrite Pos2Z.inj_xI. apply Z.div_unique with 1; lia.
  - rewrite Pos2Z.inj_xO. apply Z.div_unique with 0; lia.
Qed.

Lemma shr_iter_quotient (n : nat) (mrs : shr_record) :
  0 <= shr_m mrs ->
  shr_m (Nat.iter n shr_1 mrs) = shr_m mrs / 2 ^ Z.of_nat n.
Proof.
  intros Hm. induction n as [|n IH].
  - cbn [Nat.iter nat_rect]. now rewrite Z.pow_0_r, Z.div_1_r.
  - change (Nat.iter (S n) shr_1 mrs) with (shr_1 (Nat.iter n shr_1 mrs)).
    rewrite shr_1_half.
    + rewrite IH, Nat2Z.inj_succ, Z.pow_succ_r by lia.
      rewrite Z.div_div by (try apply Z.pow_pos_nonneg; lia).
      f_equal. lia.
    + rewrite IH. apply Z.div_pos; [assumption|apply Z.pow_pos_nonneg; lia].
Qed.

Lemma is_huge_at_least (x : Number) (q : Z) :
  is_huge x = true -> q < 2 ^ 53 -> at_least x q = true.
Proof.
  intros Hx Hq. destruct x as [s|[]| |[] m e]; try discriminate; [reflexivity|].
  cbn [is_huge] in Hx. apply andb_true_iff in Hx as [He%Z.leb_le Hd%Z.leb_le].
  cbn [at_least cond_Zopp]. destruct (Z.leb_spec 0 e); [|lia].
  apply Z.leb_le. pose proof (digits2_pos_bounds m) as [Hlo _].
  assert (2 ^ 53 <= Z.pos m * 2 ^ e); [|lia].
  transitivity (2 ^ (Z.pos (digits2_pos m) - 1) * 2 ^ e).
  - rewrite <- Z.pow_add_r by lia. apply Z.pow_le_mono_r; lia.
  - apply Z.mul_le_mono_nonneg_r; [apply Z.pow_nonneg; lia|assumption].
Qed.

(** [q <= m * 2^e], both sides scaled to integers. *)
Lemma at_least_finite (m : positive) (e q : Z) :
  at_least (S754_finite false m e) q = true
  <-> q * 2 ^ Z.max 0 (- e) <= Z.pos m * 2 ^ Z.max 0 e.
Proof.
  cbn [at_least cond_Zopp]. destruct (Z.leb_spec 0 e).
  - rewrite Z.leb_le, Z.max_l, Z.max_r by lia. now rewrite Z.pow_0_r, Z.mul_1_r.
  - rewrite Z.leb_le, Z.max_r, Z.max_l by lia. now rewrite Z.pow_0_r, Z.mul_1_r.
Qed.

Lemma round_nearest_even_bounds (p : positive) (l : location) :
  exists p', round_nearest_even (Z.pos p) l = Z.pos p'
             /\ Z.pos p <= Z.pos p' <= Z.pos p + 1.
Proof.
  unfold round_nearest_even. destruct l as [|[| |]];
    try (exists p; split; [reflexivity|lia]).
  - destruct (Z.even (Z.pos p)).
    + exists p. split; [reflexivity|lia].
    + exists (p + 1)%positive. split; [reflexivity|lia].
  - exists (p + 1)%positive. split; [reflexivity|lia].
Qed.

Lemma binary_round_aux_at_least (m : positive) (e q : Z) :
  1 <= q < 2 ^ 53 ->
  at_least (S754_finite false m e) q = true ->
  at_least (binary_round_aux prec emax false (Z.pos m) e loc_Exact) q = true.
Proof.
  intros [Hq1 Hq2] Hin.
  set (d := Z.pos (digits2_pos m)).
  pose proof (digits2_pos_bounds m) as [Hlo Hhi]. fold d in Hlo, Hhi.
  destruct (Z.le_gt_cases 54 (d + e)) as [Hbig|Hsmall].
  { apply is_huge_at_least; [|assumption].
    apply binary_round_aux_huge; [assumption|reflexivity]. }
  apply at_least_finite in Hin.
  assert (Hpos : 1 <= d + e).
  { destruct (Z.le_gt_cases 0 e) as [|He]; [unfold d; lia|].
    rewrite Z.max_r, Z.max_l, Z.pow_0_r, Z.mul_1_r in Hin by lia.
    destruct (Z.le_gt_cases 1 (d + e)) as [|Hle]; [assumption|exfalso].
    assert (2 ^ d <= 2 ^ (- e)) by (apply Z.pow_le_mono_r; lia).
    assert (0 < 2 ^ (- e)) by (apply Z.pow_pos_nonneg; lia). nia. }
  assert (Hstay : forall (p : positive) (e1 : Z),
    Z.pos (digits2_pos p) <= 53 -> 1 <= Z.pos (digits2_pos p) + e1 ->
    shr_fexp prec emax (Z.pos p) e1 loc_Exact
    = (Build_shr_record (Z.pos p) false false, e1)).
  { intros p e1 Hp Hsum. unfold shr_fexp. cbn [Zdigits2 shr_record_of_loc].
    rewrite fexp_small by lia. unfold shr.
    destruct (Z.pos (digits2_pos p) + e1 - 53 - e1) as [|n|n] eqn:En; try reflexivity. lia. }
  unfold binary_round_aux.
  destruct (Z.le_gt_cases d 53) as [Hd|Hd].
  - rewrite Hstay by (fold d; lia).
    cbn [shr_m loc_of_shr_record round_nearest_even].
    rewrite Hstay by (fold d; lia). cbn [shr_m].
    unfold emax, prec. destruct (Z.leb_spec e (1024 - 53)); [|lia].
    now apply at_least_finite.
  - assert (He : e < 0) by lia.
    rewrite Z.max_r, Z.max_l, Z.pow_0_r, Z.mul_1_r in Hin by lia.
    unfold shr_fexp at 1. cbn [Zdigits2 shr_record_of_loc]. fold d.
    rewrite fexp_small by lia. unfold shr at 1.
    destruct (d + e - 53 - e) as [|n|n] eqn:En; try lia.
    rewrite iter_pos_nat.
    pose proof (shr_iter_quotient (Pos.to_nat n)
                  (Build_shr_record (Z.pos m) false false)) as Hquot.
    destruct (shr_iter_digits (Pos.to_nat n) m false false) as (p' & r' & s' & Hit & Hd');
      [fold d; lia|].
    rewrite Hit in *. cbn [shr_m] in *. rewrite positive_nat_Z in *. fold d in Hd'.
    specialize (Hquot ltac:(lia)).
    set (e1 := e + Z.pos n) in *.
    assert (He1 : e1 = d + e - 53) by (unfold e1; lia).
    assert (Hn : 0 < 2 ^ Z.pos n) by (apply Z.pow_pos_nonneg; lia).
    assert (Hq' : q * 2 ^ (- e1) <= Z.pos p').
    { rewrite Hquot. apply Z.div_le_lower_bound; [assumption|].
      replace (- e) with (Z.pos n + - e1) in Hin by lia.
      rewrite Z.pow_add_r in Hin by lia. lia. }
    destruct (round_nearest_even_bounds p' (loc_of_shr_record (Build_shr_record (Z.pos p') r' s')))
      as (p'' & -> & Hp'').
    pose proof (digits2_pos_succ p') as [Hs1 Hs2].
    assert (Hd'' : 53 <= Z.pos (digits2_pos p'') <= 54).
    { destruct (Z.eq_dec (Z.pos p'') (Z.pos p')) as [Heq|Hne].
      - injection Heq as ->. lia.
      - assert (p'' = (p' + 1)%positive) by lia. subst p''. lia. }
    destruct (Z.le_gt_cases (Z.pos (digits2_pos p'')) 53) as [H53|H54].
    + rewrite Hstay by lia. cbn [shr_m]. unfold emax, prec.
      destruct (Z.leb_spec e1 (1024 - 53)); [|lia].
      apply at_least_finite. rewrite Z.max_r, Z.max_l, Z.pow_0_r, Z.mul_1_r by lia. lia.
    + unfold shr_fexp. cbn [Zdigits2 shr_record_of_loc].
      rewrite fexp_small by lia. unfold shr.
      destruct (Z.pos (digits2_pos p'') + e1 - 53 - e1) as [|k|k] eqn:Ek; try lia.
      assert (k = 1%positive) by lia. subst k. cbn [SpecFloat.iter_pos].
      pose proof (shr_1_half (Build_shr_record (Z.pos p'') false false)) as Hhalf.
      destruct (shr_1_digits p'' false false) as (p3 & r3 & s3 & H3 & Hd3); [lia|].
      rewrite H3 in *. cbn [shr_m] in *. specialize (Hhalf ltac:(lia)).
      unfold emax, prec. destruct (Z.leb_spec (e1 + 1) (1024 - 53)); [|lia].
      apply at_least_finite.
      pose proof (digits2_pos_bounds p3) as [Hlo3 _].
      replace (Z.pos (digits2_pos p3) - 1) with 52 in Hlo3 by lia.
      destruct (Z.le_gt_cases 0 (e1 + 1)) as [Hz|Hz].
      * assert (e1 + 1 <= 1) by lia.
        rewrite Z.max_l, Z.max_r, Z.pow_0_r, Z.mul_1_r by lia.
        destruct (Z.eq_dec (e1 + 1) 1) as [->|Hne].
        -- change (2 ^ 1) with 2. lia.
        -- assert (e1 + 1 = 0) by lia.
           replace (e1 + 1) with 0 by lia. rewrite Z.pow_0_r, Z.mul_1_r.
           replace (- e1) with 1 in Hq' by lia. change (2 ^ 1) with 2 in Hq'.
           rewrite Hhalf. apply Z.div_le_lower_bound; lia.
      * rewrite Z.max_r, Z.max_l, Z.pow_0_r, Z.mul_1_r by lia.
        rewrite Hhalf. apply Z.div_le_lower_bound; [lia|].
        replace (- e1) with (1 + - (e1 + 1)) in Hq' by lia.
        rewrite Z.pow_add_r in Hq' by lia. change (2 ^ 1) with 2 in Hq'. lia.
Qed.

Lemma shl_align_spec (m : positive) (e e' : Z) :
  snd (shl_align m e e') = Z.min e e'
  /\ Z.pos (fst (shl_align m e e')) = Z.pos m * 2 ^ (e - Z.min e e').
Proof.
  unfold shl_align. destruct (e' - e) as [|d|d] eqn:Ed; cbn [fst snd].
  - rewrite Z.min_l by lia. rewrite Z.sub_diag, Z.pow_0_r. lia.
  - rewrite Z.min_l by lia. rewrite Z.sub_diag, Z.pow_0_r. lia.
  - rewrite Z.min_r by lia. split; [reflexivity|].
    rewrite shift_pos_shift_nat, shift_nat_Z, positive_nat_Z. do 2 f_equal. lia.
Qed.

Lemma binary_round_at_least (M : positive) (ez q : Z) :
  1 <= q < 2 ^ 53 -> ez <= 0 -> q * 2 ^ (- ez) <= Z.pos M ->
  at_least (binary_round prec emax false M ez) q = true.
Proof.
  intros Hq Hez HM. unfold binary_round.
  pose proof (shl_align_spec M ez (fexp prec emax (Z.pos (digits2_pos M) + ez)))
    as [He Hm].
  destruct (shl_align M ez _) as [mz ez']. cbn [fst snd] in *.
  apply binary_round_aux_at_least; [assumption|].
  apply at_least_finite. rewrite Z.max_r, Z.max_l, Z.pow_0_r, Z.mul_1_r by lia.
  rewrite Hm, <- He.
  replace (- ez') with (- ez + (ez - ez')) by lia.
  rewrite Z.pow_add_r by lia.
  assert (0 <= 2 ^ (ez - ez')) by (apply Z.pow_nonneg; lia). nia.
Qed.

Lemma at_least_canon (q : positive) : at_least (canon false q) (Z.pos q) = true.
Proof.
  unfold canon. apply at_least_finite. rewrite shift_nat_Z.
  rewrite Z.max_r, Z.max_l, Z.pow_0_r, Z.mul_1_r by lia.
  rewrite Z.opp_involutive. lia.
Qed.

(** Adding a non-negative Number to a representable integer gives at
    least that integer. *)
Lemma add_at_least (b : Z) (x : Number) :
  0 <= b < 2 ^ 53 -> is_nonnegative x = true ->
  at_least (add (of_Z b) x) b = true.
Proof.
  intros [Hb0 Hb1] Hx.
  destruct b as [|b|b]; [|rewrite of_Z_pos by assumption|lia].
  - change (of_Z 0) with (S754_zero false).
    destruct x as [[]|[]| |[] mx ex]; try discriminate; try reflexivity.
    unfold add. cbn [SFadd]. apply at_least_finite.
    assert (0 <= 2 ^ Z.max 0 ex) by (apply Z.pow_nonneg; lia). lia.
  - destruct x as [[]|[]| |[] mx ex]; try discriminate; try reflexivity.
    + unfold add, canon. cbn [SFadd]. apply at_least_canon.
    + unfold add, canon. cbn [SFadd].
      set (k := Z.to_nat (53 - Z.pos (digits2_pos b))).
      set (ez := Z.min (- Z.of_nat k) ex).
      pose proof (shl_align_spec (shift_nat k b) (- Z.of_nat k) ez) as [_ H1].
      pose proof (shl_align_spec mx ex ez) as [_ H2].
      cbn [cond_Zopp]. rewrite <- Pos2Z.inj_add. cbn [binary_normalize].
      apply binary_round_at_least; [lia|lia|].
      rewrite Pos2Z.inj_add, H1, shift_nat_Z.
      replace (Z.min (- Z.of_nat k) ez) with ez by lia.
      assert (0 <= Z.pos (fst (shl_align mx ex ez))) by lia.
      replace (- ez) with (Z.of_nat k + (- Z.of_nat k - ez)) by lia.
      rewrite Z.pow_add_r by lia. nia.
Qed.

Lemma new_Date_at_least (x : Number) (q t : Z) :
  at_least x q = true -> new_Date x = DateAt t -> q <= t.
Proof.
  unfold new_Date. destruct x as [s|s| |s m e]; cbn [isFinite andb]; try discriminate.
  - cbn [abs_le truncate at_least]. intros Hq%Z.leb_le.
    destruct (0 <=? 8640000000000000); intros [= <-]. exact Hq.
  - destruct (abs_le _ _); [|discriminate]. intros Hq [= <-].
    cbn [at_least truncate] in *. destruct (Z.leb_spec 0 e).
    + now apply Z.leb_le in Hq.
    + apply Z.leb_le in Hq.
      assert (0 < 2 ^ (- e)) by (apply Z.pow_pos_nonneg; lia).
      destruct s; cbn [cond_Zopp] in *.
      * assert (Z.pos m / 2 ^ (- e) <= - q); [|lia].
        apply Z.div_le_upper_bound; [assumption|]. lia.
      * apply Z.div_le_lower_bound; [assumption|]. lia.
Qed.

Lemma mul_nonnegative (x : Number) (m : positive) (e : Z) :
  is_nonnegative x = true ->
  is_nonnegative (mul x (S754_finite false m e)) = true.
Proof.
  destruct x as [[]|[]| |[] mx ex]; try discriminate; intros _; try reflexivity.
  unfold mul. cbn [SFmul xorb].
  pose proof (binary_round_aux_sign false (mx * m) (ex + e) loc_Exact) as H.
  destruct (binary_round_aux prec emax false (Z.pos (mx * m)) (ex + e) loc_Exact);
    try subst; try contradiction; reflexivity.
Qed.

(** The schedule is never before the clock reading it starts from. *)
Lemma schedule_at_least (now : Z) (minutes : Number) (t : Z) :
  0 <= now < 2 ^ 53 -> leb minutes (of_Z 0) = false ->
  schedule now minutes = DateAt t -> now <= t.
Proof.
  intros Hnow Hleb Hs. unfold schedule in Hs. cbn [getTime] in Hs.
  destruct (is_nonnegative minutes) eqn:Hnn.
  - apply (new_Date_at_least _ now t) in Hs; [exact Hs|].
    apply add_at_least; [assumption|].
    assert (H60 : of_Z 60 = S754_finite false 8444249301319680 (-47)) by reflexivity.
    assert (H1000 : of_Z 1000 = S754_finite false 8796093022208000 (-43)) by reflexivity.
    rewrite H60, H1000. now apply mul_nonnegative, mul_nonnegative.
  - exfalso. destruct minutes as [[]|[]| |[] m e]; try discriminate.
    cbn [mul SFmul] in Hs. unfold add in Hs.
    destruct (of_Z now); discriminate.
Qed.

(** * Further properties of the duration parser *)

Lemma trimStart_app_ws (ws s : jsstring) :
  forallb is_white_space ws = true -> trimStart (ws ++ s) = trimStart s.
Proof.
  induction ws as [|c ws IH]; [reflexivity|]. cbn [forallb app trimStart].
  intros [-> H]%andb_true_iff. auto.
Qed.

Lemma trimStart_app (s t : jsstring) :
  trimStart s <> [] -> trimStart (s ++ t) = trimStart s ++ t.
Proof.
  induction s as [|c s IH]; [intros H; now destruct H|]. cbn [app trimStart].
  destruct (is_white_space c); [exact IH|reflexivity].
Qed.

Lemma trimStart_nil (s : jsstring) :
  trimStart s = [] -> forallb is_white_space s = true.
Proof.
  induction s as [|c s IH]; [reflexivity|]. cbn [trimStart forallb].
  destruct (is_white_space c); [exact IH|discriminate].
Qed.

Lemma forallb_rev {A} (f : A -> bool) (l : list A) :
  forallb f (rev l) = forallb f l.
Proof.
  induction l as [|x l IH]; [reflexivity|]. cbn [rev forallb].
  rewrite forallb_app, IH. cbn [forallb]. rewrite andb_true_r. apply andb_comm.
Qed.

Lemma trimEnd_app_ws (s ws : jsstring) :
  forallb is_white_space ws = true -> trimEnd (s ++ ws) = trimEnd s.
Proof.
  intros H. unfold trimEnd. rewrite rev_app_distr, trimStart_app_ws; [reflexivity|].
  now rewrite forallb_rev.
Qed.

Lemma trim_padding (ws1 s ws2 : jsstring) :
  forallb is_white_space ws1 = true -> forallb is_white_space ws2 = true ->
  trim (ws1 ++ s ++ ws2) = trim s.
Proof.
  intros H1 H2. unfold trim. rewrite trimStart_app_ws by assumption.
  destruct (trimStart s) as [|c r] eqn:Es.
  - apply trimStart_nil in Es.
    rewrite (trimStart_app_ws s ws2 Es).
    rewrite <- (app_nil_r ws2), trimStart_app_ws by assumption. reflexivity.
  - rewrite trimStart_app by congruence. rewrite Es. now apply trimEnd_app_ws.
Qed.

Lemma trimEnd_cons (c : code_unit) (s : jsstring) :
  trimEnd s <> [] -> trimEnd (c :: s) = c :: trimEnd s.
Proof.
  unfold trimEnd. intros H. cbn [rev]. rewrite trimStart_app.
  - rewrite rev_app_distr. reflexivity.
  - intros Hn. rewrite Hn in H. now apply H.
Qed.

Lemma endsWith_cons (c : code_unit) (s : jsstring) (c' : code_unit) :
  s <> [] -> endsWith (c :: s) c' = endsWith s c'.
Proof.
  intros H. unfold endsWith. cbn [rev].
  destruct (rev s) as [|x r] eqn:Er; [|reflexivity].
  apply (f_equal (@rev _)) in Er. rewrite rev_involutive in Er. now subst.
Qed.


Lemma digit_not_sign (d : code_unit) :
  is_decimal_digit d = true -> is_sign d = false /\ (d =? 45)%N = false.
Proof.
  unfold is_decimal_digit, is_sign. intros [H1%N.leb_le H2%N.leb_le]%andb_true_iff.
  destruct (N.eqb_spec d 43), (N.eqb_spec d 45); try lia; auto.
Qed.

(** The builtin parse on a run of decimal digits followed by anything
    that is not one, hexadecimal prefix apart. *)
Lemma parseInt_digits_tail (s t : jsstring) :
  s <> [] -> forallb is_decimal_digit s = true ->
  match t with x :: _ => is_decimal_digit x = false | [] => True end ->
  has_sign_or_hex_prefix (s ++ t) = false ->
  parseInt (s ++ t) = of_Z (decimal_string_value s).
Proof.
  intros Hne Hs Ht Hpre. destruct s as [|d s]; [congruence|].
  pose proof Hs as Hs'. cbn [forallb] in Hs'. apply andb_true_iff in Hs' as [Hd _].
  rewrite parseInt_plain; [|cbn [app]; now apply is_decimal_digit_not_space|assumption].
  rewrite leading_digits_app by assumption.
  rewrite <- (digits_value_map (d :: s)). reflexivity.
Qed.

Lemma trim_digits_tail (s t : jsstring) (c : code_unit) :
  s <> [] -> forallb is_decimal_digit s = true -> is_white_space c = false ->
  trim (s ++ t ++ [c]) = s ++ t ++ [c].
Proof.
  intros Hne Hs Hc. unfold trim. rewrite trimStart_id.
  - rewrite app_assoc. rewrite trimEnd_snoc by assumption. reflexivity.
  - destruct s as [|d s]; [congruence|]. cbn [app forallb] in *.
    apply andb_true_iff in Hs as [Hd _]. now apply is_decimal_digit_not_space.
Qed.


Section ParserMore.

Context (nts : Number -> jsstring).
Local Abbreviation parse := (parseReminderTime nts).

(** X1: white space around a text input does not change the result. *)
Theorem parse_ignores_padding (ws1 s ws2 : jsstring) :
  forallb is_white_space ws1 = true -> forallb is_white_space ws2 = true ->
  parse (VString (ws1 ++ s ++ ws2)) = parse (VString s).
Proof.
  intros H1 H2. cbn [parseReminderTime ToString cbind]. unfold parse_text.
  now rewrite trim_padding.
Qed.

(** X2: in a text that starts with decimal digits, but not with [0x]
    or [0X] (the start of a hexadecimal literal), and that ends in a
    character that is neither a digit nor white space, nothing is read
    between the digits and the last character: as long as the shortened
    text does not start with [0x] or [0X] either, the text in the middle
    can be dropped. *)
Theorem parse_ignores_middle (s t : jsstring) (c : code_unit) :
  s <> [] -> forallb is_decimal_digit s = true ->
  match t with x :: _ => is_decimal_digit x = false | [] => True end ->
  is_decimal_digit c = false -> is_white_space c = false ->
  has_sign_or_hex_prefix (s ++ t ++ [c]) = false ->
  has_sign_or_hex_prefix (s ++ [c]) = false ->
  parse (VString (s ++ t ++ [c])) = parse (VString (s ++ [c])).
Proof.
  intros Hne Hs Ht Hc Hws Hpre Hpre'. cbn [parseReminderTime ToString cbind]. f_equal.
  unfold parse_text.
  pose proof (trim_digits_tail s [] c Hne Hs Hws) as Hshort. cbn [app] in Hshort.
  rewrite (trim_digits_tail s t c), Hshort by assumption.
  rewrite (parseInt_digits_tail s (t ++ [c])), (parseInt_digits_tail s [c]);
    try assumption.
  - rewrite (app_assoc s t [c]), !endsWith_snoc. reflexivity.
  - destruct t as [|x t]; [exact Hc|exact Ht].
Qed.


(** X4: an explicit plus sign before the digits changes nothing. *)
Theorem parse_accepts_plus_sign (d : code_unit) (t : jsstring) :
  is_decimal_digit d = true ->
  parse (VString (43%N :: d :: t)) = parse (VString (d :: t)).
Proof.
  intros Hd. cbn [parseReminderTime ToString cbind]. f_equal. unfold parse_text.
  pose proof (is_decimal_digit_not_space d Hd) as Hws.
  assert (Hne : trimEnd (d :: t) <> []) by now apply trimEnd_nonempty.
  assert (Ht : trim (d :: t) = trimEnd (d :: t)).
  { unfold trim. now rewrite (trimStart_id (d :: t)). }
  assert (Hp : trim (43%N :: d :: t) = 43%N :: trimEnd (d :: t)).
  { unfold trim. rewrite (trimStart_id (43%N :: d :: t)) by reflexivity.
    now apply trimEnd_cons. }
  rewrite Ht, Hp. rewrite !endsWith_cons by assumption.
  destruct (trim_keeps_head d t Hws) as (r' & w & Hk & _). rewrite Ht in Hk.
  rewrite Hk. unfold parseInt. cbn [trimStart]. rewrite Hws.
  change (is_white_space 43%N) with false. cbv beta iota.
  change (is_sign 43%N) with true. change (43 =? 45)%N with false. cbv beta iota.
  destruct (digit_not_sign d Hd) as [-> ->]. reflexivity.
Qed.

End ParserMore.

(** * Further properties of the intake handler *)

Lemma digit_value_nonneg (radix : Z) (c : code_unit) (d : Z) :
  digit_value radix c = Some d -> 0 <= d.
Proof.
  unfold digit_value.
  destruct (Z.leb_spec 48 (Z.of_N c)); cbn [andb].
  - destruct (Z.leb_spec (Z.of_N c) 57).
    + destruct (_ <? radix); intros [= <-]; lia.
    + destruct (Z.leb_spec 97 (Z.of_N c)); cbn [andb].
      * destruct (Z.leb_spec (Z.of_N c) 122).
        -- destruct (_ <? radix); intros [= <-]; lia.
        -- destruct (Z.leb_spec 65 (Z.of_N c)); cbn [andb]; [|discriminate].
           destruct (Z.leb_spec (Z.of_N c) 90); [|discriminate].
           destruct (_ <? radix); intros [= <-]; lia.
      * destruct (Z.leb_spec 65 (Z.of_N c)); cbn [andb]; [|discriminate].
        destruct (Z.leb_spec (Z.of_N c) 90); [|discriminate].
        destruct (_ <? radix); intros [= <-]; lia.
  - destruct (Z.leb_spec 97 (Z.of_N c)); [lia|]. cbn [andb].
    destruct (Z.leb_spec 65 (Z.of_N c)); [lia|]. discriminate.
Qed.

Lemma leading_digits_nonneg (radix : Z) (s : jsstring) :
  Forall (fun d => 0 <= d) (leading_digits radix s).
Proof.
  induction s as [|c s IH]; [constructor|]. cbn [leading_digits].
  destruct (digit_value radix c) as [d|] eqn:Ed; constructor; [|exact IH].
  now apply digit_value_nonneg in Ed.
Qed.

Lemma digits_value_nonneg (radix : Z) (ds : list Z) :
  0 <= radix -> Forall (fun d => 0 <= d) ds -> 0 <= digits_value radix ds.
Proof.
  intros Hr Hds. unfold digits_value.
  assert (H : forall acc, 0 <= acc ->
            0 <= fold_left (fun acc d => acc * radix + d) ds acc); [|apply H; lia].
  induction Hds as [|d ds Hd _ IH]; intros acc Hacc; cbn [fold_left]; [assumption|].
  apply IH. nia.
Qed.

Lemma binary_normalize_nonpositive (z : Z) :
  z <= 0 -> is_nonpositive (binary_normalize prec emax z 0 true) = true.
Proof.
  intros Hz. destruct z as [|p|p]; [reflexivity|lia|].
  cbn [binary_normalize]. unfold binary_round.
  destruct (shl_align p 0 _) as [mz ez].
  pose proof (binary_round_aux_sign true mz ez loc_Exact) as H.
  destruct (binary_round_aux prec emax true (Z.pos mz) ez loc_Exact);
    try subst; try contradiction; reflexivity.
Qed.

Lemma parseInt_minus (r : jsstring) :
  isNaN (parseInt (45%N :: r)) = true
  \/ is_nonpositive (parseInt (45%N :: r)) = true.
Proof.
  unfold parseInt. cbn [trimStart]. change (is_white_space 45%N) with false.
  cbv beta iota. change (is_sign 45%N) with true. change (45 =? 45)%N with true.
  cbv beta iota.
  assert (H : forall radix s, 0 <= radix ->
    let v := match leading_digits radix s with
             | [] => NaN
             | ds => binary_normalize prec emax
                       (cond_Zopp true (digits_value radix ds)) 0 true
             end in
    isNaN v = true \/ is_nonpositive v = true).
  { intros radix s Hr. cbv zeta.
    pose proof (leading_digits_nonneg radix s) as Hds.
    destruct (leading_digits radix s) as [|d ds]; [now left|]. right.
    apply binary_normalize_nonpositive. cbn [cond_Zopp].
    pose proof (digits_value_nonneg radix (d :: ds) Hr Hds). lia. }
  destruct r as [|c [|x r]]; try (apply H; lia).
  destruct ((c =? 48)%N && ((x =? 120)%N || (x =? 88)%N)); apply H; lia.
Qed.

Lemma mul_nonpositive (x : Number) (m : positive) (e : Z) :
  is_nonpositive x = true ->
  is_nonpositive (mul x (S754_finite false m e)) = true.
Proof.
  destruct x as [s|[]| |[] mx ex]; try discriminate; intros _; try reflexivity.
  unfold mul. cbn [SFmul xorb].
  pose proof (binary_round_aux_sign true (mx * m) (ex + e) loc_Exact) as H.
  destruct (binary_round_aux prec emax true (Z.pos (mx * m)) (ex + e) loc_Exact);
    try subst; try contradiction; reflexivity.
Qed.

Lemma leb_nonpositive (x : Number) :
  is_nonpositive x = true -> leb x (of_Z 0) = true.
Proof. destruct x as [[]|[]| |[] m e]; try discriminate; reflexivity. Qed.

Lemma parse_text_minus (s r : jsstring) :
  trim s = 45%N :: r ->
  match parse_text s with
  | None => True
  | Some x => is_nonpositive x = true
  end.
Proof.
  intros Ht. unfold parse_text. rewrite Ht.
  destruct (parseInt_minus r) as [Hn|Hn]; [now rewrite Hn|].
  destruct (isNaN (parseInt (45%N :: r))); [exact I|].
  assert (H60 : of_Z 60 = S754_finite false 8444249301319680 (-47)) by reflexivity.
  assert (H24 : of_Z 24 = S754_finite false 6755399441055744 (-48)) by reflexivity.
  rewrite H60, H24.
  destruct (endsWith _ 109%N); [assumption|].
  destruct (endsWith _ 104%N); [now apply mul_nonpositive|].
  destruct (endsWith _ 100%N); [now apply mul_nonpositive, mul_nonpositive|].
  assumption.
Qed.

Lemma new_Date_range (x : Number) (t : Z) :
  new_Date x = DateAt t -> -8640000000000000 <= t <= 8640000000000000.
Proof.
  unfold new_Date. destruct x as [s|s| |s m e]; cbn [isFinite andb]; try discriminate.
  - cbn [abs_le truncate]. intros [= <-]. lia.
  - destruct (abs_le (S754_finite s m e) 8640000000000000) eqn:Ha; [|discriminate].
    intros [= <-]. cbn [abs_le truncate] in *.
    destruct (Z.leb_spec 0 e).
    + apply Z.leb_le in Ha. destruct s; cbn [cond_Zopp]; lia.
    + apply Z.leb_le in Ha.
      assert (0 < 2 ^ (- e)) by (apply Z.pow_pos_nonneg; lia).
      assert (0 <= Z.pos m / 2 ^ (- e)) by (apply Z.div_pos; lia).
      assert (Z.pos m / 2 ^ (- e) <= 8640000000000000).
      { apply Z.div_le_upper_bound; [assumption|]. lia. }
      destruct s; cbn [cond_Zopp]; lia.
Qed.

Section IntakeMore.
Context (nts : Number -> jsstring) (tls : Date -> jsstring)
        (E : Environment) (cast : value -> option jsstring).

Local Abbreviation intake := (set_reminder nts tls E cast).
Local Abbreviation parse := (parseReminderTime nts).

(** X5: the Missing-fields answer is given exactly when one of the three
    required fields is falsy, and then nothing else happens. *)
Theorem missing_fields_first (req : SetReminderRequest) (w : World) :
  let present := ToBoolean (req_email req) && ToBoolean (req_problemUrl req)
                 && ToBoolean (req_reminderMinutes req) in
  (present = false -> intake req w = (Normal missing_fields, w))
  /\ (present = true ->
      forall resp w', intake req w = (Normal resp, w') -> resp <> missing_fields).
Proof.
  cbv zeta. rewrite set_reminder_run.
  destruct (ToBoolean (req_email req)), (ToBoolean (req_problemUrl req)),
    (ToBoolean (req_reminderMinutes req)); cbn [negb orb andb];
    (split; [intros; try reflexivity; discriminate|]); try discriminate.
  intros _ resp w'.
  assert (H1 : invalid_time <> missing_fields) by (vm_compute; discriminate).
  assert (H2 : set_failed <> missing_fields) by (vm_compute; discriminate).
  assert (H3 : forall f, set_ok f <> missing_fields) by (intros f; discriminate).
  destruct (parse _) as [[minutes|]|e]; try (intros [= <- _]; assumption).
  destruct (leb minutes (of_Z 0)); try (intros [= <- _]; assumption).
  cbv zeta. destruct (confirmation_html _ _ _ _); try (intros [= <- _]; assumption).
  destruct (mail_accepts _ _ _); try (intros [= <- _]; assumption).
  destruct (validate _ _ _); try (intros [= <- _]; assumption).
  destruct (insert_accepts _ _ _); intros [= <- _]; auto.
Qed.

(** X6: a text whose trimmed form begins with a minus sign is never
    scheduled: it parses to nothing or to a Number [<= 0], and the request
    is answered 400 Invalid reminder time. *)
Theorem negative_text_is_rejected (s r : jsstring) :
  trim s = 45%N :: r ->
  (parse (VString s) = Normal None
   \/ exists x, parse (VString s) = Normal (Some x) /\ leb x (of_Z 0) = true)
  /\ forall (req : SetReminderRequest) (w : World),
       req_reminderMinutes req = VString s ->
       ToBoolean (req_email req) = true -> ToBoolean (req_problemUrl req) = true ->
       intake req w = (Normal invalid_time, w).
Proof.
  intros Ht. pose proof (parse_text_minus s r Ht) as Hp.
  assert (Hcases : parse (VString s) = Normal None
     \/ exists x, parse (VString s) = Normal (Some x) /\ leb x (of_Z 0) = true).
  { cbn [parseReminderTime ToString cbind].
    destruct (parse_text s) as [x|]; [right|now left].
    exists x. split; [reflexivity|now apply leb_nonpositive]. }
  split; [exact Hcases|].
  intros req w Hm He Hu. rewrite set_reminder_run, He, Hu, Hm.
  assert (Hs : ToBoolean (VString s) = true).
  { destruct s; [discriminate Ht|reflexivity]. }
  rewrite Hs. cbn [negb orb].
  destruct Hcases as [->|(x & -> & ->)]; reflexivity.
Qed.

Lemma validate_fields (i : ReminderInput) (created : Z) (r : Reminder) :
  validate cast i created = Some r ->
  cast (in_email i) = Some (email r) /\ email r <> []
  /\ cast (in_problemUrl i) = Some (problemUrl r) /\ problemUrl r <> []
  /\ match in_problemTitle i with
     | VUndefined | VNull => problemTitle r = None
     | v => exists t, cast v = Some t /\ problemTitle r = Some t
     end
  /\ in_scheduledFor i = DateAt (scheduledFor r)
  /\ sent r = false /\ createdAt r = created.
Proof.
  unfold validate. intros H.
  apply bind_Some in H as (e & He & H).
  apply bind_Some in H as (u & Hu & H).
  apply bind_Some in H as (t & Htitle & H).
  destruct e as [|e0 e]; [discriminate|]. destruct u as [|u0 u]; [discriminate|].
  destruct (in_scheduledFor i) as [|sf]; [discriminate|]. injection H as <-.
  cbn [email problemUrl problemTitle scheduledFor sent createdAt].
  repeat split; try assumption; try discriminate.
  destruct (in_problemTitle i); try (now injection Htitle as <-);
    apply fmap_Some in Htitle as (t' & Hc & ->); now exists t'.
Qed.

(** The one way a run stores a record or answers 200. *)
Lemma intake_saved_inv (req : SetReminderRequest) (w : World)
      (resp : Response) (w' : World) :
  intake req w = (Normal resp, w') ->
  status resp = 200 \/ store w' <> store w ->
  exists minutes html r,
    let now := clock E (trace w) in
    let mail := confirmation_mail E req html in
    parse (req_reminderMinutes req) = Normal (Some minutes)
    /\ leb minutes (of_Z 0) = false
    /\ confirmation_html nts (req_problemTitle req) (req_problemUrl req)
         (tls (schedule now minutes)) = Normal html
    /\ mail_accepts E (trace w) mail = true
    /\ validate cast (reminder_input req (schedule now minutes))
         (clock E (trace w ++ [EvMail mail true])) = Some r
    /\ resp = set_ok (tls (schedule now minutes))
    /\ w' = {| store := store w ++ [r];
               trace := trace w ++ [EvMail mail true; EvInsert r true] |}.
Proof.
  rewrite set_reminder_run. intros Hrun Hcase.
  assert (Hsame : forall resp0 tr,
    status resp0 = 400 \/ status resp0 = 500 ->
    (Normal resp0, {| store := store w; trace := tr |}) = (Normal resp, w') -> False).
  { intros resp0 tr Hst [= <- <-]. cbn [store] in Hcase.
    destruct Hcase as [H|H]; [|congruence]. rewrite H in Hst.
    destruct Hst; discriminate. }
  assert (Hsame' : forall resp0, status resp0 = 400 \/ status resp0 = 500 ->
            (Normal resp0, w) = (Normal resp, w') -> False).
  { intros resp0 Hst H. destruct w. exact (Hsame _ _ Hst H). }
  destruct (negb _ || negb _ || negb _);
    [exfalso; eapply Hsame'; [|exact Hrun]; cbn; auto|].
  destruct (parse _) as [[minutes|]|e];
    [|exfalso; eapply Hsame'; [|exact Hrun]; cbn; auto
     |exfalso; eapply Hsame'; [|exact Hrun]; cbn; auto].
  destruct (leb minutes (of_Z 0)) eqn:El;
    [exfalso; eapply Hsame'; [|exact Hrun]; cbn; auto|].
  cbv zeta in Hrun.
  destruct (confirmation_html _ _ _ _) as [html|e] eqn:Eh;
    [|exfalso; eapply Hsame'; [|exact Hrun]; cbn; auto].
  destruct (mail_accepts _ _ _) eqn:Em;
    [|exfalso; eapply Hsame; [|exact Hrun]; cbn; auto].
  destruct (validate _ _ _) as [r|] eqn:Ev;
    [|exfalso; eapply Hsame; [|exact Hrun]; cbn; auto].
  destruct (insert_accepts _ _ _);
    [|exfalso; eapply Hsame; [|exact Hrun]; cbn; auto].
  injection Hrun as <- <-. exists minutes, html, r. cbv zeta. auto 10.
Qed.

(** X7: every run of the intake handler answers 200, 400 or 500.  A
    400 answer leaves the world untouched.  The answer is 200 exactly
    when one record was appended, and then the calls were one accepted
    confirmation mail followed by one accepted insert, the response's
    [scheduledFor] being the formatted text the mail shows.  The only
    calls the handler ever makes are confirmation mails for this request
    and inserts. *)
Theorem intake_answers (req : SetReminderRequest) (w : World)
        (resp : Response) (w' : World) :
  intake req w = (Normal resp, w') ->
  (status resp = 200 \/ status resp = 400 \/ status resp = 500)
  /\ (status resp = 400 -> w' = w)
  /\ (status resp = 200 <-> exists r, store w' = store w ++ [r])
  /\ (status resp = 200 ->
      exists html r,
        let formatted := tls (DateAt (scheduledFor r)) in
        confirmation_html nts (req_problemTitle req) (req_problemUrl req) formatted
          = Normal html
        /\ trace w' = trace w ++ [EvMail (confirmation_mail E req html) true;
                                  EvInsert r true]
        /\ store w' = store w ++ [r]
        /\ body resp = SetReminderBody (lit "Reminder set successfully") formatted)
  /\ exists evs,
       trace w' = trace w ++ evs
       /\ forall ev, ev ∈ evs ->
            match ev with
            | EvMail m _ => exists html, m = confirmation_mail E req html
            | EvInsert _ _ => True
            | EvFind _ _ | EvFindFailed _ | EvUpdate _ _ => False
            end.
Proof.
  rewrite set_reminder_run.
  assert (Hgrow : forall st : list Reminder, ~ (exists r', st = st ++ [r'])).
  { intros st [r' H]. apply (f_equal (@length _)) in H.
    rewrite length_app in H. cbn in H. lia. }
  assert (Hquiet : forall resp0 : Response,
    status resp0 = 400 \/ status resp0 = 500 ->
    (Normal resp0, w) = (Normal resp, w') ->
    (status resp = 200 \/ status resp = 400 \/ status resp = 500)
    /\ (status resp = 400 -> w' = w)
    /\ (status resp = 200 <-> exists r, store w' = store w ++ [r])
    /\ (status resp = 200 ->
        exists html r,
          let formatted := tls (DateAt (scheduledFor r)) in
          confirmation_html nts (req_problemTitle req) (req_problemUrl req) formatted
            = Normal html
          /\ trace w' = trace w ++ [EvMail (confirmation_mail E req html) true;
                                    EvInsert r true]
          /\ store w' = store w ++ [r]
          /\ body resp = SetReminderBody (lit "Reminder set successfully") formatted)
    /\ exists evs,
         trace w' = trace w ++ evs
         /\ forall ev, ev ∈ evs ->
              match ev with
              | EvMail m _ => exists html, m = confirmation_mail E req html
              | EvInsert _ _ => True
              | EvFind _ _ | EvFindFailed _ | EvUpdate _ _ => False
              end).
  { intros resp0 Hst [= <- <-].
    split; [tauto|]. split; [reflexivity|]. split.
    - split; [destruct Hst as [Hst|Hst]; rewrite Hst; discriminate|].
      intros H. now apply Hgrow in H.
    - split; [destruct Hst as [Hst|Hst]; rewrite Hst; discriminate|].
      exists []. split; [now rewrite app_nil_r|]. intros ev Hin. in_events Hin. }
  destruct (negb _ || negb _ || negb _); [apply Hquiet; now left|].
  destruct (parse _) as [[minutes|]|e];
    [|apply Hquiet; now left|apply Hquiet; now right].
  destruct (leb minutes (of_Z 0)); [apply Hquiet; now left|]. cbv zeta.
  destruct (confirmation_html _ _ _ _) as [html|e] eqn:Ehtml;
    [|apply Hquiet; now right].
  destruct (mail_accepts _ _ _).
  - destruct (validate _ _ _) as [r|] eqn:Ev.
    + apply validate_fields in Ev as (_ & _ & _ & _ & _ & Hs & _).
      cbn [reminder_input in_scheduledFor] in Hs.
      destruct (insert_accepts _ _ _); intros [= <- <-]; cbn [status store trace set_ok set_failed body].
      * split; [now left|]. split; [discriminate|]. split; [split; eauto|].
        split.
        -- intros _. exists html, r. cbv zeta. rewrite <- Hs. auto.
        -- eexists. split; [reflexivity|]. intros ev Hin. in_events Hin; eauto.
      * split; [auto|]. split; [discriminate|].
        split; [split; [discriminate|intros H; now apply Hgrow in H]|].
        split; [discriminate|].
        eexists. split; [reflexivity|]. intros ev Hin. in_events Hin; eauto.
    + intros [= <- <-]; cbn [status store trace set_failed].
      split; [auto|]. split; [discriminate|].
      split; [split; [discriminate|intros H; now apply Hgrow in H]|].
      split; [discriminate|].
      eexists. split; [reflexivity|]. intros ev Hin. in_events Hin; eauto.
  - intros [= <- <-]; cbn [status store trace set_failed].
    split; [auto|]. split; [discriminate|].
    split; [split; [discriminate|intros H; now apply Hgrow in H]|].
    split; [discriminate|].
    eexists. split; [reflexivity|]. intros ev Hin. in_events Hin; eauto.
Qed.

(** X8: the record a run stores has the request's email and URL as
    the schema casts them, both non-empty; its title is absent when the
    request's is undefined or null and the cast title otherwise; the
    confirmation mail went to the request's email, and the record's
    creation time is the clock read after that mail was accepted. *)
Theorem stored_record_fields (req : SetReminderRequest) (w : World)
        (resp : Response) (w' : World) (r : Reminder) :
  intake req w = (Normal resp, w') -> store w' = store w ++ [r] ->
  cast (req_email req) = Some (email r) /\ email r <> []
  /\ cast (req_problemUrl req) = Some (problemUrl r) /\ problemUrl r <> []
  /\ match req_problemTitle req with
     | VUndefined | VNull => problemTitle r = None
     | v => exists t, cast v = Some t /\ problemTitle r = Some t
     end
  /\ exists m, trace w' = trace w ++ [EvMail m true; EvInsert r true]
               /\ mail_to m = req_email req
               /\ createdAt r = clock E (trace w ++ [EvMail m true]).
Proof.
  intros Hrun Hst.
  destruct (intake_saved_inv req w resp w' Hrun) as (minutes & html & r0 & H).
  { right. rewrite Hst. intros H. apply (f_equal (@length _)) in H.
    rewrite length_app in H. cbn in H. lia. }
  cbv zeta in H. destruct H as (_ & _ & _ & _ & Ev & _ & ->).
  cbn [store trace] in *. apply app_inv_head in Hst. injection Hst as ->.
  apply validate_fields in Ev as (He & He' & Hu & Hu' & Ht & _ & _ & Hc).
  cbn [reminder_input in_email in_problemUrl in_problemTitle] in *.
  do 5 (split; [assumption|]).
  exists (confirmation_mail E req html). repeat split. exact Hc.
Qed.

Lemma schedule_infinity (now : Z) : schedule now Infinity = InvalidDate.
Proof.
  unfold schedule. assert (H : mul (mul Infinity (of_Z 60)) (of_Z 1000) = Infinity)
    by reflexivity.
  rewrite H. unfold add. cbn [getTime].
  destruct (of_Z now) as [?|[]| |? ? ?]; reflexivity.
Qed.

(** X9: a schedule that is no valid Date is found out only when the
    record is validated, at the end: the request is answered 500 and
    nothing is stored.  When the title and URL convert to text the
    confirmation mail is attempted first, so the request makes exactly
    that one mail call, accepted or not; when they do not, composing the
    mail throws and no call is made.  For a whole number [z] of minutes
    the schedule is invalid exactly when [now + z*60*1000] exceeds
    8.64e15 ms, and it is invalid for an infinite count. *)
Theorem unschedulable_is_mailed_first (req : SetReminderRequest) (w : World) :
  let now := clock E (trace w) in
  (forall minutes,
     ToBoolean (req_email req) = true -> ToBoolean (req_problemUrl req) = true ->
     ToBoolean (req_reminderMinutes req) = true ->
     parse (req_reminderMinutes req) = Normal (Some minutes) ->
     leb minutes (of_Z 0) = false ->
     schedule now minutes = InvalidDate ->
     match confirmation_html nts (req_problemTitle req) (req_problemUrl req)
             (tls InvalidDate) with
     | Normal html =>
         let mail := confirmation_mail E req html in
         intake req w
         = (Normal set_failed,
            {| store := store w;
               trace := trace w ++ [EvMail mail (mail_accepts E (trace w) mail)] |})
     | Throw _ => intake req w = (Normal set_failed, w)
     end)
  /\ (forall z, 0 <= now < 2 ^ 53 -> 0 <= z ->
        (schedule now (of_Z z) = InvalidDate
         <-> 8640000000000000 < now + z * 60 * 1000))
  /\ schedule now Infinity = InvalidDate.
Proof.
  intros now. split; [|split].
  - intros minutes He Hu Hm Hp Hleb Hs.
    rewrite set_reminder_run, He, Hu, Hm, Hp, Hleb. cbn [negb orb]. cbv zeta.
    fold now. rewrite Hs.
    destruct (confirmation_html nts _ _ _) as [html|e]; [|reflexivity].
    cbv zeta.
    destruct (mail_accepts E (trace w) (confirmation_mail E req html)); [|reflexivity].
    unfold validate. cbn [reminder_input in_scheduledFor in_email in_problemUrl in_problemTitle].
    destruct (cast (req_email req)) as [e|]; [|reflexivity]. cbn.
    destruct (cast (req_problemUrl req)) as [u|]; [|reflexivity]. cbn.
    destruct (match req_problemTitle req with
              | VUndefined | VNull => Some None
              | _ => Some <$> cast (req_problemTitle req)
              end) as [t|] eqn:Et.
    + destruct (req_problemTitle req); rewrite Et; cbn; destruct e, u; reflexivity.
    + destruct (req_problemTitle req); rewrite Et; reflexivity.
  - intros z Hnow Hz. rewrite schedule_integer by assumption.
    destruct (Z.leb_spec (now + z * 60 * 1000) 8640000000000000); split;
      try discriminate; try lia; reflexivity.
  - apply schedule_infinity.
Qed.

End IntakeMore.

Section IntakeStore.
Context (nts : Number -> jsstring) (tls : Date -> jsstring)
        (E : Environment) (cast : value -> option jsstring).

Local Abbreviation intake := (set_reminder nts tls E cast).

(** X10: the handler never consults the stored records: with the same calls
    made so far, two stores get the same answer, the same calls and the
    same record appended, so nothing is deduplicated or limited. *)
Theorem intake_ignores_store (req : SetReminderRequest)
        (st1 st2 : list Reminder) (tr : list Event) :
  exists resp evs added,
    intake req {| store := st1; trace := tr |}
    = (Normal resp, {| store := st1 ++ added; trace := tr ++ evs |})
    /\ intake req {| store := st2; trace := tr |}
       = (Normal resp, {| store := st2 ++ added; trace := tr ++ evs |}).
Proof.
  rewrite !set_reminder_run. cbn [store trace].
  assert (Hquiet : forall resp : Response, exists resp0 evs added,
    (Normal resp, {| store := st1; trace := tr |})
    = (Normal resp0, {| store := st1 ++ added; trace := tr ++ evs |})
    /\ (Normal resp, {| store := st2; trace := tr |})
       = (Normal resp0, {| store := st2 ++ added; trace := tr ++ evs |})).
  { intros resp. exists resp, [], []. now rewrite !app_nil_r. }
  destruct (negb _ || negb _ || negb _); [apply Hquiet|].
  destruct (parseReminderTime nts _) as [[minutes|]|e]; try apply Hquiet.
  destruct (leb minutes (of_Z 0)); [apply Hquiet|]. cbv zeta.
  destruct (confirmation_html _ _ _ _) as [html|e]; [|apply Hquiet].
  destruct (mail_accepts _ _ _).
  - destruct (validate _ _ _) as [r|].
    + destruct (insert_accepts _ _ _).
      * eexists _, _, [r]. split; reflexivity.
      * eexists _, _, []. rewrite (app_nil_r st1), (app_nil_r st2). split; reflexivity.
    + eexists _, _, []. rewrite (app_nil_r st1), (app_nil_r st2). split; reflexivity.
  - eexists _, _, []. rewrite (app_nil_r st1), (app_nil_r st2). split; reflexivity.
Qed.

End IntakeStore.

(** * Further properties of the sweep handler *)

Section SweepMore.
Context (E : Environment).

(** Every way an authorised sweep can go. *)
Lemma sweep_run (w : World) (resp : Response) (w' : World) :
  check_reminders E (Some (lit "Sanjeev")) w = (Normal resp, w') ->
  let now := clock E (trace w) in
  let due := due_reminders now (store w) in
  (resp = sweep_failed /\ store w' = store w
   /\ trace w' = trace w ++ [EvFindFailed now])
  \/ exists done rest,
    due = done ++ rest
    /\ store w' = mark_all done.*1 (store w)
    /\ ((rest = [] /\ resp = ok_body due
         /\ trace w' = trace w ++ EvFind now due.*1 :: sweep_events E due)
        \/ exists p rest',
             rest = p :: rest' /\ resp = sweep_failed
             /\ (trace w' = trace w ++ EvFind now due.*1 :: sweep_events E done
                            ++ [EvMail (reminder_mail E p.2) false]
                 \/ trace w' = trace w ++ EvFind now due.*1 :: sweep_events E done
                               ++ [EvMail (reminder_mail E p.2) true;
                                   EvUpdate p.1 false])).
Proof.
  intros Hrun now due.
  pose proof (check_reminders_authorized E w) as Hrun'. cbv zeta in Hrun'.
  fold now in Hrun'. fold due in Hrun'. rewrite Hrun in Hrun'.
  destruct (find_accepts E (trace w) now);
    [right|left; injection Hrun' as -> ->; auto].
  pose proof (for_of_outcome E due
    {| store := store w; trace := trace w ++ [EvFind now due.*1] |}) as Hloop.
  cbv zeta in Hloop. destruct Hloop as (done & rest & Hsplit & Hst & Hres).
  exists done, rest. split; [exact Hsplit|].
  destruct (for_of due (process_reminder E) _) as [[[]|e] w''];
    cbn [fst snd store trace] in *; injection Hrun' as -> ->;
    (split; [exact Hst|]).
  - left. destruct Hres as [-> Htr]. rewrite app_nil_r in Hsplit. subst done.
    split; [reflexivity|]. split; [reflexivity|].
    rewrite Htr, <- app_assoc. reflexivity.
  - right. destruct Hres as (p & rest' & -> & Hp). exists p, rest'.
    split; [reflexivity|]. split; [reflexivity|]. cbv zeta in Hp.
    destruct Hp as [[_ Hp]|[_ [_ Hp]]]; rewrite Hp, <- !app_assoc; auto.
Qed.

Lemma sweep_ok (secret : option jsstring) (w : World) (resp : Response) (w' : World) :
  check_reminders E secret w = (Normal resp, w') -> status resp = 200 ->
  let now := clock E (trace w) in
  let due := due_reminders now (store w) in
  store w' = mark_all due.*1 (store w)
  /\ trace w' = trace w ++ EvFind now due.*1 :: sweep_events E due.
Proof.
  intros Hrun Hst now due.
  destruct (decide (secret = Some (lit "Sanjeev"))) as [->|Hne].
  - apply sweep_run in Hrun. cbv zeta in Hrun. fold now in Hrun. fold due in Hrun.
    destruct Hrun as [(-> & _)|(done & rest & Hsplit & Hstore & [(-> & _ & Htr)|Hfail])].
    + discriminate.
    + rewrite app_nil_r in Hsplit. subst done. auto.
    + destruct Hfail as (p & rest' & _ & -> & _). discriminate.
  - unfold check_reminders in Hrun.
    rewrite bool_decide_eq_false_2 in Hrun by assumption.
    injection Hrun as <- _. discriminate.
Qed.

Lemma due_ids (now : Z) (st : list Reminder) (i : nat) :
  i ∈ (due_reminders now st).*1
  <-> exists r, st !! i = Some r /\ scheduledFor r <= now /\ sent r = false.
Proof.
  rewrite list_elem_of_fmap. split.
  - intros ([j r] & -> & Hin). exists r. now apply due_reminders_spec.
  - intros (r & H). exists (i, r). split; [reflexivity|]. now apply due_reminders_spec.
Qed.

Lemma sweep_events_mail (l : list (nat * Reminder)) (i : nat) (r : Reminder) :
  (i, r) ∈ l -> EvMail (reminder_mail E r) true ∈ sweep_events E l.
Proof.
  intros Hin. unfold sweep_events. apply list_elem_of_bind.
  exists (i, r). split; [left|exact Hin].
Qed.

Lemma sweep_events_update (l : list (nat * Reminder)) (i : nat) (ok : bool) :
  EvUpdate i ok ∈ sweep_events E l -> i ∈ l.*1.
Proof.
  unfold sweep_events. rewrite list_elem_of_bind.
  intros (p & Hev & Hp). rewrite !elem_of_cons, elem_of_nil in Hev.
  destruct Hev as [|[[= -> _]|[]]]; [discriminate|].
  apply list_elem_of_fmap. now exists p.
Qed.

(** The updates a sweep attempts are on fetched documents only. *)
Lemma sweep_updates_due (w : World) (resp : Response) (w' : World)
      (evs : list Event) (i : nat) (ok : bool) :
  check_reminders E (Some (lit "Sanjeev")) w = (Normal resp, w') ->
  trace w' = trace w ++ evs -> EvUpdate i ok ∈ evs ->
  i ∈ (due_reminders (clock E (trace w)) (store w)).*1.
Proof.
  intros Hrun Htr Hin. apply sweep_run in Hrun. cbv zeta in Hrun.
  destruct Hrun as [(_ & _ & Htr')|(done & rest & Hsplit & _ & Hcase)].
  { rewrite Htr in Htr'. apply app_inv_head in Htr'. subst evs. in_events Hin. }
  rewrite Hsplit, fmap_app, elem_of_app.
  destruct Hcase as [(-> & _ & Htr')|(p & rest' & -> & _ & Htr')].
  - rewrite Htr in Htr'. apply app_inv_head in Htr'. subst evs.
    apply elem_of_cons in Hin as [|Hin]; [discriminate|].
    apply sweep_events_update in Hin. rewrite Hsplit, fmap_app, elem_of_app in Hin.
    exact Hin.
  - assert (Hin' : EvUpdate i ok ∈ sweep_events E done \/ i = p.1).
    { destruct Htr' as [Htr'|Htr']; rewrite Htr in Htr'; apply app_inv_head in Htr';
        subst evs; apply elem_of_cons in Hin as [|Hin]; try discriminate;
        apply elem_of_app in Hin as [Hin|Hin]; auto; in_events Hin; auto. }
    destruct Hin' as [Hin'| ->].
    + left. now apply sweep_events_update in Hin'.
    + right. cbn [fmap list_fmap]. left.
Qed.

(** X11: after a sweep answered 200 no fetched record is due again: what is
    due afterwards, at any later clock reading, is what was unsent and
    scheduled after the sweep's own reading.  A second sweep at the same
    reading finds nothing. *)
Theorem swept_records_are_not_due_again (secret : option jsstring) (w : World)
        (resp : Response) (w' : World) :
  check_reminders E secret w = (Normal resp, w') -> status resp = 200 ->
  let now := clock E (trace w) in
  (forall now' i r,
     (i, r) ∈ due_reminders now' (store w')
     <-> store w !! i = Some r /\ sent r = false
         /\ now < scheduledFor r <= now')
  /\ (forall now', now' <= now -> due_reminders now' (store w') = []).
Proof.
  intros Hrun Hst now. destruct (sweep_ok secret w resp w' Hrun Hst) as [Hstore _].
  fold now in Hstore.
  assert (Hspec : forall now' i r,
     (i, r) ∈ due_reminders now' (store w')
     <-> store w !! i = Some r /\ sent r = false /\ now < scheduledFor r <= now').
  { intros now' i r. rewrite due_reminders_spec, Hstore, mark_all_lookup. split.
    - intros (Hi & Hle & Hs).
      destruct (store w !! i) as [r0|] eqn:Hi0; [|discriminate]. cbn in Hi.
      destruct (decide (i ∈ (due_reminders now (store w)).*1)) as [Hin|Hnin].
      + rewrite bool_decide_eq_true_2 in Hi by assumption.
        injection Hi as <-. discriminate.
      + rewrite bool_decide_eq_false_2 in Hi by assumption. injection Hi as <-.
        repeat split; try assumption.
        destruct (Z.lt_ge_cases now (scheduledFor r0)) as [|Hge]; [assumption|].
        exfalso. apply Hnin, due_ids. exists r0. auto with zarith.
    - intros (Hi & Hs & Hlt & Hle). rewrite Hi. cbn.
      rewrite bool_decide_eq_false_2; [auto|].
      intros (r0 & Hi0 & Hle0 & _)%due_ids.
      assert (r0 = r) by congruence. subst r0. lia. }
  split; [exact Hspec|].
  intros now' Hle. destruct (due_reminders now' (store w')) as [|[i r] l] eqn:Ed;
    [reflexivity|].
  assert (Hin : (i, r) ∈ due_reminders now' (store w')) by (rewrite Ed; left).
  apply Hspec in Hin. lia.
Qed.

End SweepMore.

(** X12: when the store rejects the update after the transport accepted
    the mail, the record stays unsent (it is still in the store, as it
    was, with [sent = false]), and the next sweep that answers 200 at or
    after the record's time mails it again (a second accepted mail to the
    same stored address, with the same subject and text) and this time
    marks it sent: its [sent] flag becomes true and nothing else of it
    changes. *)
Theorem redelivery_after_failed_update (E1 E2 : Environment) (w : World)
        (resp1 : Response) (w1 : World) (evs1 : list Event) (i : nat) :
  check_reminders E1 (Some (lit "Sanjeev")) w = (Normal resp1, w1) ->
  trace w1 = trace w ++ evs1 ->
  EvUpdate i false ∈ evs1 ->
  exists r,
    store w !! i = Some r /\ store w1 !! i = Some r /\ sent r = false
    /\ EvMail (reminder_mail E1 r) true ∈ evs1
    /\ mail_to (reminder_mail E1 r) = VString (email r)
    /\ mail_subject (reminder_mail E1 r) = lit "Time to Review Your LeetCode Problem!"
    /\ forall resp2 w2 evs2,
         check_reminders E2 (Some (lit "Sanjeev")) w1 = (Normal resp2, w2) ->
         trace w2 = trace w1 ++ evs2 ->
         status resp2 = 200 ->
         scheduledFor r <= clock E2 (trace w1) ->
         EvMail (reminder_mail E2 r) true ∈ evs2
         /\ mail_to (reminder_mail E2 r) = VString (email r)
         /\ mail_subject (reminder_mail E2 r) = mail_subject (reminder_mail E1 r)
         /\ mail_html (reminder_mail E2 r) = mail_html (reminder_mail E1 r)
         /\ store w2 !! i = Some (mark_sent r)
         /\ exists r', store w2 !! i = Some r' /\ sent r' = true
                       /\ email r' = email r /\ problemUrl r' = problemUrl r
                       /\ problemTitle r' = problemTitle r
                       /\ scheduledFor r' = scheduledFor r
                       /\ createdAt r' = createdAt r.
Proof.
  intros Hrun Htr Hupd. apply sweep_run in Hrun. cbv zeta in Hrun.
  destruct Hrun as [(_ & _ & Htr')|(done & rest & Hsplit & Hstore & Hcase)].
  { rewrite Htr in Htr'. apply app_inv_head in Htr'. subst evs1. in_events Hupd. }
  destruct Hcase as [(-> & _ & Htr')|(p & rest' & -> & _ & Htr')].
  { rewrite Htr in Htr'. apply app_inv_head in Htr'. subst evs1.
    apply elem_of_cons in Hupd as [|Hupd]; [discriminate|].
    apply sweep_events_ok in Hupd. discriminate. }
  assert (Hevs : evs1 = EvFind (clock E1 (trace w))
                          (due_reminders (clock E1 (trace w)) (store w)).*1
                        :: sweep_events E1 done
                        ++ [EvMail (reminder_mail E1 p.2) true; EvUpdate p.1 false]
                 /\ i = p.1).
  { destruct Htr' as [Htr'|Htr']; rewrite Htr in Htr'; apply app_inv_head in Htr';
      subst evs1; apply elem_of_cons in Hupd as [|Hupd]; try discriminate;
      apply elem_of_app in Hupd as [Hupd|Hupd];
      try (apply sweep_events_ok in Hupd; discriminate);
      in_events Hupd. auto. }
  destruct Hevs as [-> ->]. destruct p as [i r]. cbn [fst snd] in *.
  assert (Hin : (i, r) ∈ due_reminders (clock E1 (trace w)) (store w))
    by (rewrite Hsplit, elem_of_app; right; left).
  apply due_reminders_spec in Hin as (Hi & _ & Hsent).
  assert (Hi1 : store w1 !! i = Some r).
  { rewrite Hstore, mark_all_lookup, Hi. cbn.
    rewrite bool_decide_eq_false_2; [reflexivity|].
    intros Hdone. pose proof (due_reminders_NoDup (clock E1 (trace w)) (store w)) as Hnd.
    rewrite Hsplit, fmap_app in Hnd. apply NoDup_app in Hnd as (_ & Hdisj & _).
    apply (Hdisj i Hdone). cbn [fmap list_fmap]. left. }
  exists r. split; [exact Hi|]. split; [exact Hi1|]. split; [exact Hsent|].
  split; [rewrite elem_of_cons, elem_of_app, !elem_of_cons; auto|].
  split; [reflexivity|]. split; [reflexivity|].
  intros resp2 w2 evs2 Hrun2 Htr2 Hst2 Hdue.
  destruct (sweep_ok E2 _ w1 resp2 w2 Hrun2 Hst2) as [Hstore2 Htr2'].
  assert (Hin2 : (i, r) ∈ due_reminders (clock E2 (trace w1)) (store w1))
    by (apply due_reminders_spec; auto).
  rewrite Htr2 in Htr2'. apply app_inv_head in Htr2'. subst evs2.
  assert (Hi2 : store w2 !! i = Some (mark_sent r)).
  { rewrite Hstore2, mark_all_lookup, Hi1. cbn.
    rewrite bool_decide_eq_true_2; [reflexivity|].
    apply list_elem_of_fmap. now exists (i, r). }
  split; [right; now apply sweep_events_mail with i|].
  split; [reflexivity|]. split; [reflexivity|]. split; [reflexivity|].
  split; [exact Hi2|]. exists (mark_sent r). split; [exact Hi2|]. repeat split.
Qed.

Lemma well_formed_mark_sent (r : Reminder) : well_formed r -> well_formed (mark_sent r).
Proof. now intros (? & ? & ?). Qed.

Lemma mark_all_well_formed (ids : list nat) (st : list Reminder) :
  Forall well_formed st -> Forall well_formed (mark_all ids st).
Proof.
  rewrite !Forall_lookup. intros H i r. rewrite mark_all_lookup.
  destruct (st !! i) as [r0|] eqn:Hi; [|discriminate]. cbn. intros [= <-].
  specialize (H i r0 Hi). destruct (bool_decide _); [now apply well_formed_mark_sent|exact H].
Qed.

Section SystemMore.
Context (nts : Number -> jsstring) (tls : Date -> jsstring)
        (cast : value -> option jsstring).

Lemma step_well_formed (E : Environment) (w w' : World) :
  step nts tls E cast w w' ->
  Forall well_formed (store w) -> Forall well_formed (store w').
Proof.
  intros [req resp Hrun|secret resp Hrun] Hwf.
  - pose proof (intake_outcome_of_run nts tls E cast req w resp w' Hrun) as Hout.
    destruct Hout as [resp Hst|m Hm|m|m r0|m r0 minutes0 _ _ _ _]; try exact Hwf.
    destruct (intake_saved_inv nts tls E cast req w _ _ Hrun (or_introl eq_refl))
      as (minutes & html & r & H).
    cbv zeta in H. destruct H as (_ & _ & _ & _ & Ev & _ & Hw). rewrite Hw. cbn [store].
    apply Forall_app. split; [exact Hwf|]. constructor; [|constructor].
    apply validate_fields in Ev as (_ & He & _ & Hu & _ & Hs & _).
    cbn [reminder_input in_scheduledFor] in Hs.
    apply new_Date_range in Hs. now split; [|split].
  - apply sweep_step in Hrun as [->|(done & rest & tail & _ & -> & _)]; [exact Hwf|].
    now apply mark_all_well_formed.
Qed.

(** X13: every record the service stores has a non-empty address and URL and
    a valid time value as its schedule, and keeps them: the property
    survives every request. *)
Theorem stored_records_are_well_formed :
  (forall E w w', step nts tls E cast w w' ->
     Forall well_formed (store w) -> Forall well_formed (store w'))
  /\ (forall w w', rtc (any_step nts tls cast) w w' ->
        Forall well_formed (store w) -> Forall well_formed (store w'))
  /\ (forall w', rtc (any_step nts tls cast) empty_world w' ->
        forall i r, store w' !! i = Some r ->
          email r <> [] /\ problemUrl r <> []
          /\ -8640000000000000 <= scheduledFor r <= 8640000000000000).
Proof.
  assert (Hrtc : forall w w', rtc (any_step nts tls cast) w w' ->
            Forall well_formed (store w) -> Forall well_formed (store w')).
  { intros w w' H. induction H as [w|w1 w2 w3 [E H12] _ IH]; [auto|].
    intros Hwf. apply IH. now apply step_well_formed with E w1. }
  split; [exact step_well_formed|]. split; [exact Hrtc|].
  intros w' H i r Hi. apply Hrtc in H; [|constructor].
  rewrite Forall_lookup in H. exact (H i r Hi).
Qed.

End SystemMore.

Section Together.
Context (nts : Number -> jsstring) (tls : Date -> jsstring)
        (cast : value -> option jsstring).

(** X14: a stored record's schedule is never before the clock reading of the
    request that stored it, whatever positive Number of minutes was
    asked, fractions included. *)
Theorem schedule_never_in_the_past :
  (forall now minutes t,
     0 <= now < 2 ^ 53 -> leb minutes (of_Z 0) = false ->
     schedule now minutes = DateAt t -> now <= t)
  /\ (forall E req w resp w' r,
        set_reminder nts tls E cast req w = (Normal resp, w') ->
        store w' = store w ++ [r] ->
        0 <= clock E (trace w) < 2 ^ 53 ->
        clock E (trace w) <= scheduledFor r).
Proof.
  split; [exact schedule_at_least|].
  intros E req w resp w' r Hrun Hst Hnow.
  destruct (intake_saved_inv nts tls E cast req w resp w' Hrun) as (minutes & html & r0 & H).
  { right. rewrite Hst. intros H. apply (f_equal (@length _)) in H.
    rewrite length_app in H. cbn in H. lia. }
  cbv zeta in H. destruct H as (_ & Hleb & _ & _ & Ev & _ & ->).
  cbn [store] in Hst. apply app_inv_head in Hst. injection Hst as ->.
  apply validate_fields in Ev as (_ & _ & _ & _ & _ & Hs & _).
  cbn [reminder_input in_scheduledFor] in Hs.
  now apply schedule_at_least with minutes.
Qed.

(** X15: from intake to delivery: a reminder set for a whole number [z]
    of minutes is stored unsent; every sweep whose clock reads less than
    the request's reading plus [z] minutes leaves it as it is and attempts
    no update of it; a sweep that answers 200 at or after that reading
    sends one accepted mail to the stored address (the request's email as
    the schema cast it), with the reminder subject, and marks the record
    sent: its [sent] flag becomes true and nothing else of it changes. *)
Theorem reminder_is_sent_when_due (E1 E2 : Environment) (req : SetReminderRequest)
        (w : World) (resp1 : Response) (w1 : World) (z : Z) :
  set_reminder nts tls E1 cast req w = (Normal resp1, w1) ->
  status resp1 = 200 ->
  parseReminderTime nts (req_reminderMinutes req) = Normal (Some (of_Z z)) ->
  0 <= clock E1 (trace w) <= 8640000000000000 ->
  let due_at := clock E1 (trace w) + z * 60 * 1000 in
  let i := length (store w) in
  exists r,
    store w1 = store w ++ [r] /\ store w1 !! i = Some r
    /\ scheduledFor r = due_at /\ sent r = false
    /\ cast (req_email req) = Some (email r)
    /\ forall resp2 w2 evs2,
         check_reminders E2 (Some (lit "Sanjeev")) w1 = (Normal resp2, w2) ->
         trace w2 = trace w1 ++ evs2 ->
         let now := clock E2 (trace w1) in
         (now < due_at ->
          store w2 !! i = Some r /\ forall ok, EvUpdate i ok ∉ evs2)
         /\ (due_at <= now -> status resp2 = 200 ->
             store w2 !! i = Some (mark_sent r)
             /\ EvMail (reminder_mail E2 r) true ∈ evs2
             /\ mail_to (reminder_mail E2 r) = VString (email r)
             /\ mail_subject (reminder_mail E2 r)
                = lit "Time to Review Your LeetCode Problem!"
             /\ exists r', store w2 !! i = Some r' /\ sent r' = true
                           /\ email r' = email r /\ problemUrl r' = problemUrl r
                           /\ problemTitle r' = problemTitle r
                           /\ scheduledFor r' = due_at
                           /\ createdAt r' = createdAt r).
Proof.
  intros Hrun Hst Hp Hnow due_at i.
  destruct (intake_saved_inv nts tls E1 cast req w resp1 w1 Hrun (or_introl Hst))
    as (minutes & html & r & H).
  cbv zeta in H. destruct H as (Hp' & Hleb & _ & _ & Ev & _ & ->).
  rewrite Hp in Hp'. injection Hp' as <-.
  apply validate_fields in Ev as (He & _ & _ & _ & _ & Hs & Hsent & _).
  cbn [reminder_input in_scheduledFor in_email] in *.
  assert (Hz : 0 < z).
  { destruct (Z.lt_ge_cases 0 z) as [|Hz]; [assumption|].
    rewrite of_Z_nonpos_leb in Hleb by lia. discriminate. }
  rewrite schedule_integer in Hs by lia. fold due_at in Hs.
  destruct (due_at <=? 8640000000000000); [|discriminate]. injection Hs as Hs.
  assert (Hi : (store w ++ [r]) !! i = Some r) by apply list_lookup_middle, eq_refl.
  exists r.
  split; [reflexivity|]. split; [exact Hi|]. split; [now symmetry|].
  split; [exact Hsent|]. split; [exact He|].
  intros resp2 w2 evs2 Hrun2 Htr2. cbn [store trace] in Htr2 |- *.
  set (now := clock E2 _). split.
  - intros Hearly.
    assert (Hnot : i ∉ (due_reminders now (store w ++ [r])).*1).
    { intros (r0 & Hi0 & Hle & _)%due_ids.
      assert (r0 = r) by congruence. subst r0. lia. }
    split.
    + pose proof (sweep_run E2 _ _ _ Hrun2) as Hsw. cbv zeta in Hsw.
      cbn [store trace] in Hsw. fold now in Hsw.
      destruct Hsw as [(_ & -> & _)|(done & rest & Hsplit & -> & _)]; [exact Hi|].
      rewrite mark_all_lookup, Hi. cbn.
      rewrite bool_decide_eq_false_2; [reflexivity|].
      intros Hin. apply Hnot. rewrite Hsplit, fmap_app, elem_of_app. now left.
    + intros ok Hin. apply Hnot.
      exact (sweep_updates_due E2 _ _ _ _ _ _ Hrun2 Htr2 Hin).
  - intros Hlate Hst2.
    destruct (sweep_ok E2 _ _ _ _ Hrun2 Hst2) as [Hstore2 Htr2'].
    cbn [store trace] in *. fold now in Hstore2, Htr2'.
    assert (Hin : (i, r) ∈ due_reminders now (store w ++ [r])).
    { apply due_reminders_spec. split; [exact Hi|]. split; [lia|exact Hsent]. }
    rewrite Htr2 in Htr2'. apply app_inv_head in Htr2'. subst evs2.
    assert (Hi2 : store w2 !! i = Some (mark_sent r)).
    { rewrite Hstore2, mark_all_lookup, Hi. cbn.
      rewrite bool_decide_eq_true_2; [reflexivity|].
      apply list_elem_of_fmap. now exists (i, r). }
    split; [exact Hi2|]. split; [right; now apply sweep_events_mail with i|].
    split; [reflexivity|]. split; [reflexivity|].
    exists (mark_sent r). split; [exact Hi2|]. repeat split. now symmetry.
Qed.

Lemma rtc_records (w w' : World) :
  rtc (any_step nts tls cast) w w' ->
  forall i r, store w !! i = Some r ->
    exists r', store w' !! i = Some r' /\ evolves r r'.
Proof.
  intros Hrtc. induction Hrtc as [w|w1 w2 w3 [E H12] _ IH]; intros i r Hi.
  - exists r. split; [exact Hi|apply evolves_refl].
  - destruct (step_records nts tls cast E _ _ H12) as (H1 & _ & _).
    destruct (H1 i r Hi) as (r2 & Hi2 & He2).
    destruct (IH i r2 Hi2) as (r3 & Hi3 & He3).
    exists r3. split; [exact Hi3|]. now apply evolves_trans with r2.
Qed.

(** X16: a record that has come due stays due, whatever requests are handled
    in between, until a sweep marks it sent: no request postpones, alters
    or removes it. *)
Theorem due_until_sent (w w' : World) (i : nat) (r : Reminder) (now now' : Z) :
  rtc (any_step nts tls cast) w w' ->
  (i, r) ∈ due_reminders now (store w) -> now <= now' ->
  store w' !! i = Some (mark_sent r)
  \/ (i, r) ∈ due_reminders now' (store w').
Proof.
  intros Hrtc Hdue Hle. apply due_reminders_spec in Hdue as (Hi & Hs & Hsent).
  destruct (rtc_records w w' Hrtc i r Hi) as (r' & Hi' & [->|[_ ->]]).
  - right. apply due_reminders_spec. split; [exact Hi'|]. split; [lia|exact Hsent].
  - now left.
Qed.

End Together.

Section IntakeErrors.
Context (nts : Number -> jsstring) (tls : Date -> jsstring)
        (E : Environment) (cast : value -> option jsstring).

Local Abbreviation intake := (set_reminder nts tls E cast).
Local Abbreviation parse := (parseReminderTime nts).

(** X17: a field that cannot be converted to text (an object with an own
    entry named toString) is truthy, so it passes the presence check; the
    conversion then throws inside the handler, which answers 500 without
    having made any call: as the minute count when it is parsed, as the
    URL or the title when the confirmation mail is composed. *)
Theorem unconvertible_field_fails_quietly (req : SetReminderRequest) (w : World)
        (props : list (jsstring * value)) :
  has_own_property props (lit "toString") = true ->
  ToBoolean (req_email req) = true -> ToBoolean (req_problemUrl req) = true ->
  (req_reminderMinutes req = VObject props ->
   intake req w = (Normal set_failed, w))
  /\ (forall minutes,
        ToBoolean (req_reminderMinutes req) = true ->
        parse (req_reminderMinutes req) = Normal (Some minutes) ->
        leb minutes (of_Z 0) = false ->
        req_problemUrl req = VObject props \/ req_problemTitle req = VObject props ->
        intake req w = (Normal set_failed, w)).
Proof.
  intros Hown He Hu. rewrite set_reminder_run, He, Hu. cbn [negb orb]. split.
  - intros ->. cbn [ToBoolean negb parseReminderTime ToString cbind].
    now rewrite Hown.
  - intros minutes Hm Hp Hleb Hobj.
    rewrite Hm, Hp, Hleb. cbn [negb]. cbv zeta.
    assert (Hhtml : forall f, exists e,
      confirmation_html nts (req_problemTitle req) (req_problemUrl req) f = Throw e).
    { intros f. unfold confirmation_html. destruct Hobj as [->| ->].
      - destruct (ToString nts (or_else _ _)); cbn [cbind ToString]; rewrite ?Hown;
          eexists; reflexivity.
      - unfold or_else. cbn [ToBoolean ToString]. rewrite Hown. eexists. reflexivity. }
    destruct (Hhtml (tls (schedule (clock E (trace w)) minutes))) as [e ->].
    reflexivity.
Qed.

End IntakeErrors.

(** X18: two sweeps that both answer 200, the second no earlier by the clock
    than the first, leave the store as one sweep at the second reading
    would. *)
Theorem sweeps_compose (E1 E2 : Environment) (s1 s2 : option jsstring)
        (w : World) (resp1 : Response) (w1 : World) (resp2 : Response) (w2 : World) :
  check_reminders E1 s1 w = (Normal resp1, w1) -> status resp1 = 200 ->
  check_reminders E2 s2 w1 = (Normal resp2, w2) -> status resp2 = 200 ->
  clock E1 (trace w) <= clock E2 (trace w1) ->
  store w2 = mark_all (due_reminders (clock E2 (trace w1)) (store w)).*1 (store w).
Proof.
  intros H1 Hs1 H2 Hs2 Hle.
  destruct (sweep_ok E1 s1 w resp1 w1 H1 Hs1) as [Hst1 _].
  destruct (sweep_ok E2 s2 w1 resp2 w2 H2 Hs2) as [Hst2 _].
  set (t1 := clock E1 (trace w)) in *. set (t2 := clock E2 (trace w1)) in *.
  apply list_eq. intros i. rewrite Hst2, !mark_all_lookup.
  destruct (store w !! i) as [r|] eqn:Hi.
  2: { assert (Hn : store w1 !! i = None)
         by (rewrite Hst1, mark_all_lookup, Hi; reflexivity).
       now rewrite Hn. }
  destruct (decide (i ∈ (due_reminders t1 (store w)).*1)) as [Hin1|Hnin1].
  - assert (Hi1 : store w1 !! i = Some (mark_sent r)).
    { rewrite Hst1, mark_all_lookup, Hi. cbn. now rewrite bool_decide_eq_true_2. }
    rewrite Hi1. cbn. f_equal.
    apply due_ids in Hin1 as (r0 & Hi0 & Hle0 & Hsent0).
    assert (r0 = r) by congruence. subst r0.
    rewrite (bool_decide_eq_true_2 (i ∈ (due_reminders t2 (store w)).*1)).
    + rewrite bool_decide_eq_false_2; [reflexivity|].
      intros (r1 & Hi1' & _ & Hsent1)%due_ids.
      rewrite Hi1 in Hi1'. injection Hi1' as <-. discriminate.
    + apply due_ids. exists r. split; [exact Hi|]. split; [lia|exact Hsent0].
  - assert (Hi1 : store w1 !! i = Some r).
    { rewrite Hst1, mark_all_lookup, Hi. cbn. now rewrite bool_decide_eq_false_2. }
    rewrite Hi1. cbn. f_equal.
    destruct (decide (i ∈ (due_reminders t2 (store w)).*1)) as [Hin|Hnin].
    + rewrite (bool_decide_eq_true_2 _ Hin).
      rewrite bool_decide_eq_true_2; [reflexivity|].
      apply due_ids in Hin as (r0 & Hi0 & Hd). assert (r0 = r) by congruence.
      subst r0. apply due_ids. now exists r.
    + rewrite (bool_decide_eq_false_2 _ Hnin).
      rewrite bool_decide_eq_false_2; [reflexivity|].
      intros (r0 & Hi0 & Hd)%due_ids.
      assert (r0 = r) by congruence. subst r0. apply Hnin, due_ids. now exists r.
Qed.

(** * Examples: the theorems at concrete inputs *)

(** ** The parser *)

Lemma parse_vectors_and_units_witness :
  let parse := parseReminderTime no_text in
  parse (VString (lit "7m")) = Normal (Some (of_Z 7))
  /\ parse (VString (lit "7h")) = Normal (Some (of_Z 420))
  /\ parse (VString (lit "7d")) = Normal (Some (of_Z 10080)).
Proof.
  intros parse. subst parse.
  destruct (parse_vectors_and_units no_text) as [_ H].
  specialize (H (lit "7") ltac:(discriminate) eq_refl). cbv zeta in H.
  destruct H as (Hm & Hh & Hd).
  split; [apply Hm; reflexivity|].
  split; [apply Hh; reflexivity|apply Hd; reflexivity].
Defined.

(** Against C1 as stated: the sixteen digits of 2^53 + 1 followed by [m]
    parse to 2^53. *)
Lemma large_digit_string_is_rounded :
  let s := lit "9007199254740993" in
  s <> [] /\ forallb is_decimal_digit s = true
  /\ decimal_string_value s = 9007199254740993
  /\ decimal_string_value s < 2 ^ 54
  /\ exists x, parseReminderTime no_text (VString (s ++ lit "m")) = Normal (Some x)
               /\ to_Z x = Some 9007199254740992
               /\ to_Z x <> Some (decimal_string_value s).
Proof.
  cbv zeta. split; [discriminate|]. split; [reflexivity|]. split; [reflexivity|].
  split; [reflexivity|]. exists (of_Z 9007199254740992).
  split; [vm_compute; reflexivity|]. split; [reflexivity|]. vm_compute. discriminate.
Qed.

(** Against C2 as stated: the numeric input 1.5 is returned as it is, a
    fraction; a string of 310 nines parses to plus infinity; and so does
    a string of 308 nines followed by [h], whose digits are within the
    range of the Numbers but whose minute count is not. *)
Lemma fractional_and_infinite_results :
  valid_binary prec emax one_and_a_half = true
  /\ mul one_and_a_half (of_Z 2) = of_Z 3
  /\ parseReminderTime no_text (VNumber one_and_a_half) = Normal (Some one_and_a_half)
  /\ is_integer one_and_a_half = false
  /\ parseReminderTime no_text (VString (repeat 57%N 310 ++ lit "m"))
      = Normal (Some Infinity)
  /\ isFinite Infinity = false
  /\ isFinite (parseInt (repeat 57%N 308)) = true
  /\ parseReminderTime no_text (VString (repeat 57%N 308 ++ lit "h"))
      = Normal (Some Infinity).
Proof. repeat split; vm_compute; reflexivity. Qed.

(** Against C3 as stated: the leading decimal digits of [0x10] write 0,
    yet the numeric part is 16; and [-5], which has no leading decimal
    digit, does not fail but gives -5. *)
Lemma sign_and_hex_prefix_are_read :
  trim (lit "0x10") = lit "0x10"
  /\ spec_integer_prefix (lit "0x10") = Some 0
  /\ parseInt (lit "0x10") = of_Z 16
  /\ parseReminderTime no_text (VString (lit "0x10")) = Normal (Some (of_Z 16))
  /\ of_Z 16 <> of_Z 0
  /\ trim (lit "-5") = lit "-5"
  /\ spec_integer_prefix (lit "-5") = None
  /\ parseReminderTime no_text (VString (lit "-5")) = Normal (Some (of_Z (-5))).
Proof.
  repeat split; try (vm_compute; reflexivity). vm_compute. discriminate.
Qed.

Lemma numeric_part_is_decimal_prefix_witness :
  has_sign_or_hex_prefix (trim (lit " 30m ")) = false
  /\ spec_integer_prefix (trim (lit " 30m ")) = Some 30
  /\ parseInt (trim (lit " 30m ")) = of_Z 30
  /\ parseReminderTime no_text (VString (lit " 30m ")) = Normal (Some (of_Z 30))
  /\ parseReminderTime no_text (VString (lit "2 hours, roughly; h"))
     = Normal (Some (of_Z 120)).
Proof.
  pose proof (numeric_part_is_decimal_prefix no_text (lit " 30m ") eq_refl) as H.
  change (spec_integer_prefix (trim (lit " 30m "))) with (Some 30) in H.
  destruct H as (Hv & _ & _ & Hp).
  pose proof (numeric_part_is_decimal_prefix no_text (lit "2 hours, roughly; h") eq_refl)
    as H2.
  change (spec_integer_prefix (trim (lit "2 hours, roughly; h"))) with (Some 2) in H2.
  destruct H2 as (_ & _ & _ & Hp2).
  split; [reflexivity|]. split; [reflexivity|]. split; [exact Hv|].
  split; [apply Hp; reflexivity|apply Hp2; reflexivity].
Defined.

(** Against C10 as stated: the string form [0xg] of the one-element
    array begins with the decimal digit 0, and the parser fails. *)
Lemma array_with_hex_prefix_fails :
  let v := VArray [VString (lit "0xg")] in
  ToString no_text v = Normal (lit "0xg")
  /\ is_decimal_digit 48%N = true
  /\ parseReminderTime no_text v = Normal None.
Proof. repeat split; vm_compute; reflexivity. Qed.

Lemma parse_converts_to_string_witness :
  exists x, parseReminderTime no_text (VArray [VString (lit "45")]) = Normal (Some x)
            /\ parse_text (lit "45") = Some x.
Proof.
  destruct (parse_converts_to_string no_text (VArray [VString (lit "45")]))
    as (_ & H & _).
  exact (H 52%N (lit "5") I eq_refl eq_refl eq_refl).
Defined.

(** ** The intake handler *)

Lemma notify_then_persist_witness :
  exists resp w',
    set_reminder no_text no_format (example_env false) cast_string
      (example_request (VString (lit "30m"))) empty_world = (Normal resp, w')
    /\ status resp = 500 /\ store w' = [].
Proof.
  destruct (notify_then_persist no_text no_format (example_env false) cast_string
              (example_request (VString (lit "30m"))) empty_world)
    as (resp & w' & evs & Hrun & Htr & _ & Hfail & _).
  exists resp, w'. split; [exact Hrun|].
  assert (Hev : exists m, EvMail m false ∈ evs).
  { assert (Hw : trace w' = trace (set_reminder no_text no_format (example_env false)
                   cast_string (example_request (VString (lit "30m"))) empty_world).2)
      by now rewrite Hrun.
    rewrite Htr in Hw. cbn [empty_world trace app] in Hw. rewrite Hw.
    eexists. vm_compute. left. }
  destruct Hev as [m Hm]. destruct (Hfail m Hm) as (_ & _ & Hst & Hstore).
  split; [exact Hst|exact Hstore].
Defined.

(** Against C8 as stated: for the numeric input 1/128 of a minute the
    offset is 468.75 ms, and the record is persisted 468 ms after the
    handling instant. *)
Lemma fractional_minutes_are_truncated :
  let now := 1700000000000 in
  let offset := mul (mul one_128th (of_Z 60)) (of_Z 1000) in
  valid_binary prec emax one_128th = true
  /\ mul one_128th (of_Z 128) = of_Z 1
  /\ mul offset (of_Z 4) = of_Z 1875
  /\ exists resp r tr,
       set_reminder no_text no_format (example_env true) cast_string
         (example_request (VNumber one_128th)) empty_world
         = (Normal resp, {| store := [r]; trace := tr |})
       /\ status resp = 200
       /\ scheduledFor r = now + 468
       /\ getTime (DateAt (scheduledFor r)) <> add (getTime (DateAt now)) offset.
Proof.
  cbv zeta. split; [reflexivity|]. split; [vm_compute; reflexivity|].
  split; [vm_compute; reflexivity|].
  eexists _, _, _. split; [vm_compute; reflexivity|].
  split; [reflexivity|]. split; [reflexivity|]. vm_compute. discriminate.
Qed.

Lemma persisted_schedule_witness :
  exists resp r tr,
    set_reminder no_text no_format (example_env true) cast_string
      (example_request (VString (lit "30m"))) empty_world
      = (Normal resp, {| store := [r]; trace := tr |})
    /\ scheduledFor r = 1700000000000 + 30 * 60 * 1000.
Proof.
  pose (run := set_reminder no_text no_format (example_env true) cast_string
                 (example_request (VString (lit "30m"))) empty_world).
  assert (Hrun : exists resp r tr, run = (Normal resp, {| store := [r]; trace := tr |})).
  { eexists _, _, _. vm_compute. reflexivity. }
  destruct Hrun as (resp & r & tr & Hrun). exists resp, r, tr. split; [exact Hrun|].
  destruct (persisted_schedule no_text no_format (example_env true) cast_string
              (example_request (VString (lit "30m"))) empty_world) as (Hsaved & _).
  destruct (Hsaved resp _ Hrun) as (minutes & r' & Hp & _ & Hst & _ & _ & Hexact).
  { cbn. discriminate. }
  cbn [store empty_world app] in Hst. injection Hst as ->.
  assert (Hm : minutes = of_Z 30).
  { assert (Hp' : parseReminderTime no_text (VString (lit "30m")) = Normal (Some (of_Z 30)))
      by (vm_compute; reflexivity).
    cbn [example_request req_reminderMinutes] in Hp. rewrite Hp' in Hp. now injection Hp. }
  apply (Hexact 30 Hm). cbn. lia.
Defined.

(** ** The sweep handler *)

Lemma sweep_processes_due_witness :
  let served := {| status := 200; body := CheckRemindersBody 2 |} in
  check_reminders (example_env true) (Some (lit "Sanjeev")) example_world
    = (Normal served, successful_sweep.2)
  /\ store successful_sweep.2 !! 0%nat
      = Some (mark_sent (example_reminder 1650000000000 false))
  /\ store successful_sweep.2 !! 1%nat
      = Some (example_reminder 1800000000000 false)
  /\ exists m r',
       EvMail m true ∈ trace successful_sweep.2
       /\ mail_to m = VString (lit "user@example.com")
       /\ store successful_sweep.2 !! 3%nat = Some r' /\ sent r' = true.
Proof.
  intros served.
  assert (Hrun : check_reminders (example_env true) (Some (lit "Sanjeev")) example_world
                 = (Normal served, successful_sweep.2)) by (vm_compute; reflexivity).
  destruct (sweep_processes_due (example_env true) example_world served
              successful_sweep.2 (trace successful_sweep.2) Hrun eq_refl)
    as (_ & _ & _ & _ & Hst & _ & Hdue & _).
  - intros t Hin. vm_compute in Hin. in_events Hin.
  - intros m Hin. vm_compute in Hin. in_events Hin.
  - intros i Hin. vm_compute in Hin. in_events Hin.
  - split; [exact Hrun|]. split; [exact (Hst 0%nat _ eq_refl)|].
    split; [exact (Hst 1%nat _ eq_refl)|].
    destruct (Hdue 3%nat (example_reminder 1670000000000 false))
      as (m & r' & before & after & Hevs & _ & Hto & _ & _ & Hi & Hsent & _).
    { vm_compute. right. left. }
    exists m, r'. split; [|split; [exact Hto|split; [exact Hi|exact Hsent]]].
    rewrite Hevs, elem_of_app, elem_of_app. right. left. left.
Defined.

(** Against C5 as stated: with the correct secret, two records due and
    no notification or store update rejected (none is attempted), the
    answer is 500 when the store rejects the query, and no record is
    notified or marked sent. *)
Lemma rejected_query_answers_500 :
  let now := 1700000000000 in
  exists resp w',
    check_reminders query_down_env (Some (lit "Sanjeev")) example_world
    = (Normal resp, w')
    /\ length (due_reminders now (store example_world)) = 2%nat
    /\ (forall m ok, EvMail m ok ∉ trace w')
    /\ (forall i ok, EvUpdate i ok ∉ trace w')
    /\ status resp = 500
    /\ resp <> {| status := 200; body := CheckRemindersBody 2 |}
    /\ trace w' = [EvFindFailed now]
    /\ store w' = store example_world.
Proof.
  cbv zeta. exists sweep_failed, rejected_query_sweep.2.
  split; [vm_compute; reflexivity|]. split; [reflexivity|].
  split; [intros m ok Hin; vm_compute in Hin; in_events Hin|].
  split; [intros i ok Hin; vm_compute in Hin; in_events Hin|].
  split; [reflexivity|]. split; [discriminate|]. split; reflexivity.
Qed.

Lemma sweep_fails_fast_witness :
  status sweep_failed = 500
  /\ (sent <$> store failed_sweep.2) = [false; false; true; false].
Proof.
  destruct (sweep_fails_fast (example_env false) example_world sweep_failed
              failed_sweep.2 (trace failed_sweep.2)) as (Hst & _).
  - vm_compute. reflexivity.
  - reflexivity.
  - left. eexists. vm_compute. right. left.
  - split; [exact Hst|reflexivity].
Defined.

Lemma sweep_rejects_wrong_secret_witness :
  check_reminders (example_env true) (Some (lit "sanjeev")) example_world
    = (Normal unauthorized, example_world)
  /\ check_reminders (example_env true) None example_world
     = (Normal unauthorized, example_world).
Proof.
  split.
  - apply (sweep_rejects_wrong_secret (example_env true) (Some (lit "sanjeev"))
             example_world). discriminate.
  - apply (sweep_rejects_wrong_secret (example_env true) None example_world).
    discriminate.
Defined.

(** Against C7 as stated: no environment variable holds the expected
    secret; a header equal to the value of any variable is still
    rejected. *)
Lemma secret_is_not_from_environment :
  ~ exists key : jsstring,
      forall (E : Environment) (secret : option jsstring) (w : World),
        (check_reminders E secret w).1 = Normal unauthorized
        <-> secret <> process_env E !! key.
Proof.
  intros [key H].
  pose (E := {| process_env := {[ key := lit "hunter2" ]};
                clock := fun _ => 0;
                mail_accepts := fun _ _ => true;
                find_accepts := fun _ _ => true;
                insert_accepts := fun _ _ => true;
                update_accepts := fun _ _ => true |}).
  destruct (H E (Some (lit "hunter2")) empty_world) as [H1 _].
  apply H1; [reflexivity|]. cbn [process_env E]. now rewrite lookup_singleton_eq.
Qed.

Lemma successful_sweep_run :
  check_reminders (example_env true) (Some (lit "Sanjeev")) example_world
  = (Normal {| status := 200; body := CheckRemindersBody 2 |}, successful_sweep.2).
Proof. vm_compute. reflexivity. Qed.

Lemma sent_flag_lifecycle_witness :
  let w' := successful_sweep.2 in
  step no_text no_format (example_env true) cast_string example_world w'
  /\ exists r', store w' !! 0%nat = Some r'
                /\ evolves (example_reminder 1650000000000 false) r'.
Proof.
  intros w'.
  assert (Hstep : step no_text no_format (example_env true) cast_string example_world w')
    by (eapply step_check_reminders; exact successful_sweep_run).
  split; [exact Hstep|].
  destruct (sent_flag_lifecycle no_text no_format cast_string) as (Hone & _ & _).
  destruct (Hone _ _ _ Hstep) as (_ & Hkeep & _).
  apply (Hkeep 0%nat). reflexivity.
Defined.

(** ** Further examples *)

Lemma parse_ignores_padding_witness :
  parseReminderTime no_text (VString (lit "  " ++ lit "10m" ++ lit " "))
  = parseReminderTime no_text (VString (lit "10m")).
Proof.
  apply (parse_ignores_padding no_text (lit "  ") (lit "10m") (lit " "));
    reflexivity.
Defined.

Lemma parse_ignores_middle_witness :
  parseReminderTime no_text (VString (lit "2" ++ lit " and a bit " ++ lit "h"))
  = parseReminderTime no_text (VString (lit "2" ++ lit "h")).
Proof.
  apply (parse_ignores_middle no_text (lit "2") (lit " and a bit ") 104%N);
    try reflexivity. discriminate.
Defined.


Lemma parse_accepts_plus_sign_witness :
  parseReminderTime no_text (VString (lit "+5m"))
  = parseReminderTime no_text (VString (lit "5m")).
Proof. exact (parse_accepts_plus_sign no_text 53%N (lit "m") eq_refl). Defined.

Lemma negative_text_is_rejected_witness :
  set_reminder no_text no_format (example_env true) cast_string
    (example_request (VString (lit "-5m"))) empty_world
  = (Normal invalid_time, empty_world).
Proof.
  destruct (negative_text_is_rejected no_text no_format (example_env true) cast_string
              (lit "-5m") (lit "5m") eq_refl) as [_ H].
  apply H; reflexivity.
Defined.

Lemma missing_fields_first_witness :
  set_reminder no_text no_format (example_env true) cast_string
    (example_request (VNumber (of_Z 0))) empty_world
  = (Normal missing_fields, empty_world).
Proof.
  apply (missing_fields_first no_text no_format (example_env true) cast_string
           (example_request (VNumber (of_Z 0))) empty_world).
  reflexivity.
Defined.

Lemma saved_world_run :
  set_reminder no_text no_format (example_env true) cast_string
    (example_request (VString (lit "30m"))) empty_world
  = (Normal (set_ok []), saved_world.2).
Proof. vm_compute. reflexivity. Qed.

Lemma intake_answers_witness :
  exists r, store saved_world.2 = store empty_world ++ [r].
Proof.
  destruct (intake_answers no_text no_format (example_env true) cast_string
              _ _ _ _ saved_world_run) as (_ & _ & Hiff & _).
  apply Hiff. reflexivity.
Defined.

Lemma stored_record_fields_witness :
  exists r, store saved_world.2 = [r] /\ email r = lit "user@example.com"
            /\ problemTitle r = Some (lit "Two Sum").
Proof.
  assert (Hst : exists r, store saved_world.2 = store empty_world ++ [r])
    by (eexists; reflexivity).
  destruct Hst as [r Hst]. exists r. split; [exact Hst|].
  destruct (stored_record_fields no_text no_format (example_env true) cast_string
              _ _ _ _ r saved_world_run Hst) as (He & _ & _ & _ & Ht & _).
  cbn in He, Ht. destruct Ht as (t & [= <-] & Ht). injection He as He.
  split; [now symmetry|exact Ht].
Defined.

Lemma unschedulable_is_mailed_first_witness :
  let req := example_request (VString (lit "99999999999999")) in
  exists html,
    set_reminder no_text no_format (example_env true) cast_string req empty_world
    = (Normal set_failed,
       {| store := [];
          trace := [EvMail (confirmation_mail (example_env true) req html) true] |}).
Proof.
  intros req.
  assert (Hh : exists html,
    confirmation_html no_text (req_problemTitle req) (req_problemUrl req)
      (no_format InvalidDate) = Normal html) by (eexists; vm_compute; reflexivity).
  destruct Hh as [html Hh]. exists html.
  destruct (unschedulable_is_mailed_first no_text no_format (example_env true)
              cast_string req empty_world) as [H _].
  specialize (H (of_Z 99999999999999) eq_refl eq_refl eq_refl).
  rewrite Hh in H. apply H; vm_compute; reflexivity.
Defined.

Lemma swept_records_are_not_due_again_witness :
  due_reminders 1700000000000 (store successful_sweep.2) = [].
Proof.
  destruct (swept_records_are_not_due_again (example_env true) _ _ _ _
              successful_sweep_run eq_refl) as [_ H].
  apply (H 1700000000000). cbn. lia.
Defined.

Lemma rejected_update_sweep_run :
  check_reminders (example_env_at 1700000000000 false) (Some (lit "Sanjeev")) example_world
  = (Normal sweep_failed, rejected_update_sweep.2).
Proof. vm_compute. reflexivity. Qed.

Lemma redelivery_sweep_run :
  check_reminders (example_env true) (Some (lit "Sanjeev")) rejected_update_sweep.2
  = (Normal {| status := 200; body := CheckRemindersBody 2 |}, redelivery_sweep.2).
Proof. vm_compute. reflexivity. Qed.

Lemma redelivery_after_failed_update_witness :
  exists r r' m,
    store example_world !! 0%nat = Some r
    /\ store rejected_update_sweep.2 !! 0%nat = Some r
    /\ sent r = false
    /\ mail_to m = VString (lit "user@example.com")
    /\ EvMail m true ∈ trace rejected_update_sweep.2
    /\ EvMail m true ∈ drop (length (trace rejected_update_sweep.2))
                          (trace redelivery_sweep.2)
    /\ store redelivery_sweep.2 !! 0%nat = Some r'
    /\ sent r' = true.
Proof.
  destruct (redelivery_after_failed_update (example_env_at 1700000000000 false)
              (example_env true) example_world sweep_failed rejected_update_sweep.2
              (trace rejected_update_sweep.2) 0%nat rejected_update_sweep_run eq_refl)
    as (r & H1 & H2 & H3 & Hm1 & Hto & _ & Hnext).
  - vm_compute. right. right. left.
  - assert (Hr : r = example_reminder 1650000000000 false)
      by (cbn in H1; now injection H1).
    destruct (Hnext _ redelivery_sweep.2
                (drop (length (trace rejected_update_sweep.2)) (trace redelivery_sweep.2))
                redelivery_sweep_run)
      as (Hm2 & _ & _ & _ & _ & r' & Hi' & Hsent' & _).
    + reflexivity.
    + reflexivity.
    + rewrite Hr. cbn. lia.
    + exists r, r', (reminder_mail (example_env true) r).
      split; [exact H1|]. split; [exact H2|]. split; [exact H3|].
      split; [rewrite Hr; reflexivity|].
      split; [exact Hm1|]. split; [exact Hm2|]. split; [exact Hi'|exact Hsent'].
Defined.

Lemma stored_records_are_well_formed_witness :
  Forall well_formed (store saved_world.2).
Proof.
  destruct (stored_records_are_well_formed no_text no_format cast_string)
    as (_ & H & _).
  apply (H empty_world); [|constructor].
  apply rtc_once. exists (example_env true).
  eapply step_set_reminder. exact saved_world_run.
Defined.

Lemma schedule_never_in_the_past_witness :
  schedule 1700000000000 one_128th = DateAt 1700000000468
  /\ 1700000000000 <= 1700000000468.
Proof.
  assert (Hs : schedule 1700000000000 one_128th = DateAt 1700000000468)
    by (vm_compute; reflexivity).
  split; [exact Hs|].
  destruct (schedule_never_in_the_past no_text no_format cast_string) as [H _].
  apply (H 1700000000000 one_128th 1700000000468); [lia|reflexivity|exact Hs].
Defined.

Lemma early_sweep_run :
  check_reminders (example_env true) (Some (lit "Sanjeev")) saved_world.2
  = (Normal {| status := 200; body := CheckRemindersBody 0 |}, early_sweep.2).
Proof. vm_compute. reflexivity. Qed.

Lemma delivery_sweep_run :
  check_reminders (example_env_at 1700001800000 true) (Some (lit "Sanjeev"))
    saved_world.2
  = (Normal {| status := 200; body := CheckRemindersBody 1 |}, delivery_sweep.2).
Proof. vm_compute. reflexivity. Qed.

Lemma reminder_is_sent_when_due_witness :
  exists r r',
    store saved_world.2 !! 0%nat = Some r
    /\ scheduledFor r = 1700000000000 + 30 * 60 * 1000
    /\ sent r = false
    /\ store early_sweep.2 !! 0%nat = Some r
    /\ EvMail (reminder_mail (example_env_at 1700001800000 true) r) true
         ∈ drop (length (trace saved_world.2)) (trace delivery_sweep.2)
    /\ mail_to (reminder_mail (example_env_at 1700001800000 true) r)
       = VString (lit "user@example.com")
    /\ store delivery_sweep.2 !! 0%nat = Some r'
    /\ sent r' = true.
Proof.
  destruct (reminder_is_sent_when_due no_text no_format cast_string
              (example_env true) (example_env true)
              (example_request (VString (lit "30m"))) empty_world _ _ 30
              saved_world_run eq_refl)
    as (r & _ & Hi & Hs & Hsent & _ & Hearly).
  { vm_compute. reflexivity. }
  { cbn. lia. }
  destruct (reminder_is_sent_when_due no_text no_format cast_string
              (example_env true) (example_env_at 1700001800000 true)
              (example_request (VString (lit "30m"))) empty_world _ _ 30
              saved_world_run eq_refl)
    as (r2 & _ & Hi2 & _ & _ & He & Hlate).
  { vm_compute. reflexivity. }
  { cbn. lia. }
  assert (r2 = r) by congruence. subst r2.
  destruct (Hearly _ early_sweep.2
              (drop (length (trace saved_world.2)) (trace early_sweep.2))
              early_sweep_run eq_refl) as [Hkeep _].
  destruct (Hlate _ delivery_sweep.2
              (drop (length (trace saved_world.2)) (trace delivery_sweep.2))
              delivery_sweep_run eq_refl) as [_ Hsend].
  destruct (Hkeep ltac:(cbn; lia)) as [Hsame _].
  destruct (Hsend ltac:(cbn; lia) eq_refl)
    as (_ & Hmail & Hto & _ & r' & Hi' & Hsent' & _).
  exists r, r'. cbn in He. injection He as He.
  split; [exact Hi|]. split; [exact Hs|]. split; [exact Hsent|].
  split; [exact Hsame|]. split; [exact Hmail|].
  split; [rewrite Hto, <- He; reflexivity|]. split; [exact Hi'|exact Hsent'].
Defined.

Lemma due_until_sent_witness :
  store successful_sweep.2 !! 0%nat
  = Some (mark_sent (example_reminder 1650000000000 false))
  \/ (0%nat, example_reminder 1650000000000 false)
     ∈ due_reminders 1700000000000 (store successful_sweep.2).
Proof.
  apply (due_until_sent no_text no_format cast_string example_world successful_sweep.2
           0%nat (example_reminder 1650000000000 false) 1700000000000 1700000000000).
  - apply rtc_once. exists (example_env true).
    eapply step_check_reminders. exact successful_sweep_run.
  - vm_compute. left.
  - lia.
Defined.

Lemma unconvertible_field_fails_quietly_witness :
  set_reminder no_text no_format (example_env true) cast_string
    (example_request unconvertible) empty_world
  = (Normal set_failed, empty_world).
Proof.
  destruct (unconvertible_field_fails_quietly no_text no_format (example_env true)
              cast_string (example_request unconvertible) empty_world
              [(lit "toString", VNull)] eq_refl eq_refl eq_refl) as [H _].
  apply H. reflexivity.
Defined.

Lemma second_sweep_run :
  check_reminders (example_env_at 1900000000000 true) (Some (lit "Sanjeev"))
    successful_sweep.2
  = (Normal {| status := 200; body := CheckRemindersBody 1 |}, second_sweep.2).
Proof. vm_compute. reflexivity. Qed.

Lemma sweeps_compose_witness :
  store second_sweep.2
  = mark_all (due_reminders 1900000000000 (store example_world)).*1
      (store example_world).
Proof.
  apply (sweeps_compose (example_env true) (example_env_at 1900000000000 true)
           _ _ example_world _ successful_sweep.2 _ second_sweep.2
           successful_sweep_run eq_refl second_sweep_run eq_refl).
  cbn. lia.
Defined.
